(** * The base widget of flexx.ui: virtual-node reconciliation, parenting
      and the mouse-capture input machine

    Shallow embedding of [flexx/ui/_widget.py].  The file is PyScript: it is
    Python syntax that runs as JavaScript in the browser (strict mode),
    so tuples and lists are both arrays, arithmetic is that of doubles,
    [nan] fails every comparison, and a missing table entry is [undefined]
    rather than an exception. *)

From Stdlib Require Import ZArith String Ascii List Lia Bool.
From Stdlib Require Import SpecFloat DecimalString.
From stdpp Require Import base list strings functions.
Import ListNotations.

Set Warnings "-register-all".
Open Scope string_scope.
Open Scope Z_scope.

(** ** Strings: the few [str] methods the widget uses *)

Module Str.

(** [c.lower()] on one character (ASCII letters only). *)
Definition lower_ascii (c : ascii) : ascii :=
  let n := nat_of_ascii c in
  if ((65 <=? n) && (n <=? 90))%nat then ascii_of_nat (n + 32) else c.

Definition upper_ascii (c : ascii) : ascii :=
  let n := nat_of_ascii c in
  if ((97 <=? n) && (n <=? 122))%nat then ascii_of_nat (n - 32) else c.

(** [s.lower()] *)
Fixpoint lower (s : string) : string :=
  match s with
  | EmptyString => EmptyString
  | String c r => String (lower_ascii c) (lower r)
  end.

(** [s.upper()], used by the document for the [nodeName] of an element *)
Fixpoint upper (s : string) : string :=
  match s with
  | EmptyString => EmptyString
  | String c r => String (upper_ascii c) (upper r)
  end.

Definition underscore : ascii := "_"%char.
Definition dot : ascii := "."%char.

(** [key.replace('__', '.')]: occurrences are taken from the left and do
    not overlap. *)
Fixpoint replace_dunder (s : string) : string :=
  match s with
  | EmptyString => EmptyString
  | String c r =>
      match r with
      | String c' r' =>
          if Ascii.eqb c underscore && Ascii.eqb c' underscore
          then String dot (replace_dunder r')
          else String c (replace_dunder r)
      | EmptyString => String c EmptyString
      end
  end.

(** [s.split('.')]: never empty, [''.split('.') == ['']]. *)
Fixpoint split_dot (s : string) : list string :=
  match s with
  | EmptyString => [EmptyString]
  | String c r =>
      if Ascii.eqb c dot then EmptyString :: split_dot r
      else match split_dot r with
           | seg :: segs => String c seg :: segs
           | [] => [String c EmptyString]
           end
  end.

(** [sub in s] for strings. *)
Fixpoint contains (sub s : string) : bool :=
  String.prefix sub s ||
  match s with
  | EmptyString => false
  | String _ r => contains sub r
  end.

(** [sep.join(l)] *)
Fixpoint join (sep : string) (l : list string) : string :=
  match l with
  | [] => EmptyString
  | x :: r =>
      match r with
      | [] => x
      | _ => x +:+ sep +:+ join sep r
      end
  end.

End Str.

(** ** Numbers *)

Module Double.

(** A JavaScript number: an IEEE 754 double, as the standard library
    specifies it (53 bits of precision, exponents up to 1024). *)
Definition double := spec_float.

(** The double that an integer literal denotes. *)
Definition of_Z (z : Z) : double := binary_normalize 53 1024 z 0 false.

(** [a * b], [a + b] and [a > b] on numbers. *)
Definition mul (a b : double) : double := SFmul 53 1024 a b.
Definition add (a b : double) : double := SFadd 53 1024 a b.
Definition gt (a b : double) : bool := SFltb b a.

(** [0.5] *)
Definition half : double := binary_normalize 53 1024 1 (-1) false.

End Double.

(** ** Input: raw events, normalised event records, mouse capture *)

Module Input.
Import Double.

(** The raw browser event, with the fields the widget reads.  A wheel
    event is a mouse event with three more fields. *)
Record raw_event := RawEvent {
  altKey : bool; shiftKey : bool; ctrlKey : bool; metaKey : bool;
  clientX : Z; clientY : Z;
  pageX : Z; pageY : Z;
  button : Z;
  buttons : Z;
  deltaX : double; deltaY : double;
  deltaMode : nat
}.

(** [a * b] where [b] may be [undefined] (a table index out of range).
    Two numbers are multiplied as doubles; with one operand a number and
    the other [undefined] the compiled multiplication raises a
    [TypeError]: [None]. *)
Definition js_mul (a : double) (b : option double) : option double :=
  match b with
  | Some m => Some (mul a m)
  | None => None
  end.

(** The event dict built by [_create_mouse_event]; [hscroll] and [vscroll]
    are keys that only wheel events have.  [ev_button] is [None] when the
    button table has no entry ([undefined]). *)
Record mouse_event := MouseEvent {
  pos : Z * Z;
  page_pos : Z * Z;
  ev_button : option Z;
  ev_buttons : list Z;
  modifiers : list string;
  hscroll : option double;
  vscroll : option double
}.

Inductive emitter := mouse_down_ev | mouse_up_ev | mouse_move_ev | mouse_wheel_ev.

#[global] Instance emitter_eq_dec : EqDecision emitter.
Proof. solve_decision. Defined.

(** What the input machine of one widget holds. *)
Record state := State {
  capture_mouse : Z;                (* the property, 0, 1 or 2 *)
  capture_flag : Z;                 (* self._capture_flag *)
  doc_listeners : bool;             (* mmove_outside / mup_outside on document *)
  node_rect : Z * Z;                (* node.getBoundingClientRect(): left, top *)
  emitted : list (emitter * mouse_event)  (* events emitted so far, oldest first *)
}.

Definition set_flag (f : Z) (s : state) : state :=
  State (capture_mouse s) f (doc_listeners s) (node_rect s) (emitted s).

Definition set_listeners (b : bool) (s : state) : state :=
  State (capture_mouse s) (capture_flag s) b (node_rect s) (emitted s).

Definition emit (k : emitter) (ev : mouse_event) (s : state) : state :=
  State (capture_mouse s) (capture_flag s) (doc_listeners s) (node_rect s)
        (emitted s ++ [(k, ev)]).

(** [{0: 1, 1: 3, 2: 2, 3: 4, 4: 5}[e.button]] *)
Definition button_table (b : Z) : option Z :=
  if b =? 0 then Some 1 else
  if b =? 1 then Some 3 else
  if b =? 2 then Some 2 else
  if b =? 3 then Some 4 else
  if b =? 4 then Some 5 else None.

(** [[n for n in ('Alt','Shift','Ctrl','Meta') if e[n.lower()+'Key']]] *)
Definition event_modifiers (e : raw_event) : list string :=
  (if altKey e then ["Alt"] else []) ++
  (if shiftKey e then ["Shift"] else []) ++
  (if ctrlKey e then ["Ctrl"] else []) ++
  (if metaKey e then ["Meta"] else []).

(** The binary digits of a positive number, lowest first. *)
Fixpoint digits_low_first (p : positive) : list ascii :=
  match p with
  | xH => ["1"%char]
  | xO q => "0"%char :: digits_low_first q
  | xI q => "1"%char :: digits_low_first q
  end.

(** The characters of [n.toString(2)]: a minus sign for a negative
    number, then the binary digits of its magnitude, highest first. *)
Definition toString2 (n : Z) : list ascii :=
  match n with
  | Z0 => ["0"%char]
  | Zpos p => rev (digits_low_first p)
  | Zneg p => "-"%char :: rev (digits_low_first p)
  end.

(** [buttons_mask[i] == '1'].  With [e.buttons] truthy the mask is the
    text of [e.buttons.toString(2)] with its characters reversed;
    otherwise the mask is the one-element list [[e.button.toString(2)]],
    whose only entry equals ['1'] exactly when that text is ['1']. *)
Definition mask_bit (e : raw_event) (i : nat) : bool :=
  if buttons e =? 0
  then (i =? 0)%nat && bool_decide (toString2 (button e) = ["1"%char])
  else bool_decide (rev (toString2 (buttons e)) !! i = Some "1"%char).

(** [[i+1 for i in range(5) if buttons_mask[i] == '1']] *)
Definition event_buttons (e : raw_event) : list Z :=
  map (fun i => Z.of_nat i + 1) (filter (fun i => mask_bit e i = true) (seq 0 5)).

Definition _create_mouse_event (e : raw_event) (s : state) : mouse_event :=
  let offset := node_rect s in
  {| pos := (clientX e - fst offset, clientY e - snd offset);
     page_pos := (pageX e, pageY e);
     ev_button := button_table (button e);
     ev_buttons := event_buttons e;
     modifiers := event_modifiers e;
     hscroll := None;
     vscroll := None |}.

Definition with_button (b : Z) (ev : mouse_event) : mouse_event :=
  MouseEvent (pos ev) (page_pos ev) (Some b) (ev_buttons ev) (modifiers ev)
             (hscroll ev) (vscroll ev).

Definition with_scroll (h v : double) (ev : mouse_event) : mouse_event :=
  MouseEvent (pos ev) (page_pos ev) (ev_button ev) (ev_buttons ev) (modifiers ev)
             (Some h) (Some v).

(** The four emitters: each returns the event dict that is emitted. *)
Definition mouse_down (e : raw_event) (s : state) : mouse_event :=
  _create_mouse_event e s.

Definition mouse_up (e : raw_event) (s : state) : mouse_event :=
  _create_mouse_event e s.

Definition mouse_move (e : raw_event) (s : state) : mouse_event :=
  with_button 0 (_create_mouse_event e s).

Definition wheel_table : list double := [of_Z 1; of_Z 16; of_Z 600].

(** [None] when a multiplication raises: the emitter then returns
    nothing. *)
Definition mouse_wheel (e : raw_event) (s : state) : option mouse_event :=
  let ev := with_button 0 (_create_mouse_event e s) in
  match js_mul (deltaX e) (wheel_table !! deltaMode e) with
  | Some h =>
      match js_mul (deltaY e) (wheel_table !! deltaMode e) with
      | Some v => Some (with_scroll h v ev)
      | None => None
      end
  | None => None
  end.

(** Calling an emitter broadcasts its result; an emitter that raises
    broadcasts nothing. *)
Definition fire (k : emitter) (e : raw_event) (s : state) : state :=
  match k with
  | mouse_down_ev => emit k (mouse_down e s) s
  | mouse_up_ev => emit k (mouse_up e s) s
  | mouse_move_ev => emit k (mouse_move e s) s
  | mouse_wheel_ev =>
      match mouse_wheel e s with
      | Some ev => emit k ev s
      | None => s
      end
  end.

(** The closures of [_init_events]. *)
Definition mdown (e : raw_event) (s : state) : state :=
  if capture_mouse s =? 0 then set_flag 1 s
  else set_listeners true (set_flag 2 s).

Definition mmove_inside (e : raw_event) (s : state) : state :=
  if capture_flag s =? -1 then set_flag 0 s
  else if capture_flag s =? 1 then fire mouse_move_ev e s
  else if (capture_flag s =? 0) && (1 <? capture_mouse s) then fire mouse_move_ev e s
  else s.

Definition mup_inside (e : raw_event) (s : state) : state :=
  set_flag 0 (if capture_flag s =? 1 then fire mouse_up_ev e s else s).

(** [e = window.event if window.event else e] *)
Definition pick_event (window_event : option raw_event) (e : raw_event) : raw_event :=
  match window_event with
  | Some we => we
  | None => e
  end.

Definition mmove_outside (window_event : option raw_event) (e : raw_event)
    (s : state) : state :=
  if capture_flag s =? 2 then fire mouse_move_ev (pick_event window_event e) s
  else s.

Definition stopcapture (s : state) : state :=
  if capture_flag s =? 2 then set_listeners false (set_flag (-1) s)
  else s.

Definition mup_outside (window_event : option raw_event) (e : raw_event)
    (s : state) : state :=
  if capture_flag s =? 2
  then fire mouse_up_ev (pick_event window_event e) (stopcapture s)
  else s.

Definition losecapture (e : raw_event) (s : state) : state :=
  stopcapture s.

(** What the browser delivers.  The [Node...] events reach the listeners
    that [_init_events] puts on the inner anchor; the [Doc...] events are
    the document-wide path and reach the widget only while [mdown] has
    installed its two listeners there.  [window.event] is passed along
    with a document-wide delivery. *)
Inductive delivery :=
| NodeMouseDown (e : raw_event)
| NodeMouseMove (e : raw_event)
| NodeMouseUp (e : raw_event)
| NodeWheel (e : raw_event)
| NodeLoseCapture (e : raw_event)
| DocMouseMove (window_event : option raw_event) (e : raw_event)
| DocMouseUp (window_event : option raw_event) (e : raw_event).

(** One delivery.  On [mousedown] both the capturing listener [mdown] and
    the emitter [mouse_down] run; they touch different fields, so their
    order does not show. *)
Definition deliver (d : delivery) (s : state) : state :=
  match d with
  | NodeMouseDown e => fire mouse_down_ev e (mdown e s)
  | NodeMouseMove e => mmove_inside e s
  | NodeMouseUp e => mup_inside e s
  | NodeWheel e => fire mouse_wheel_ev e s
  | NodeLoseCapture e => losecapture e s
  | DocMouseMove we e => if doc_listeners s then mmove_outside we e s else s
  | DocMouseUp we e => if doc_listeners s then mup_outside we e s else s
  end.

Definition run (ds : list delivery) (s : state) : state :=
  fold_left (fun s d => deliver d s) ds s.

(** The emitters that have fired, oldest first. *)
Definition emitted_kinds (s : state) : list emitter := map fst (emitted s).

(** How many [mouse_move] events a widget has emitted. *)
Definition moves (s : state) : nat :=
  List.length (filter (fun k => k = mouse_move_ev) (emitted_kinds s)).

(** Press-down on the inner anchor, then a move on the document-wide path. *)
Definition press_then_outside_move (e1 : raw_event)
    (window_event : option raw_event) (e2 : raw_event) (s : state) : state :=
  run [NodeMouseDown e1; DocMouseMove window_event e2] s.

Definition origin_event : raw_event :=
  RawEvent false false false false 0 0 0 0 0 0 (of_Z 0) (of_Z 0) 0.

Definition idle (capture : Z) : state := State capture 0 false (0, 0) [].

End Input.

(** ** Hierarchy: the [parent] and [children] properties *)

Module Hierarchy.

Definition wid := nat.

(** An entry of a [children] list: a widget, or [None] (the last branch
    of [set_parent] appends [None]). *)
Definition entry := option wid.

(** The two properties [set_parent] mutates, for every widget. *)
Record widgets := Widgets {
  parent : wid -> option wid;
  children : wid -> list entry
}.

(** The [pos] argument: [None], a number, or [nan]. *)
Inductive position := PosNone | PosNum (z : Z) | PosNaN.

Definition _mutate_parent (self : wid) (p : option wid) (h : widgets) : widgets :=
  Widgets (<[self := p]> (parent h)) (children h).

Definition _mutate_children (self : wid) (l : list entry) (h : widgets) : widgets :=
  Widgets (parent h) (<[self := l]> (children h)).

(** [x in l] *)
Definition py_in (x : entry) (l : list entry) : bool := bool_decide (x ∈ l).

(** [l.remove(x)]: drops the first [x]. *)
Fixpoint py_remove (x : entry) (l : list entry) : list entry :=
  match l with
  | [] => []
  | y :: r => if decide (x = y) then r else y :: py_remove x r
  end.

(** [while self in children: children.remove(self)], with a bound on the
    number of rounds. *)
Fixpoint remove_loop (fuel : nat) (x : entry) (l : list entry) : list entry :=
  match fuel with
  | O => l
  | S f => if py_in x l then remove_loop f x (py_remove x l) else l
  end.

(** One round per element is enough. *)
Definition remove_self (self : wid) (l : list entry) : list entry :=
  remove_loop (length l) (Some self) l.

(** [a.splice(start, 0, x)] on an array: a negative [start] counts from
    the end, and both ends clamp. *)
Definition js_splice_in (start : Z) (x : entry) (l : list entry) : list entry :=
  let len := Z.of_nat (length l) in
  let k := if start <? 0 then Z.max (len + start) 0 else Z.min start len in
  take (Z.to_nat k) l ++ x :: drop (Z.to_nat k) l.

(** [l.insert(i, x)], as it is compiled:
    [i = (i < 0) ? this.length + i : i; this.splice(i, 0, x)].  An index
    below minus the length is still negative after the first step, and
    [splice] then counts it from the end once more. *)
Definition py_insert (i : Z) (x : entry) (l : list entry) : list entry :=
  let len := Z.of_nat (length l) in
  js_splice_in (if i <? 0 then len + i else i) x l.

(** [l.pop(-1)] *)
Definition py_pop_last (l : list entry) : list entry := removelast l.

(** The [if pos is None ... elif ... else] ladder of [set_parent].  For
    [nan] both comparisons fail and the last branch runs. *)
Definition place (pos : position) (self : wid) (l : list entry) : list entry :=
  match pos with
  | PosNone => l ++ [Some self]
  | PosNum z =>
      if 0 <=? z then py_insert z (Some self) l
      else py_pop_last (py_insert z (Some self) (l ++ [None]))
  | PosNaN => l ++ [None]
  end.

Definition is_pos_none (pos : position) : bool :=
  match pos with PosNone => true | _ => false end.

(** [Widget.set_parent].  The new parent is a widget or [None] by its
    type, so the [ValueError] of the source cannot arise. *)
Definition set_parent (self : wid) (new_parent : option wid) (pos : position)
    (h : widgets) : widgets :=
  let old_parent := parent h self in
  if bool_decide (new_parent = old_parent) && is_pos_none pos then h
  else
    let h := _mutate_parent self new_parent h in
    (* Remove ourselves *)
    let '(kept, h) :=
      match old_parent with
      | Some op =>
          let l := remove_self self (children h op) in
          (l, if bool_decide (old_parent = new_parent) then h
              else _mutate_children op l h)
      | None => ([], h)
      end in
    (* Insert ourselves *)
    match new_parent with
    | Some np =>
        let l := if bool_decide (old_parent = new_parent) then kept
                 else children h np in
        let l := remove_self self l in
        _mutate_children np (place pos self l) h
    | None => h
    end.

(** A hierarchy in which no widget has a parent or a child. *)
Definition orphans : widgets := Widgets (fun _ => None) (fun _ => []).

(** Widget 2 is the one child of widget 0. *)
Definition one_child : widgets :=
  Widgets (fun x => if decide (x = 2%nat) then Some 0%nat else None)
          (fun x => if decide (x = 0%nat) then [Some 2%nat] else []).

End Hierarchy.

(** ** The render target: real nodes *)

Module Dom.

(** JavaScript values held by node members and by [props]. *)
Inductive jsval :=
| JUndefined
| JNull
| JBool (b : bool)
| JNum (z : Z)
| JStr (s : string)
| JObj (fields : list (string * jsval)).

Definition fields := list (string * jsval).

(** [ob[k]] on the members of an object; a missing member is [undefined]. *)
Fixpoint get_field (k : string) (fs : fields) : jsval :=
  match fs with
  | [] => JUndefined
  | (k', v) :: r => if String.eqb k k' then v else get_field k r
  end.

(** [ob[k] = v] on the members of an object. *)
Fixpoint set_field (k : string) (v : jsval) (fs : fields) : fields :=
  match fs with
  | [] => [(k, v)]
  | (k', v') :: r =>
      if String.eqb k k' then (k, v) :: r else (k', v') :: set_field k v r
  end.

(** [ob = ob[part]] along [path], then [ob[key] = val].  Reading a member
    of [undefined] or [null] and, in strict mode, writing a member of a
    primitive are a [TypeError]: [None]. *)
Fixpoint assign_path (path : list string) (key : string) (val : jsval)
    (ob : jsval) : option jsval :=
  match ob with
  | JObj fs =>
      match path with
      | [] => Some (JObj (set_field key val fs))
      | p :: path' =>
          match assign_path path' key val (get_field p fs) with
          | Some sub => Some (JObj (set_field p sub fs))
          | None => None
          end
      end
  | _ => None
  end.

Definition node_id := nat.

(** Modelled from the spec: the render-target API is the browser's and
    not part of the sources.  A real node exposes its tag name, write
    access to its members, its ordered child list, and its inner markup.
    The tag is fixed when the node is created.  [attrs] holds the data
    members, each with the value last written to it (attributes,
    [className], the [style] map, ...); the content member [innerHTML] is
    the markup, and writing it replaces the content, children included
    (see [set_member]). *)
Record node := Node {
  nodeName : string;
  attrs : fields;
  children : list node_id;
  innerHTML : string
}.

(** The document: every node created so far; a node's identity is its
    index. *)
Abbreviation dom := (list node).

Inductive error :=
| TypeError (msg : string)
| ValueError (msg : string)
| DOMException (msg : string)
| AssertionError.

(** A computation on the document that may raise.  The document is
    returned in both cases: what was mutated before an exception stays
    mutated. *)
Definition M (A : Type) : Type := dom -> (error + A) * dom.

Definition ret {A} (a : A) : M A := fun d => (inr a, d).
Definition raise {A} (e : error) : M A := fun d => (inl e, d).
Definition bind {A B} (m : M A) (k : A -> M B) : M B :=
  fun d => match m d with
           | (inr a, d') => k a d'
           | (inl e, d') => (inl e, d')
           end.

Declare Scope dom_scope.
Delimit Scope dom_scope with dom.
Notation "'let*' x := m 'in' k" := (bind m (fun x => k))
  (at level 10, x name, m at level 100, k at level 200) : dom_scope.
Local Open Scope dom_scope.

Definition get_node (n : node_id) : M node :=
  fun d => match d !! n with
           | Some nd => (inr nd, d)
           | None => (inl (DOMException "no such node"), d)
           end.

Definition put_node (n : node_id) (nd : node) : M unit :=
  fun d => (inr tt, <[n := nd]> d).

Definition with_children (l : list node_id) (nd : node) : node :=
  Node (nodeName nd) (attrs nd) l (innerHTML nd).

Definition with_attrs (a : fields) (nd : node) : node :=
  Node (nodeName nd) a (children nd) (innerHTML nd).

(** [node.children] *)
Definition get_children (n : node_id) : M (list node_id) :=
  let* nd := get_node n in ret (children nd).

(** Modelled from the spec: create element by tag.
    [document.createElement(type)] gives a fresh element to which no
    member has been written, without children; an HTML document reports
    its [nodeName] in upper case. *)
Definition createElement (type : string) : M node_id :=
  fun d => (inr (length d), (d ++ [Node (Str.upper type) [] [] ""])%list).

Definition without (c : node_id) (l : list node_id) : list node_id :=
  filter (fun x => x <> c) l.

(** Modelled from the spec: child list insert and remove.  A node has one
    place in the tree: before it is put somewhere it is taken out of
    whatever child list holds it. *)
Definition detach (c : node_id) : M unit :=
  fun d => (inr tt, (fun nd => with_children (without c (children nd)) nd) <$> d).

Definition node_children (d : dom) (n : node_id) : list node_id :=
  match d !! n with
  | Some nd => children nd
  | None => []
  end.

(** Is [target] the node [root] or one of its descendants?  The depth of
    a tree is below the number of nodes, which bounds the search. *)
Fixpoint in_subtree (fuel : nat) (d : dom) (root target : node_id) : bool :=
  bool_decide (root = target) ||
  match fuel with
  | O => false
  | S f => existsb (fun c => in_subtree f d c target) (node_children d root)
  end.

Definition check_hierarchy (p c : node_id) : M unit :=
  fun d => if in_subtree (length d) d c p
           then (inl (DOMException "HierarchyRequestError"), d)
           else (inr tt, d).

(** [parent.removeChild(child)] *)
Definition removeChild (p c : node_id) : M unit :=
  let* nd := get_node p in
  if bool_decide (c ∈ children nd)
  then put_node p (with_children (without c (children nd)) nd)
  else raise (DOMException "NotFoundError").

(** [parent.appendChild(child)] *)
Definition appendChild (p c : node_id) : M unit :=
  let* _ := get_node p in
  let* _ := get_node c in
  let* _ := check_hierarchy p c in
  let* _ := detach c in
  let* nd := get_node p in
  put_node p (with_children (children nd ++ [c]) nd).

Fixpoint insert_before (new ref : node_id) (l : list node_id) : list node_id :=
  match l with
  | [] => []
  | x :: r => if decide (x = ref) then new :: x :: r else x :: insert_before new ref r
  end.

(** [parent.insertBefore(new, ref)], for [new] other than [ref] *)
Definition insertBefore (p new ref : node_id) : M unit :=
  let* nd := get_node p in
  let* _ := get_node new in
  let* _ := check_hierarchy p new in
  if bool_decide (ref ∈ children nd)
  then let* _ := detach new in
       let* nd := get_node p in
       put_node p (with_children (insert_before new ref (children nd)) nd)
  else raise (DOMException "NotFoundError").

(** Modelled from the spec: a string replaces the node's entire inner
    content (set inner markup), [node.innerHTML = s].  The elements the
    markup describes are kept as text, not as nodes of their own, so the
    element children become empty. *)
Definition set_innerHTML (n : node_id) (s : string) : M unit :=
  let* nd := get_node n in
  put_node n (Node (nodeName nd) (attrs nd) [] s).

(** [String(v)]: the text a value becomes when it is written to a member
    that holds text; there [null] gives the empty text.  The numbers of
    [jsval] are integers, written in decimal as JavaScript writes the
    integers below 10^21. *)
Definition to_text (v : jsval) : string :=
  match v with
  | JUndefined => "undefined"
  | JNull => ""
  | JBool true => "true"
  | JBool false => "false"
  | JNum z => NilZero.string_of_int (Z.to_int z)
  | JStr s => s
  | JObj _ => "[object Object]"
  end.

(** Modelled from the spec: property write access, [node[key] = val].
    The render target interprets a write to the content member
    [innerHTML]: the value, as text, replaces the inner content, which is
    what [node.innerHTML = s] of [set_innerHTML] is.  A write to any other
    member is kept as a datum of the node. *)
Definition set_member (n : node_id) (key : string) (val : jsval) : M unit :=
  if String.eqb key "innerHTML" then set_innerHTML n (to_text val)
  else let* nd := get_node n in
       put_node n (with_attrs (set_field key val (attrs nd)) nd).

(** [node[key]].  Every node has a style map, which is empty until
    something is written to it. *)
Definition get_member (key : string) (nd : node) : jsval :=
  if String.eqb key "innerHTML" then JStr (innerHTML nd)
  else match get_field key (attrs nd) with
       | JUndefined => if String.eqb key "style" then JObj [] else JUndefined
       | v => v
       end.

(** Did a computation end in a [ValueError]? *)
Definition is_value_error {A} (r : error + A) : Prop :=
  match r with
  | inl (ValueError _) => True
  | _ => False
  end.

(** A div (node 0) whose one child is a b element (node 1). *)
Definition div_with_child : dom :=
  [Node "DIV" [] [1%nat] ""; Node "B" [] [] ""].

End Dom.

(** ** Virtual nodes and the reconciler *)

Module VDom.
Import Dom.
Local Open Scope dom_scope.

(** The [children] field of a virtual node. *)
Inductive vchildren (V : Type) :=
| CNone                       (* None: do not touch the children *)
| CStr (s : string)           (* a str: the inner markup *)
| CList (l : list V)          (* a list or tuple of nodes *)
| COther.                     (* anything else *)
Arguments CNone {V}.
Arguments CStr {V} s.
Arguments CList {V} l.
Arguments COther {V}.

(** What [__render_resolve] may be handed as [vnode]. *)
Inductive vnode :=
| VReal (n : node_id)         (* a real node: [vnode.nodeName] is truthy *)
| VText (s : string)          (* a str *)
| VDict (type : jsval) (props : jsval) (children : vchildren vnode)
                              (* a dict with fields type, props, children *)
| VOther.                     (* neither node, str nor dict *)

(** An argument after [props] in a call of [create_element]. *)
Inductive child_arg :=
| ArgNode (v : vnode)
| ArgList (l : list vnode).

(** Python truth of a value, for [props or {}]. *)
Definition truthy (v : jsval) : bool :=
  match v with
  | JUndefined | JNull => false
  | JBool b => b
  | JNum z => negb (z =? 0)
  | JStr s => negb (String.eqb s "")
  | JObj fs => match fs with [] => false | _ => true end
  end.

(** A list given as one child among several is a child that is no node. *)
Definition arg_vnode (a : child_arg) : vnode :=
  match a with
  | ArgNode v => v
  | ArgList _ => VOther
  end.

(** [create_element(type, props=None, *children)] *)
Definition create_element (type : jsval) (props : jsval)
    (children : list child_arg) : vnode :=
  let children :=
    match children with
    | [] => CNone                          (* means, don't touch children *)
    | [ArgNode (VText s)] => CStr s
    | [ArgList l] => CList l
    | _ => CList (map arg_vnode children)
    end in
  VDict type (if truthy props then props else JObj []) children.

(** [{'css_class': 'className', 'class': 'className'}.get(key, key)] *)
Definition rename (key : string) : string :=
  if String.eqb key "css_class" then "className"
  else if String.eqb key "class" then "className"
  else key.

(** [key.replace('__', '.').split('.')] *)
Definition key_parts (key : string) : list string :=
  Str.split_dot (Str.replace_dunder key).

(** One round of the props loop: walk all parts but the last from the
    node, then assign to the (renamed) last part.  A key of one part
    writes a member of the node itself; a longer key reads the member
    named by its first part and assigns inside the object found there. *)
Definition assign_prop (n : node_id) (key : string) (val : jsval) : M unit :=
  let parts := key_parts key in
  let member := rename (List.last parts "") in
  match removelast parts with
  | [] => set_member n member val
  | p :: path =>
      let* nd := get_node n in
      match assign_path path member val (get_member p nd) with
      | Some sub => put_node n (with_attrs (set_field p sub (attrs nd)) nd)
      | None => raise (TypeError "cannot set member")
      end
  end.

(** Modelled from the spec: the members of a real node through which the
    render target hands out or replaces parts of the tree instead of
    holding a datum.  Of these the document above interprets [innerHTML],
    the one the reconciler itself writes; what a write through one of the
    others does is not modelled, and the statements about props that
    leave the tree alone are made for keys that start at none of them. *)
Definition tree_members : list string :=
  [ (* the content of the node *)
    "innerHTML"; "outerHTML"; "textContent"; "innerText"; "outerText"; "text";
    (* its place in the tree *)
    "parentNode"; "parentElement"; "children"; "childNodes";
    "firstChild"; "lastChild"; "firstElementChild"; "lastElementChild";
    "previousSibling"; "nextSibling";
    "previousElementSibling"; "nextElementSibling";
    "ownerDocument"; "offsetParent"; "shadowRoot"; "assignedSlot";
    (* nodes that elements of some tags hand out *)
    "form"; "content"; "contentDocument"; "caption"; "tHead"; "tFoot";
    "tBodies"; "rows"; "cells"; "options"; "length" ].

(** The member of the node at which the path of a prop key starts: the
    member that is written when the key has one part, else the member
    that is read first. *)
Definition first_member (key : string) : string :=
  match key_parts key with
  | [] => ""
  | [part] => rename part
  | part :: _ => part
  end.

(** A key that names a datum of the node, and props with such keys only. *)
Definition data_key (key : string) : bool :=
  negb (bool_decide (first_member key ∈ tree_members)).

Definition data_props (props : fields) : Prop :=
  Forall (fun kv => data_key (fst kv) = true) props.

(** [for key, val in vnode.props.items(): ...] *)
Fixpoint resolve_props (props : fields) (n : node_id) : M unit :=
  match props with
  | [] => ret tt
  | (key, val) :: rest =>
      let* _ := assign_prop n key val in
      resolve_props rest n
  end.

(** Reuse [node] when its tag is the wanted one, else create an element. *)
Definition resolve_node (type : string) (node : option node_id) : M node_id :=
  match node with
  | None => createElement type
  | Some n =>
      let* nd := get_node n in
      if bool_decide (Str.lower (nodeName nd) = Str.lower type)
      then ret n
      else createElement type
  end.

(** The checks on [type] and [props], the node itself and its props. *)
Definition resolve_head (type props : jsval) (node : option node_id) : M node_id :=
  match type with
  | JStr t =>
      match props with
      | JObj fs =>
          let* n := resolve_node t node in
          let* _ := resolve_props fs n in
          ret n
      | _ => raise (TypeError "Widget._render_dom() needs virtual node props as dict")
      end
  | _ => raise (TypeError "Widget._render_dom() needs virtual node type to be str")
  end.

(** [while len(node.children) > len(vnode.children):
       node.removeChild(node.children[len(node.children)-1])],
    with a bound on the number of rounds. *)
Fixpoint truncate_loop (fuel : nat) (n : node_id) (target : nat) : M unit :=
  match fuel with
  | O => ret tt
  | S f =>
      let* kids := get_children n in
      if (target <? List.length kids)%nat
      then match kids !! (List.length kids - 1)%nat with
           | Some c => let* _ := removeChild n c in truncate_loop f n target
           | None => ret tt
           end
      else ret tt
  end.

(** Each round removes a child, so one round per child is enough. *)
Definition truncate_children (n : node_id) (target : nat) : M unit :=
  let* kids := get_children n in
  truncate_loop (List.length kids) n target.

(** Put [new_subnode] where [subnode] was. *)
Definition splice (n : node_id) (subnode : option node_id)
    (new_subnode : node_id) : M unit :=
  match subnode with
  | None => appendChild n new_subnode
  | Some sub =>
      if bool_decide (sub = new_subnode) then ret tt
      else let* _ := insertBefore n new_subnode sub in removeChild n sub
  end.

(** [Widget.__render_resolve(vnode, node=None)] *)
Fixpoint render_resolve (v : vnode) (node : option node_id) : M node_id :=
  match v with
  | VReal n => ret n
  | VOther => raise (TypeError "Widget._render_dom() needs virtual nodes to be dicts")
  | VText s =>
      (* {'type': 'span', 'props': {}, 'children': vnode} *)
      let* n := resolve_head (JStr "span") (JObj []) node in
      let* _ := set_innerHTML n s in
      ret n
  | VDict type props ch =>
      let* n := resolve_head type props node in
      let* _ :=
        match ch with
        | CNone => ret tt        (* dont touch it *)
        | CStr s => set_innerHTML n s
        | CList vs =>
            let* _ := truncate_children n (List.length vs) in
            (fix resolve_children (vs : list vnode) (i1 : nat) : M unit :=
               match vs with
               | [] => ret tt
               | vsubnode :: rest =>
                   let* kids := get_children n in
                   let subnode := kids !! i1 in
                   let* new_subnode := render_resolve vsubnode subnode in
                   let* _ := splice n subnode new_subnode in
                   resolve_children rest (S i1)
               end) vs O
        | COther =>
            raise (TypeError "Widget._render_dom() needs virtual node children to be str or list")
        end in
      ret n
  end.

(** The positional loop of the list branch, on its own. *)
Fixpoint resolve_children (n : node_id) (vs : list vnode) (i1 : nat) : M unit :=
  match vs with
  | [] => ret tt
  | vsubnode :: rest =>
      let* kids := get_children n in
      let subnode := kids !! i1 in
      let* new_subnode := render_resolve vsubnode subnode in
      let* _ := splice n subnode new_subnode in
      resolve_children n rest (S i1)
  end.

(** What [_render_dom] returned. *)
Inductive rendered :=
| OutNone                     (* None *)
| OutList (l : list vnode)    (* a list, used as the root's content *)
| OutNode (v : vnode).        (* a real node, a str, a dict, or other *)

(** The reaction [Widget.__render], from the value [_render_dom] returned. *)
Definition render (outernode : node_id) (out : rendered) : M unit :=
  let resolve v :=
    let* node := render_resolve v (Some outernode) in
    if bool_decide (node = outernode) then ret tt else raise AssertionError in
  match out with
  | OutNone => ret tt
  | OutList l =>
      let* nd := get_node outernode in
      resolve (VDict (JStr (nodeName nd)) (JObj []) (CList l))
  | OutNode (VReal n) =>
      if bool_decide (n = outernode) then ret tt
      else raise (TypeError "Widget._render_dom() must return None, str, list or dict.")
  | OutNode (VText s) =>
      let* nd := get_node outernode in
      resolve (VDict (JStr (nodeName nd)) (JObj []) (CStr s))
  | OutNode (VDict type props ch) =>
      let* nd := get_node outernode in
      match type with
      | JStr t =>
          if bool_decide (Str.lower t = Str.lower (nodeName nd))
          then resolve (VDict type props ch)
          else raise (ValueError "Widget._render_dom() must return root node with same element type as outernode.")
      | _ => raise (TypeError "type has no method lower")
      end
  | OutNode VOther =>
      raise (TypeError "Widget._render_dom() must return None, str, list or dict.")
  end.

End VDom.

(** ** The browser's side of the input machine *)

Module Browser.
Import Input.

(** Modelled from the spec: raw press, move and release reach the widget on
    its inner anchor, or on the whole-document surface once captured.  The
    browser hands an event first to the capturing listeners of the
    document and then to the listeners of the node under the pointer, so a
    move or release over the widget is delivered on both paths, in that
    order, and one elsewhere only on the document-wide path. *)
Inductive gesture :=
| Press (e : raw_event)
| MoveInside (window_event : option raw_event) (e : raw_event)
| MoveOutside (window_event : option raw_event) (e : raw_event)
| ReleaseInside (window_event : option raw_event) (e : raw_event)
| ReleaseOutside (window_event : option raw_event) (e : raw_event)
| Wheel (e : raw_event)
| CaptureLost (e : raw_event).

Definition deliveries (g : gesture) : list delivery :=
  match g with
  | Press e => [NodeMouseDown e]
  | MoveInside we e => [DocMouseMove we e; NodeMouseMove e]
  | MoveOutside we e => [DocMouseMove we e]
  | ReleaseInside we e => [DocMouseUp we e; NodeMouseUp e]
  | ReleaseOutside we e => [DocMouseUp we e]
  | Wheel e => [NodeWheel e]
  | CaptureLost e => [NodeLoseCapture e]
  end.

Definition perform (g : gesture) (s : state) : state := run (deliveries g) s.

Definition perform_all (gs : list gesture) (s : state) : state :=
  fold_left (fun s g => perform g s) gs s.

(** A move while the button is held: over the widget or away from it. *)
Definition drag_move (m : bool * option raw_event * raw_event) : gesture :=
  let '(inside, we, e) := m in
  if inside then MoveInside we e else MoveOutside we e.

(** The raw event a move hands to the emitter. *)
Definition drag_event (m : bool * option raw_event * raw_event) : raw_event :=
  let '(_, we, e) := m in pick_event we e.

End Browser.

(** ** Key events *)

Module Keyboard.

(** The raw keyboard event.  A missing [key] or [code] is the empty
    string: both are falsy. *)
Record raw_key_event := RawKeyEvent {
  altKey : bool; shiftKey : bool; ctrlKey : bool; metaKey : bool;
  key : string;
  code : string
}.

Record key_event := KeyEvent {
  ev_key : string;
  modifiers : list string
}.

(** [[n for n in ('Alt','Shift','Ctrl','Meta') if e[n.lower()+'Key']]] *)
Definition event_modifiers (e : raw_key_event) : list string :=
  (if altKey e then ["Alt"] else []) ++
  (if shiftKey e then ["Shift"] else []) ++
  (if ctrlKey e then ["Ctrl"] else []) ++
  (if metaKey e then ["Meta"] else []).

(** [s[n:]] *)
Fixpoint drop_chars (n : nat) (s : string) : string :=
  match n, s with
  | O, _ => s
  | S n', String _ r => drop_chars n' r
  | S _, EmptyString => EmptyString
  end.

(** [{'Esc': 'Escape', 'Del': 'Delete'}.get(key, key)] *)
Definition legacy_name (k : string) : string :=
  if String.eqb k "Esc" then "Escape"
  else if String.eqb k "Del" then "Delete"
  else k.

(** ['Shift' in modifiers] *)
Definition has_shift (mods : list string) : bool :=
  existsb (String.eqb "Shift") mods.

(** [Widget._create_key_event] *)
Definition _create_key_event (e : raw_key_event) : key_event :=
  let modifiers := event_modifiers e in
  let k := key e in
  let k :=
    if String.eqb k "" && negb (String.eqb (code e) "") then
      let k := code e in
      if String.prefix "Key" k then
        let k := drop_chars 3 k in
        if has_shift modifiers then k else Str.lower k
      else if String.prefix "Digit" k then drop_chars 5 k
      else k
    else k in
  KeyEvent (legacy_name k) modifiers.

End Keyboard.

(** ** Disposal *)

Module Lifecycle.
Import Hierarchy.

(** How a call of [dispose] ends. *)
Inductive outcome :=
| Done (h : widgets) (log : list wid)      (* returned *)
| Raised (h : widgets) (log : list wid)    (* a child entry was [None] *)
| OutOfFuel.                               (* the recursion bound was hit *)

(** [Widget.dispose], with a bound on the depth of the recursion.  The
    loop runs over the [children] tuple as it was on entry.
    Modelled from the spec: the base disposal [super().dispose()] releases
    the widget and does not touch [parent] or [children]; it is recorded
    in [log], oldest first.  Actions take effect in the order they are
    called. *)
Fixpoint dispose (fuel : nat) (self : wid) (h : widgets) (log : list wid) : outcome :=
  match fuel with
  | O => OutOfFuel
  | S f =>
      let children0 := children h self in
      (* for child in children: child.dispose() *)
      let each :=
        (fix each (l : list entry) (h : widgets) (log : list wid) : outcome :=
           match l with
           | [] => Done h log
           | None :: _ => Raised h log
           | Some child :: r =>
               match dispose f child h log with
               | Done h log => each r h log
               | o => o
               end
           end) in
      match each children0 h log with
      | Done h log =>
          let log := (log ++ [self])%list in            (* super().dispose() *)
          let h := set_parent self None PosNone h in    (* self.set_parent(None) *)
          Done (_mutate_children self [] h) log         (* self._children_value = () *)
      | o => o
      end
  end.

(** The loop of [dispose] on its own. *)
Fixpoint dispose_each (fuel : nat) (l : list entry) (h : widgets) (log : list wid)
    : outcome :=
  match l with
  | [] => Done h log
  | None :: _ => Raised h log
  | Some child :: r =>
      match dispose fuel child h log with
      | Done h log => dispose_each fuel r h log
      | o => o
      end
  end.

(** Every entry below [self] is a widget, and the tree below [self] is at
    most [n] levels deep. *)
Fixpoint height_le (h : widgets) (n : nat) (self : wid) : Prop :=
  Forall (fun e => match e, n with
                   | Some c, S m => height_le h m c
                   | _, _ => False
                   end) (children h self).

(** Each widget's parent is the widget whose list holds it, once, and no
    list holds [None]. *)
Definition consistent (h : widgets) : Prop :=
  (forall c p, parent h c = Some p <-> Some c ∈ children h p)
  /\ (forall p, NoDup (children h p))
  /\ (forall p, None ∉ children h p).

End Lifecycle.

(** ** The shape of the tree *)

Module Tree.
Import Dom.


(** [t] is the node [r] or below it. *)
Inductive reach (d : dom) : node_id -> node_id -> Prop :=
| reach_here t : reach d t t
| reach_down r c t : c ∈ node_children d r -> reach d c t -> reach d r t.

(** The document after [detach c]. *)
Definition detached (c : node_id) (d : dom) : dom :=
  (fun nd => with_children (without c (children nd)) nd) <$> d.

End Tree.

(** ** Class names *)

Module Classes.
Import Dom VDom.

(** Modelled from the spec: the class-name set of a real node, with add,
    remove and contains; it is kept per node, in insertion order and
    without repetition.  As in the browser, adding or removing the empty
    name or a name with white space in it raises. *)
Definition class_list := list string.

Inductive class_error :=
| SyntaxError               (* the empty token *)
| InvalidCharacterError     (* a token with white space *)
| RuntimeError.             (* raised by the widget itself *)

Definition is_ascii_space (c : ascii) : bool :=
  let n := nat_of_ascii c in
  ((n =? 9) || (n =? 10) || (n =? 12) || (n =? 13) || (n =? 32))%nat.

Fixpoint has_space (s : string) : bool :=
  match s with
  | EmptyString => false
  | String c r => is_ascii_space c || has_space r
  end.

Definition check_token (t : string) : option class_error :=
  if String.eqb t "" then Some SyntaxError
  else if has_space t then Some InvalidCharacterError
  else None.

(** [classList.add(t)] *)
Definition classList_add (t : string) (cl : class_list) : class_error + class_list :=
  match check_token t with
  | Some e => inl e
  | None => inr (if bool_decide (t ∈ cl) then cl else cl ++ [t])%list
  end.

(** [classList.remove(t)] *)
Definition classList_remove (t : string) (cl : class_list) : class_error + class_list :=
  match check_token t with
  | Some e => inl e
  | None => inr (filter (fun x => x <> t) cl)
  end.

(** [classList.contains(t)] *)
Definition classList_contains (t : string) (cl : class_list) : bool :=
  bool_decide (t ∈ cl).

(** [s.split(sep)] for a one-character separator. *)
Fixpoint split_on (sep : ascii) (s : string) : list string :=
  match s with
  | EmptyString => [EmptyString]
  | String c r =>
      if Ascii.eqb c sep then EmptyString :: split_on sep r
      else match split_on sep r with
           | seg :: segs => String c seg :: segs
           | [] => [String c EmptyString]
           end
  end.

(** [for cn in names: if cn: classList.remove(cn)] *)
Fixpoint remove_names (names : list string) (cl : class_list)
    : class_error + class_list :=
  match names with
  | [] => inr cl
  | cn :: rest =>
      if String.eqb cn "" then remove_names rest cl
      else match classList_remove cn cl with
           | inr cl' => remove_names rest cl'
           | inl e => inl e
           end
  end.

(** [for cn in names: if cn: classList.add(cn)] *)
Fixpoint add_names (names : list string) (cl : class_list)
    : class_error + class_list :=
  match names with
  | [] => inr cl
  | cn :: rest =>
      if String.eqb cn "" then add_names rest cl
      else match classList_add cn cl with
           | inr cl' => add_names rest cl'
           | inl e => inl e
           end
  end.

(** The reaction [Widget.__css_class_changed] on the outer anchor's class
    list; an event is the pair of its [old_value] and [new_value]. *)
Definition __css_class_changed (events : list (string * string)) (cl : class_list)
    : class_error + class_list :=
  match events with
  | [] => inr cl
  | first :: _ =>
      match remove_names (split_on " " (fst first)) cl with
      | inr cl' =>
          add_names (split_on " " (snd (List.last events first))) cl'
      | inl e => inl e
      end
  end.

(** A widget class: [Widget] itself, or a class with its [__name__] and
    its [_base_class]. *)
Inductive cls :=
| WidgetClass
| Subclass (name : string) (base : cls).

Definition class_name (c : cls) : string :=
  match c with
  | WidgetClass => "Widget"
  | Subclass name _ => name
  end.

(** The loop of [_comp_init_property_values] that derives the class names:
    [rounds] is the range of the [for], 32 in the source, and running out
    of it is the [else] branch. *)
Fixpoint derive_class_names (rounds : nat) (c : cls) (cl : class_list)
    : class_error + class_list :=
  match rounds with
  | O => inl RuntimeError
  | S rounds' =>
      match classList_add ("flx-" +:+ class_name c) cl with
      | inl e => inl e
      | inr cl' =>
          match c with
          | WidgetClass => inr cl'
          | Subclass _ base => derive_class_names rounds' base cl'
          end
      end
  end.

Definition class_names_of (c : cls) (cl : class_list) : class_error + class_list :=
  derive_class_names 32 c cl.

(** The classes from [c] up to [Widget], and how many lie below [Widget]. *)
Fixpoint chain (c : cls) : list string :=
  match c with
  | WidgetClass => ["Widget"]
  | Subclass name base => name :: chain base
  end.

Fixpoint depth (c : cls) : nat :=
  match c with
  | WidgetClass => O
  | Subclass _ base => S (depth base)
  end.

(** [[widget.outernode for widget in children]]; [None] has no
    [outernode]. *)
Fixpoint child_anchors (anchor : Hierarchy.wid -> node_id)
    (kids : list Hierarchy.entry) : option (list node_id) :=
  match kids with
  | [] => Some []
  | None :: _ => None
  | Some w :: rest =>
      match child_anchors anchor rest with
      | Some l => Some (anchor w :: l)
      | None => None
      end
  end.

(** The nodes among the anchor's children that do not stand for a widget. *)
Definition foreign_nodes (d : dom) (classes : node_id -> class_list)
    (outernode : node_id) : list node_id :=
  filter (fun c => classList_contains "flx-Widget" (classes c) = false)
         (node_children d outernode).

(** The default [Widget._render_dom]: the children of the outer anchor
    that are not widgets, then the outer anchors of the child widgets.
    [None] stands for the [TypeError] on a [None] child. *)
Definition _render_dom (d : dom) (classes : node_id -> class_list)
    (outernode : node_id) (anchor : Hierarchy.wid -> node_id)
    (kids : list Hierarchy.entry) : option rendered :=
  match child_anchors anchor kids with
  | Some anchors =>
      Some (OutList (map VReal (foreign_nodes d classes outernode ++ anchors)))
  | None => None
  end.

End Classes.

(** ** Focus *)

Module Focus.
Import Dom.
Local Open Scope dom_scope.

(** [node.removeAttribute(k)] on the members of a node. *)
Definition remove_field (k : string) (fs : list (string * jsval)) : list (string * jsval) :=
  filter (fun kv => fst kv <> k) fs.

(** [event_type in ('key_down', 'key_up', 'key_press')] *)
Definition is_key_event (t : string) : bool :=
  String.eqb t "key_down" || String.eqb t "key_up" || String.eqb t "key_press".

(** [Widget._registered_reactions_hook], as the value of [tabindex] once
    the [set_tabindex(-1)] actions it invokes have been applied. *)
Definition _registered_reactions_hook (event_types : list string) (tabindex : Z) : Z :=
  if tabindex <? -1
  then fold_left (fun ti t => if is_key_event t then -1 else ti) event_types tabindex
  else tabindex.

(** The reaction [Widget.__update_tabindex] on the inner anchor. *)
Definition __update_tabindex (ti : Z) (n : node_id) : M unit :=
  let* nd := get_node n in
  if ti <? -1
  then put_node n (with_attrs (remove_field "tabIndex" (attrs nd)) nd)
  else put_node n (with_attrs (set_field "tabIndex" (JNum ti) (attrs nd)) nd).

End Focus.

(** ** Size limits *)

Module Sizing.
Import Double.

(** The four entries of the computed style that are read. *)
Record computed_style := ComputedStyle {
  minWidth : string;
  maxWidth : string;
  minHeight : string;
  maxHeight : string
}.

(** [v.endswith('px')] *)
Definition endswith_px (v : string) : bool :=
  (2 <=? String.length v)%nat
  && String.eqb (String.substring (String.length v - 2) 2 v) "px".

(** [v[:-2]] *)
Definition strip2 (v : string) : string :=
  String.substring 0 (String.length v - 2) v.

Section Query.

(** Modelled from the spec: [float], the number that a text denotes, or
    [nan] when it denotes none. *)
Variable float : string -> double.

(** One round of the loop [for i in range(4)]. *)
Definition pixelize (i : nat) (v : string) : double :=
  if String.eqb v "0" then of_Z 0
  else if endswith_px v then float (strip2 v)
  else if (i =? 0)%nat || (i =? 2)%nat then of_Z 0 else of_Z 1000000000.

(** [if lo > hi: lo = hi = 0.5 * (lo + hi)] *)
Definition protect (lo hi : double) : double * double :=
  if gt lo hi then (let m := mul half (add lo hi) in (m, m)) else (lo, hi).

Definition _query_min_max_size (style : computed_style) : list double :=
  let m0 := pixelize 0 (minWidth style) in
  let m1 := pixelize 1 (maxWidth style) in
  let m2 := pixelize 2 (minHeight style) in
  let m3 := pixelize 3 (maxHeight style) in
  let '(m0, m1) := protect m0 m1 in
  let '(m2, m3) := protect m2 m3 in
  [m0; m1; m2; m3].

End Query.

End Sizing.

(** ** The generator of the widget reference pages *)

Module Docs.
Import Str.

Definition nl : string := String (ascii_of_nat 10) EmptyString.

(** [s.strip('_')] *)
Fixpoint lstrip_underscores (s : string) : string :=
  match s with
  | EmptyString => EmptyString
  | String c r => if Ascii.eqb c underscore then lstrip_underscores r else s
  end.

Fixpoint rstrip_underscores (s : string) : string :=
  match s with
  | EmptyString => EmptyString
  | String c r =>
      match rstrip_underscores r with
      | EmptyString => if Ascii.eqb c underscore then EmptyString else String c EmptyString
      | r' => String c r'
      end
  end.

Definition strip_underscores (s : string) : string :=
  rstrip_underscores (lstrip_underscores s).

(** [s.capitalize()] *)
Definition capitalize (s : string) : string :=
  match s with
  | EmptyString => EmptyString
  | String c r => String (upper_ascii c) (lower r)
  end.

(** [c * n] *)
Fixpoint times (c : ascii) (n : nat) : string :=
  match n with
  | O => EmptyString
  | S n' => String c (times c n')
  end.

(** [l.sort(key=...)] and [sorted(l)]: a stable sort, by insertion. *)
Fixpoint insert_by {A} (le : A -> A -> bool) (x : A) (l : list A) : list A :=
  match l with
  | [] => [x]
  | y :: r => if le y x then y :: insert_by le x r else x :: y :: r
  end.

Definition sort_by {A} (le : A -> A -> bool) (l : list A) : list A :=
  fold_left (fun acc x => insert_by le x acc) l [].

(** [module_name.split('.')[-1]] *)
Definition last_part (module_name : string) : string :=
  List.last (split_dot module_name) EmptyString.

Definition page_name (module_name : string) : string :=
  capitalize (strip_underscores (last_part module_name)).

(** The name of the page of a module, inside [OUTPUT_DIR]. *)
Definition page_file (module_name : string) : string :=
  lower (page_name module_name) +:+ ".rst".

(** The entry of a module in the table of contents of the overview. *)
Definition toctree_entry (module_name : string) : string :=
  lower (strip_underscores (last_part module_name)).

(** A widget class, with what is read of it: [__name__], the names of
    its [__bases__], [len(mro())] and [__doc__]. *)
Record klass := Klass {
  cls_name : string;
  cls_bases : list string;
  cls_mro : nat;
  cls_doc : option string
}.

Definition with_doc (doc : string) (c : klass) : klass :=
  Klass (cls_name c) (cls_bases c) (cls_mro c) (Some doc).

Definition base_ref (b : string) : string :=
  ":class:`" +:+ b +:+ " <flexx.ui." +:+ b +:+ ">`".

Definition inherits_line (c : klass) : string :=
  "Inherits from: " +:+ join ", " (map base_ref (cls_bases c)).

(** "Insert info on base clases"; [None] is the [TypeError] of
    ['Inherits from' not in None]. *)
Definition insert_bases (c : klass) : option klass :=
  match cls_doc c with
  | None => None
  | Some doc =>
      if contains "Inherits from" doc then Some c
      else Some (with_doc (inherits_line c +:+ nl +:+ nl +:+ doc) c)
  end.

(** Modelled from the spec: a module of [flexx.ui], with the subclasses of
    [Widget] found in its [__dict__] that it defines itself, in the order
    of the [__dict__]. *)
Record module_info := ModuleInfo {
  mod_name : string;
  mod_widgets : list klass
}.

Definition page : Type := string * list klass.

(** [pages[key] = classes] *)
Fixpoint dict_set (key : string) (classes : list klass) (pages : list page) : list page :=
  match pages with
  | [] => [(key, classes)]
  | (k, v) :: r =>
      if String.eqb k key then (k, classes) :: r else (k, v) :: dict_set key classes r
  end.

Definition mro_le (a b : klass) : bool := (cls_mro a <=? cls_mro b)%nat.

Definition name_le (a b : page) : bool := String.leb (fst a) (fst b).

(** "Get all pages and class names" *)
Definition collect (mods : list module_info) : list page * list string :=
  fold_left
    (fun acc m =>
       match mod_widgets m with
       | [] => acc
       | _ =>
           let classes := sort_by mro_le (mod_widgets m) in
           (dict_set (mod_name m) classes (fst acc),
            (snd acc ++ map cls_name classes)%list)
       end)
    mods ([], []).

(** Modelled from the spec: the files of [OUTPUT_DIR], by name, with
    their text; [OUTPUT_DIR] exists and holds no directories. *)
Record state := State {
  created_files : list string;
  files : string -> option string
}.

(** [created_files.append(filename); open(filename, 'wt').write(docs)] *)
Definition write_file (filename docs : string) (s : state) : state :=
  State (created_files s ++ [filename])%list (<[filename := Some docs]> (files s)).

Definition page_head (module_name : string) : string :=
  let pn := page_name module_name in
  pn +:+ nl +:+ times "-" (String.length pn) +:+ nl +:+ nl
  +:+ ".. automodule:: " +:+ module_name +:+ nl +:+ nl
  +:+ "----" +:+ nl +:+ nl.

(** [for cls in classes]: the classes as they are left, and the text of
    the page unless a class made the loop raise. *)
Fixpoint page_classes (classes : list klass) (docs : string) : list klass * option string :=
  match classes with
  | [] => ([], Some docs)
  | c :: r =>
      match insert_bases c with
      | None => (c :: r, None)
      | Some c' =>
          let res :=
            page_classes r
              (docs +:+ ".. autoclass:: flexx.ui." +:+ cls_name c +:+ nl
                    +:+ " :members:" +:+ nl +:+ nl) in
          (c' :: fst res, snd res)
      end
  end.

(** "Create page for each module", over the sorted items; the flag is
    false when a [TypeError] ended the loop. *)
Fixpoint write_pages (ps : list page) (s : state) : list page * state * bool :=
  match ps with
  | [] => ([], s, true)
  | (m, classes) :: r =>
      match page_classes classes (page_head m) with
      | (classes', Some docs) =>
          let '(r', s', ok) := write_pages r (write_file (page_file m) docs s) in
          ((m, classes') :: r', s', ok)
      | (classes', None) => ((m, classes') :: r, s, false)
      end
  end.

(** The modules listed in the table of contents, in its order. *)
Definition toctree_entries (pages : list page) : list string :=
  map toctree_entry (sort_by String.leb (map fst pages)).

Definition concat_lines (l : list string) : string :=
  fold_left (fun docs line => docs +:+ line) l EmptyString.

(** "Create overview doc page" *)
Definition overview (pages : list page) (class_names : list string) : string :=
  let docs := "Ui API" in
  docs +:+ nl +:+ times "=" (String.length docs) +:+ nl +:+ nl
  +:+ "This is a list of all widget classes provided by ``flexx.ui``. "
  +:+ ":class:`Widget <flexx.ui.Widget>` is the base class of all widgets. "
  +:+ "There is one document per widget type. Each document contains "
  +:+ "examples with the widget(s) defined within." +:+ nl +:+ nl
  +:+ concat_lines
        (map (fun name => "* :class:`" +:+ name +:+ " <flexx.ui." +:+ name +:+ ">`" +:+ nl)
             (sort_by String.leb class_names))
  +:+ nl +:+ ".. toctree::" +:+ nl +:+ "  :maxdepth: 1" +:+ nl +:+ "  :hidden:" +:+ nl +:+ nl
  +:+ concat_lines (map (fun e => "  " +:+ e +:+ nl) (toctree_entries pages)).

(** [main()]: the pages with their classes as they are left, the files,
    and whether it returned. *)
Definition main (mods : list module_info) (s : state) : list page * state * bool :=
  let '(pages, class_names) := collect mods in
  let '(pages', s', ok) := write_pages (sort_by name_le pages) s in
  if ok then (pages', write_file "api.rst" (overview pages class_names) s', true)
  else (pages', s', false).

(** [clean()]: [pop] takes the file names from the end. *)
Fixpoint clean_loop (todo : list string) (f : string -> option string)
    : string -> option string :=
  match todo with
  | [] => f
  | filename :: r =>
      clean_loop r (match f filename with
                    | Some _ => <[filename := None]> f
                    | None => f
                    end)
  end.

Definition clean (s : state) : state :=
  State [] (clean_loop (rev (created_files s)) (files s)).

Definition sample_modules : list module_info :=
  [ ModuleInfo "flexx.ui._widget"
      [Klass "Widget" ["Model"] 4 (Some "Base widget class.")];
    ModuleInfo "flexx.ui.layouts._box"
      [Klass "HBox" ["BoxLayout"] 7 (Some "Horizontal box.");
       Klass "BoxLayout" ["Layout"] 6 (Some "Inherits from: Layout. A box.")];
    ModuleInfo "flexx.ui._empty" [] ].

End Docs.

(** * Properties *)

(** ** The input machine *)

Section InputFacts.
Import Input.

Lemma mdown_captures e s :
  capture_mouse s <> 0 ->
  mdown e s = State (capture_mouse s) 2 true (node_rect s) (emitted s).
Proof.
  intros Hc. unfold mdown.
  destruct (Z.eqb_spec (capture_mouse s) 0) as [E|_]; [contradiction|reflexivity].
Qed.

Lemma mdown_no_capture e s :
  capture_mouse s = 0 ->
  mdown e s = State 0 1 (doc_listeners s) (node_rect s) (emitted s).
Proof.
  intros Hc. unfold mdown, set_flag. rewrite Hc. reflexivity.
Qed.

(** C1, as the claim has it, fails: with [capture_mouse = 1] the press
    installs the document-wide listeners and the move that follows on
    that path is emitted. *)
Lemma capture1_outside_move_counterexample :
  capture_mouse (idle 1) = 1 /\
  moves (press_then_outside_move origin_event None origin_event (idle 1))
    <> moves (idle 1).
Proof. split; [reflexivity | vm_compute; discriminate]. Qed.

(** C1 (amended): with [capture_mouse] 1 or 2, a press-down on the inner
    anchor followed by a move on the document-wide path emits a
    [mouse_down] and then a [mouse_move] event, whatever the machine's
    state was before. *)
Theorem capture_outside_move_emits e1 we e2 s :
  capture_mouse s = 1 \/ capture_mouse s = 2 ->
  let s' := press_then_outside_move e1 we e2 s in
  emitted s' = (emitted s ++ [(mouse_down_ev, mouse_down e1 s);
                             (mouse_move_ev, mouse_move (pick_event we e2) s)])%list
  /\ moves s' = S (moves s)
  /\ capture_flag s' = 2.
Proof.
  intros Hc. cbn zeta.
  assert (Hne : capture_mouse s <> 0) by lia.
  unfold press_then_outside_move, run. cbn [fold_left deliver].
  rewrite (mdown_captures e1 s Hne).
  cbn. split; [|split]; [| |reflexivity].
  - rewrite <- app_assoc. reflexivity.
  - unfold moves, emitted_kinds. cbn.
    rewrite !map_app, !list.filter_app, !List.length_app. cbn.
    rewrite decide_False by discriminate.
    rewrite decide_True by reflexivity. cbn. lia.
Qed.

Lemma capture_outside_move_emits_witness :
  moves (press_then_outside_move origin_event None origin_event (idle 1)) = 1%nat.
Proof.
  pose proof (capture_outside_move_emits origin_event None origin_event (idle 1)
                (or_introl eq_refl)) as H.
  cbn zeta in H. destruct H as (_ & H & _). exact H.
Defined.

(** Without capture the press installs nothing on the document, and the
    move on that path does not reach the widget. *)
Lemma no_capture_outside_move_silent e1 we e2 s :
  capture_mouse s = 0 -> doc_listeners s = false ->
  emitted (press_then_outside_move e1 we e2 s)
    = (emitted s ++ [(mouse_down_ev, mouse_down e1 s)])%list.
Proof.
  intros Hc Hl. unfold press_then_outside_move, run. cbn [fold_left deliver].
  rewrite (mdown_no_capture e1 s Hc). cbn. rewrite Hl. reflexivity.
Qed.

(** C8: the wheel event record carries the raw deltas multiplied, as
    doubles, by the entry of [1, 16, 600] that [deltaMode] selects, and
    [button] 0, and it is the record that is emitted; line mode with
    [deltaY = 2] gives [vscroll = 32]. *)
Theorem mouse_wheel_scaled e s :
  (deltaMode e < 3)%nat ->
  let m := nth (deltaMode e) [1; 16; 600] 0 in
  exists ev,
    mouse_wheel e s = Some ev
    /\ hscroll ev = Some (Double.mul (deltaX e) (Double.of_Z m))
    /\ vscroll ev = Some (Double.mul (deltaY e) (Double.of_Z m))
    /\ ev_button ev = Some 0
    /\ emitted (deliver (NodeWheel e) s) = (emitted s ++ [(mouse_wheel_ev, ev)])%list
    /\ (deltaMode e = 1%nat -> deltaY e = Double.of_Z 2 ->
        vscroll ev = Some (Double.of_Z 32)).
Proof.
  intros Hm. cbn zeta. unfold deliver, fire, emit.
  unfold mouse_wheel, wheel_table, js_mul.
  destruct (deltaMode e) as [|[|[|k]]] eqn:E; try lia;
    cbn [lookup list_lookup nth]; eexists; (split; [reflexivity|]);
    cbn [hscroll vscroll ev_button with_scroll with_button emitted];
    repeat split; try reflexivity; try discriminate.
  intros _ ->. reflexivity.
Qed.

Lemma mouse_wheel_scaled_witness :
  exists ev,
    mouse_wheel (RawEvent false false false false 0 0 0 0 0 0
                   (Double.of_Z 0) (Double.of_Z 2) 1) (idle 1) = Some ev
    /\ vscroll ev = Some (Double.of_Z 32).
Proof.
  destruct (mouse_wheel_scaled
              (RawEvent false false false false 0 0 0 0 0 0
                 (Double.of_Z 0) (Double.of_Z 2) 1) (idle 1))
    as (ev & Hev & _ & _ & _ & _ & Hv); [cbn; lia|].
  exists ev. split; [exact Hev | apply Hv; reflexivity].
Defined.

(** A [deltaMode] outside the table makes the multiplication raise, and
    no wheel event is emitted. *)
Lemma mouse_wheel_unknown_mode e s :
  (3 <= deltaMode e)%nat ->
  mouse_wheel e s = None /\ deliver (NodeWheel e) s = s.
Proof.
  intros Hm. unfold deliver, fire, mouse_wheel, wheel_table, js_mul.
  destruct (deltaMode e) as [|[|[|k]]]; try lia. split; reflexivity.
Qed.

(** Doubles round: the product of a large delta is not the exact one. *)
Example mouse_wheel_rounds :
  Double.mul (Double.of_Z (2 ^ 53 - 1)) (Double.of_Z 600)
  = Double.of_Z 5404319552844594176.
Proof. vm_compute. reflexivity. Qed.

End InputFacts.

(** ** Parenting *)

Section HierarchyFacts.
Import Hierarchy.

Lemma py_in_spec x l : py_in x l = true <-> x ∈ l.
Proof. unfold py_in. apply bool_decide_eq_true. Qed.

Lemma py_remove_length x l :
  x ∈ l -> S (List.length (py_remove x l)) = List.length l.
Proof.
  induction l as [|y r IH]; intros Hin.
  - inversion Hin.
  - cbn. destruct (decide (x = y)) as [->|Hne]; [reflexivity|].
    cbn. f_equal. apply IH.
    apply elem_of_cons in Hin as [E|Hin]; [contradiction|exact Hin].
Qed.

Lemma py_remove_filter x l :
  filter (fun y => y <> x) (py_remove x l) = filter (fun y => y <> x) l.
Proof.
  induction l as [|y r IH]; [reflexivity|].
  cbn [py_remove]. destruct (decide (x = y)) as [->|Hne].
  - rewrite filter_cons_False; [reflexivity | intros H; apply H; reflexivity].
  - rewrite !filter_cons. rewrite IH. reflexivity.
Qed.

Lemma filter_absent x (l : list entry) :
  x ∉ l -> filter (fun y => y <> x) l = l.
Proof.
  induction l as [|y r IH]; intros Hn; [reflexivity|].
  apply not_elem_of_cons in Hn as [Hne Hn].
  rewrite filter_cons_True by congruence. f_equal. apply IH, Hn.
Qed.

(** The bounded loop is the unbounded one once the bound covers the list:
    it stops because no [x] is left, having dropped every [x]. *)
Lemma remove_loop_filter fuel x l :
  (List.length l <= fuel)%nat ->
  remove_loop fuel x l = filter (fun y => y <> x) l.
Proof.
  revert l. induction fuel as [|f IH]; intros l Hlen.
  - destruct l; [reflexivity | cbn in Hlen; lia].
  - cbn. destruct (py_in x l) eqn:Hin.
    + apply py_in_spec in Hin.
      rewrite IH.
      * apply py_remove_filter.
      * pose proof (py_remove_length x l Hin). lia.
    + symmetry. apply filter_absent. intros H.
      apply py_in_spec in H. congruence.
Qed.

Lemma remove_self_filter w l :
  remove_self w l = filter (fun y => y <> Some w) l.
Proof. apply remove_loop_filter. lia. Qed.

Lemma remove_self_free w l : Some w ∉ remove_self w l.
Proof.
  rewrite remove_self_filter. intros H.
  apply list_elem_of_filter in H as [H _]. apply H. reflexivity.
Qed.

Lemma remove_self_idem w l : remove_self w (remove_self w l) = remove_self w l.
Proof.
  rewrite (remove_self_filter w (remove_self w l)).
  apply filter_absent, remove_self_free.
Qed.

(** Detaching: what [set_parent(None)] does to a widget that has a parent. *)
Lemma set_parent_none h w op :
  parent h w = Some op ->
  let h' := set_parent w None PosNone h in
  parent h' w = None
  /\ children h' op = remove_self w (children h op)
  /\ (forall x, x <> op -> children h' x = children h x).
Proof.
  intros Hp. cbn zeta. unfold set_parent. rewrite Hp.
  rewrite bool_decide_eq_false_2 by discriminate.
  cbn [andb]. rewrite bool_decide_eq_false_2 by discriminate.
  cbn -[remove_self]. split; [|split].
  - apply fn_lookup_insert.
  - apply fn_lookup_insert.
  - intros x Hx. apply fn_lookup_insert_ne. congruence.
Qed.

(** Attaching without a position to a widget that is not yet the parent. *)
Lemma set_parent_some h w B :
  parent h w <> Some B ->
  let h' := set_parent w (Some B) PosNone h in
  parent h' w = Some B
  /\ (Some w ∉ removelast (children h' B))
  /\ (forall a, parent h w = Some a -> children h' a = remove_self w (children h a)).
Proof.
  intros Hp. cbn zeta. unfold set_parent.
  rewrite (bool_decide_eq_false_2 (Some B = parent h w)) by congruence.
  cbn [andb].
  destruct (parent h w) as [a|] eqn:Ea.
  - assert (Hab : a <> B) by congruence.
    rewrite !(bool_decide_eq_false_2 (Some a = Some B)) by congruence.
    cbn -[remove_self]. split; [|split].
    + apply fn_lookup_insert.
    + rewrite fn_lookup_insert. rewrite removelast_last.
      apply remove_self_free.
    + intros a' [= <-].
      rewrite fn_lookup_insert_ne by congruence.
      apply fn_lookup_insert.
  - rewrite !(bool_decide_eq_false_2 (None = Some B)) by discriminate.
    cbn -[remove_self]. split; [|split].
    + apply fn_lookup_insert.
    + rewrite fn_lookup_insert. rewrite removelast_last.
      apply remove_self_free.
    + intros a' [=].
Qed.

(** C7: [set_parent(B)] and then [set_parent(None)] leave the widget
    without a parent and in neither the old nor the new parent's list. *)
Theorem set_parent_then_orphan h w B :
  let h' := set_parent w None PosNone (set_parent w (Some B) PosNone h) in
  parent h' w = None
  /\ (Some w ∉ children h' B)
  /\ (forall A, parent h w = Some A -> Some w ∉ children h' A).
Proof.
  cbn zeta.
  destruct (decide (parent h w = Some B)) as [HB|HB].
  - (* B is the parent already: the first call returns at once *)
    assert (E : set_parent w (Some B) PosNone h = h).
    { unfold set_parent. rewrite HB, bool_decide_eq_true_2 by reflexivity.
      reflexivity. }
    rewrite E.
    destruct (set_parent_none h w B HB) as (H1 & H2 & _).
    split; [exact H1|]. split.
    + rewrite H2. apply remove_self_free.
    + intros A HA. assert (A = B) as -> by congruence.
      rewrite H2. apply remove_self_free.
  - destruct (set_parent_some h w B HB) as (H1 & _ & H3).
    destruct (set_parent_none _ w B H1) as (K1 & K2 & K3).
    split; [exact K1|]. split.
    + rewrite K2. apply remove_self_free.
    + intros A HA.
      destruct (decide (A = B)) as [->|HAB]; [congruence|].
      rewrite (K3 A HAB), (H3 A HA). apply remove_self_free.
Qed.

Lemma set_parent_then_orphan_witness :
  Some 2%nat ∉ children (set_parent 2%nat None PosNone
                           (set_parent 2%nat (Some 1%nat) PosNone one_child)) 0%nat.
Proof.
  exact (proj2 (proj2 (set_parent_then_orphan one_child 2%nat 1%nat)) 0%nat eq_refl).
Defined.

(** C3 (the code departs from it): with [pos = nan] the last branch of
    the ladder appends [None], not the widget; the new parent's list ends
    in [None] and does not hold the widget at all, while [pos = None]
    appends the widget. *)
Theorem set_parent_nan_appends_none h w p :
  children (set_parent w (Some p) PosNaN h) p
    = (remove_self w (children h p) ++ [None])%list
  /\ (Some w ∉ children (set_parent w (Some p) PosNaN h) p)
  /\ children (set_parent 1%nat (Some 0%nat) PosNaN orphans) 0%nat = [None]
  /\ children (set_parent 1%nat (Some 0%nat) PosNone orphans) 0%nat = [Some 1%nat].
Proof.
  assert (E : children (set_parent w (Some p) PosNaN h) p
              = (remove_self w (children h p) ++ [None])%list).
  { unfold set_parent. rewrite andb_false_r.
    destruct (parent h w) as [a|] eqn:Ea.
    - destruct (decide (a = p)) as [->|Hap].
      + rewrite !bool_decide_eq_true_2 by reflexivity.
        cbn -[remove_self]. rewrite fn_lookup_insert, remove_self_idem. reflexivity.
      + rewrite !(bool_decide_eq_false_2 (Some a = Some p)) by congruence.
        cbn -[remove_self]. rewrite fn_lookup_insert.
        rewrite fn_lookup_insert_ne by congruence. reflexivity.
    - rewrite !(bool_decide_eq_false_2 (None = Some p)) by discriminate.
      cbn -[remove_self]. rewrite fn_lookup_insert. reflexivity. }
  split; [exact E|]. split.
  - rewrite E. intros H. apply elem_of_app in H as [H|H].
    + exact (remove_self_free _ _ H).
    + apply list_elem_of_singleton in H. discriminate.
  - split; reflexivity.
Qed.

End HierarchyFacts.

(** ** Prop keys *)

Section KeyFacts.
Import Str.

(** Induction that follows [replace_dunder]: two characters at a time. *)
Lemma string_pair_ind (P : string -> Prop) :
  P "" ->
  (forall c, P (String c "")) ->
  (forall c c' r, P r -> P (String c' r) -> P (String c (String c' r))) ->
  forall s, P s.
Proof.
  intros H0 H1 H2 s.
  enough (H : P s /\ forall c, P (String c s)) by apply H.
  induction s as [|c' r [IHr IHc]].
  - split; [exact H0 | exact H1].
  - split; [apply IHc|]. intros c. apply H2; [exact IHr | apply IHc].
Qed.

Lemma replace_dunder_cons c s :
  c <> underscore ->
  replace_dunder (String c s) = String c (replace_dunder s).
Proof.
  intros Hc. cbn [replace_dunder]. destruct s as [|c' r]; [reflexivity|].
  destruct (Ascii.eqb_spec c underscore) as [E|_]; [contradiction|].
  reflexivity.
Qed.

Lemma replace_dunder_pair r :
  replace_dunder (String underscore (String underscore r))
    = String dot (replace_dunder r).
Proof. reflexivity. Qed.

Lemma replace_dunder_single c c' r :
  c' <> underscore ->
  replace_dunder (String c (String c' r)) = String c (replace_dunder (String c' r)).
Proof.
  intros Hc. cbn [replace_dunder].
  destruct (Ascii.eqb_spec c' underscore) as [E|_]; [contradiction|].
  rewrite andb_false_r. reflexivity.
Qed.

Lemma dot_not_underscore : dot <> underscore.
Proof. discriminate. Qed.

(** Replacing leaves no pair to replace: a second pass changes nothing. *)
Lemma replace_dunder_idem s :
  replace_dunder (replace_dunder s) = replace_dunder s.
Proof.
  induction s as [| c | c c' r IHr IHc] using string_pair_ind;
    [reflexivity | reflexivity |].
  destruct (ascii_dec c underscore) as [->|Hc].
  - destruct (ascii_dec c' underscore) as [->|Hc'].
    + rewrite replace_dunder_pair.
      rewrite (replace_dunder_cons dot _ dot_not_underscore), IHr. reflexivity.
    + rewrite (replace_dunder_single underscore c' r Hc').
      rewrite (replace_dunder_cons c' r Hc') in *.
      rewrite (replace_dunder_single underscore c' _ Hc'), IHc. reflexivity.
  - rewrite (replace_dunder_cons c _ Hc).
    rewrite (replace_dunder_cons c _ Hc), IHc. reflexivity.
Qed.

Lemma prefix_dunder c s :
  String.prefix "__" (String c s) = true ->
  c = underscore /\ exists r, s = String underscore r.
Proof.
  cbn [String.prefix]. destruct (ascii_dec "_"%char c) as [<-|]; [|discriminate].
  destruct s as [|c' r]; [discriminate|]. cbn [String.prefix].
  destruct (ascii_dec "_"%char c') as [<-|]; [|discriminate].
  intros _. split; [reflexivity | exists r; reflexivity].
Qed.

Lemma prefix_dunder_intro r :
  String.prefix "__" (String underscore (String underscore r)) = true.
Proof.
  cbn [String.prefix].
  destruct (ascii_dec "_"%char underscore) as [_|H];
    [destruct r; reflexivity|].
  exfalso. apply H. reflexivity.
Qed.

Lemma contains_cons sub c s :
  contains sub (String c s) = String.prefix sub (String c s) || contains sub s.
Proof. reflexivity. Qed.

(** After the replacement no ['__'] is left in the key. *)
Lemma replace_dunder_clean s : contains "__" (replace_dunder s) = false.
Proof.
  induction s as [| c | c c' r IHr IHc] using string_pair_ind.
  - reflexivity.
  - cbn [replace_dunder contains String.prefix].
    destruct (ascii_dec "_"%char c); reflexivity.
  - destruct (ascii_dec c underscore) as [->|Hc].
    + destruct (ascii_dec c' underscore) as [->|Hc'].
      * rewrite replace_dunder_pair, contains_cons, IHr.
        reflexivity.
      * rewrite (replace_dunder_single underscore c' r Hc'), contains_cons, IHc.
        rewrite orb_false_r.
        destruct (String.prefix "__" _) eqn:E; [|reflexivity].
        apply prefix_dunder in E as [_ [r' E]].
        rewrite (replace_dunder_cons c' r Hc') in E. congruence.
    + rewrite (replace_dunder_cons c _ Hc), contains_cons, IHc, orb_false_r.
      destruct (String.prefix "__" _) eqn:E; [|reflexivity].
      apply prefix_dunder in E as [E _]. contradiction.
Qed.

Lemma split_dot_cons c r :
  split_dot (String c r) =
    if Ascii.eqb c dot then "" :: split_dot r
    else String c (hd "" (split_dot r)) :: tl (split_dot r).
Proof.
  cbn [split_dot]. destruct (Ascii.eqb c dot); [reflexivity|].
  destruct (split_dot r); reflexivity.
Qed.

Lemma split_dot_nonempty s : split_dot s <> [].
Proof.
  destruct s as [|c r]; [discriminate|].
  rewrite split_dot_cons. destruct (Ascii.eqb c dot); discriminate.
Qed.

(** The first part is the key up to its first dot. *)
Lemma split_dot_head_dunder s :
  String.prefix "__" (hd "" (split_dot s)) = true -> String.prefix "__" s = true.
Proof.
  destruct s as [|c r]; [discriminate|].
  rewrite split_dot_cons.
  destruct (Ascii.eqb_spec c dot) as [->|Hc]; [discriminate|].
  cbn [hd]. intros H. apply prefix_dunder in H as [-> [seg E]].
  destruct r as [|c' r']; [discriminate|].
  rewrite split_dot_cons in E.
  destruct (Ascii.eqb_spec c' dot) as [->|Hc']; [discriminate|].
  cbn [hd] in E. injection E as -> _. apply prefix_dunder_intro.
Qed.

Lemma split_dot_clean s :
  contains "__" s = false ->
  Forall (fun part => contains "__" part = false /\ contains "." part = false)
         (split_dot s).
Proof.
  induction s as [|c r IH]; intros Hs.
  - repeat constructor.
  - rewrite contains_cons in Hs. apply orb_false_elim in Hs as [Hp Hr].
    specialize (IH Hr). rewrite split_dot_cons.
    destruct (Ascii.eqb_spec c dot) as [->|Hc].
    + constructor; [split; reflexivity | exact IH].
    + pose proof (split_dot_nonempty r) as Hne.
      destruct (split_dot r) as [|seg segs] eqn:E; [contradiction|].
      cbn [hd tl]. inversion IH as [|? ? [IH1 IH2] IH3]; subst.
      constructor; [|exact IH3]. split.
      * rewrite contains_cons, IH1, orb_false_r.
        destruct (String.prefix "__" (String c seg)) eqn:Ep; [|reflexivity].
        rewrite <- Hp. symmetry.
        apply (split_dot_head_dunder (String c r)).
        rewrite split_dot_cons, E.
        destruct (Ascii.eqb_spec c dot); [contradiction|]. exact Ep.
      * rewrite contains_cons, IH2, orb_false_r. cbn [String.prefix].
        destruct (ascii_dec "."%char c) as [<-|]; [|reflexivity].
        exfalso. apply Hc. reflexivity.
Qed.

(** A stretch of a key that holds no ['__'] and does not end in ['_']
    is passed over by the replacement, whatever follows it. *)
Lemma replace_dunder_over a : forall rest,
  contains "__" (a +:+ "_") = false ->
  replace_dunder (a +:+ rest) = a +:+ replace_dunder rest.
Proof.
  induction a as [|c a' IH]; intros rest H; [reflexivity|].
  change (contains "__" (String c (a' +:+ "_")) = false) in H.
  change (replace_dunder (String c (a' +:+ rest))
          = String c (a' +:+ replace_dunder rest)).
  rewrite contains_cons in H. apply orb_false_elim in H as [Hp Hr].
  destruct (ascii_dec c underscore) as [->|Hc].
  - destruct a' as [|c' a'']; [vm_compute in Hp; discriminate|].
    change (String.prefix "__" (String underscore (String c' (a'' +:+ "_"))) = false)
      in Hp.
    assert (Hc' : c' <> underscore).
    { intros ->. rewrite prefix_dunder_intro in Hp. discriminate. }
    change (replace_dunder (String underscore (String c' (a'' +:+ rest)))
            = String underscore (String c' a'' +:+ replace_dunder rest)).
    rewrite (replace_dunder_single underscore c' _ Hc').
    f_equal. exact (IH rest Hr).
  - rewrite (replace_dunder_cons c _ Hc). f_equal. apply IH, Hr.
Qed.

Lemma replace_dunder_free s :
  contains "__" s = false -> replace_dunder s = s.
Proof.
  induction s as [|c s' IH]; intros H; [reflexivity|].
  rewrite contains_cons in H. apply orb_false_elim in H as [Hp Hr].
  destruct (ascii_dec c underscore) as [->|Hc].
  - destruct s' as [|c' s'']; [reflexivity|].
    assert (Hc' : c' <> underscore).
    { intros ->. rewrite prefix_dunder_intro in Hp. discriminate. }
    rewrite (replace_dunder_single underscore c' _ Hc'). f_equal. apply IH, Hr.
  - rewrite (replace_dunder_cons c _ Hc). f_equal. apply IH, Hr.
Qed.

Lemma contains_dunder_shorter a :
  contains "__" (a +:+ "_") = false -> contains "__" a = false.
Proof.
  induction a as [|c a' IH]; intros H; [reflexivity|].
  change (contains "__" (String c (a' +:+ "_")) = false) in H.
  rewrite contains_cons in H |- *.
  apply orb_false_elim in H as [Hp Hr]. rewrite (IH Hr), orb_false_r.
  destruct (String.prefix "__" (String c a')) eqn:E; [|reflexivity].
  apply prefix_dunder in E as [-> [r ->]].
  change (String.prefix "__" (String underscore (String underscore (r +:+ "_")))
          = false) in Hp.
  rewrite prefix_dunder_intro in Hp. discriminate.
Qed.

Lemma no_dot_head c a :
  contains "." (String c a) = false -> c <> dot /\ contains "." a = false.
Proof.
  rewrite contains_cons. intros H. apply orb_false_elim in H as [Hp Hr].
  split; [|exact Hr]. intros ->. cbn [String.prefix] in Hp.
  destruct (ascii_dec "."%char dot) as [_|Hne]; [|apply Hne; reflexivity].
  destruct a; discriminate.
Qed.

Lemma split_dot_at a : forall rest,
  contains "." a = false ->
  split_dot (a +:+ "." +:+ rest) = a :: split_dot rest.
Proof.
  induction a as [|c a' IH]; intros rest H; [reflexivity|].
  apply no_dot_head in H as [Hc Hr].
  change (split_dot (String c (a' +:+ "." +:+ rest)) = String c a' :: split_dot rest).
  rewrite split_dot_cons.
  destruct (Ascii.eqb_spec c dot) as [|_]; [contradiction|].
  rewrite (IH rest Hr). reflexivity.
Qed.

Lemma split_dot_free a : contains "." a = false -> split_dot a = [a].
Proof.
  induction a as [|c a' IH]; intros H; [reflexivity|].
  apply no_dot_head in H as [Hc Hr].
  rewrite split_dot_cons.
  destruct (Ascii.eqb_spec c dot) as [|_]; [contradiction|].
  rewrite (IH Hr). reflexivity.
Qed.

(** A part of a key path as it can be written on either side of a
    separator: it holds neither ['.'] nor ['__'] and does not end in
    ['_'] (a ['_'] before ['__'] would pair with the first of its two). *)
Definition plain_part (s : string) : Prop :=
  contains "__" (s +:+ "_") = false /\ contains "." s = false.

Lemma replace_dunder_sep a b :
  contains "__" (a +:+ "_") = false ->
  replace_dunder (a +:+ "__" +:+ b) = a +:+ "." +:+ replace_dunder b
  /\ replace_dunder (a +:+ "." +:+ b) = a +:+ "." +:+ replace_dunder b.
Proof.
  intros Ha. rewrite !(replace_dunder_over a _ Ha). split.
  - apply (f_equal (append a)). apply (replace_dunder_pair b).
  - apply (f_equal (append a)).
    change (replace_dunder (String dot b) = String dot (replace_dunder b)).
    apply replace_dunder_cons, dot_not_underscore.
Qed.

Lemma key_parts_dunder a b :
  contains "__" (a +:+ "_") = false ->
  VDom.key_parts (a +:+ "__" +:+ b) = VDom.key_parts (a +:+ "." +:+ b).
Proof.
  intros Ha. unfold VDom.key_parts.
  destruct (replace_dunder_sep a b Ha) as [-> ->]. reflexivity.
Qed.

Lemma key_parts_join parts :
  parts <> [] -> Forall plain_part parts ->
  VDom.key_parts (join "__" parts) = parts /\ VDom.key_parts (join "." parts) = parts.
Proof.
  intros Hne Hall. induction Hall as [|x rest [Hx Hdot] Hrest IH]; [contradiction|].
  destruct rest as [|y rest'].
  - cbn [join]. unfold VDom.key_parts.
    rewrite (replace_dunder_free x (contains_dunder_shorter x Hx)).
    split; apply split_dot_free, Hdot.
  - destruct IH as [IH1 IH2]; [discriminate|].
    change (join "__" (x :: y :: rest')) with (x +:+ "__" +:+ join "__" (y :: rest')).
    change (join "." (x :: y :: rest')) with (x +:+ "." +:+ join "." (y :: rest')).
    unfold VDom.key_parts in *.
    destruct (replace_dunder_sep x (join "__" (y :: rest')) Hx) as [-> _].
    destruct (replace_dunder_sep x (join "." (y :: rest')) Hx) as [_ ->].
    rewrite !(split_dot_at x _ Hdot), IH1, IH2. split; reflexivity.
Qed.

(** C10: ['__'] in a prop key is the path separator.  The replacement
    turns the leftmost ['__'] of a key into ['.'] and goes on behind it,
    and leaves a key without ['__'] as it is, which fixes it for every
    key; so a key and the key with that ['__'] written as ['.'] have the
    same parts and make the same assignment, parts joined by ['__'] or
    by ['.'] come out as these parts, no part keeps a ['__'] or a ['.'],
    and a key of two parts assigns the second part, renamed, inside the
    object that the member named by the first part holds: ['style__color']
    sets [color] in the style map, as ['style.color'] does. *)
Theorem dunder_is_path_separator :
  (forall a b, contains "__" (a +:+ "_") = false ->
      replace_dunder (a +:+ "__" +:+ b) = a +:+ "." +:+ replace_dunder b)
  /\ (forall s, contains "__" s = false -> replace_dunder s = s)
  /\ (forall a b, contains "__" (a +:+ "_") = false ->
      VDom.key_parts (a +:+ "__" +:+ b) = VDom.key_parts (a +:+ "." +:+ b)
      /\ forall n val,
           VDom.assign_prop n (a +:+ "__" +:+ b) val
           = VDom.assign_prop n (a +:+ "." +:+ b) val)
  /\ (forall parts, parts <> [] -> Forall plain_part parts ->
      VDom.key_parts (join "__" parts) = parts
      /\ VDom.key_parts (join "." parts) = parts)
  /\ (forall key,
      Forall (fun part => contains "__" part = false /\ contains "." part = false)
             (VDom.key_parts key))
  /\ (forall (d : Dom.dom) n nd a b fs val,
      plain_part a -> plain_part b ->
      d !! n = Some nd ->
      Dom.get_member a nd = Dom.JObj fs ->
      VDom.assign_prop n (a +:+ "__" +:+ b) val d
      = (inr tt,
         <[n := Dom.with_attrs
                  (Dom.set_field a (Dom.JObj (Dom.set_field (VDom.rename b) val fs))
                     (Dom.attrs nd)) nd]> d))
  /\ VDom.key_parts "style__color" = ["style"; "color"]
  /\ VDom.key_parts "style.color" = ["style"; "color"].
Proof.
  split; [|split; [|split; [|split; [|split; [|split]]]]].
  - intros a b Ha. apply (replace_dunder_sep a b Ha).
  - apply replace_dunder_free.
  - intros a b Ha. pose proof (key_parts_dunder a b Ha) as E.
    split; [exact E|]. intros n val. unfold VDom.assign_prop. rewrite E. reflexivity.
  - apply key_parts_join.
  - intros key. unfold VDom.key_parts. apply split_dot_clean, replace_dunder_clean.
  - intros d n nd a b fs val Ha Hb Hn Hget.
    destruct (key_parts_join [a; b]) as [E _];
      [discriminate | constructor; [exact Ha | constructor; [exact Hb | constructor]] |].
    cbn [join] in E. unfold VDom.assign_prop. rewrite E.
    cbn [removelast List.last]. unfold Dom.bind, Dom.get_node, Dom.put_node.
    rewrite Hn, Hget. reflexivity.
  - split; reflexivity.
Qed.

(** On a node to which nothing has been written yet, and on a new one. *)
Example style_color_assigned :
  VDom.assign_prop 0%nat "style__color" (Dom.JStr "red") [Dom.Node "DIV" [] [] ""]
  = (inr tt, [Dom.Node "DIV" [("style", Dom.JObj [("color", Dom.JStr "red")])] [] ""])
  /\ VDom.assign_prop 0%nat "style.color" (Dom.JStr "red") [Dom.Node "DIV" [] [] ""]
     = (inr tt, [Dom.Node "DIV" [("style", Dom.JObj [("color", Dom.JStr "red")])] [] ""])
  /\ VDom.render_resolve
       (VDom.VDict (Dom.JStr "p") (Dom.JObj [("style__color", Dom.JStr "red")]) VDom.CNone)
       None []
     = (inr 0%nat, [Dom.Node "P" [("style", Dom.JObj [("color", Dom.JStr "red")])] [] ""]).
Proof. repeat split. Qed.

End KeyFacts.

(** ** Frames of the render-target operations *)

Section Frame.
Import Dom VDom.
Local Open Scope dom_scope.

(** A facet of a node: its tag, its child list, ... *)
Context {B : Type} (f : node -> B).

(** Every node of [d] is still there in [d'], with the same [f]. *)
Definition keeps (d d' : dom) : Prop :=
  forall i nd, d !! i = Some nd -> exists nd', d' !! i = Some nd' /\ f nd' = f nd.

(** A computation that keeps [f], whether it returns or raises. *)
Definition stable {A} (m : M A) : Prop := forall d, keeps d (snd (m d)).

Lemma keeps_refl d : keeps d d.
Proof. intros i nd H. exists nd. split; [exact H | reflexivity]. Qed.

Lemma keeps_trans d1 d2 d3 : keeps d1 d2 -> keeps d2 d3 -> keeps d1 d3.
Proof.
  intros H12 H23 i nd H.
  destruct (H12 i nd H) as (nd2 & H2 & E2).
  destruct (H23 i nd2 H2) as (nd3 & H3 & E3).
  exists nd3. split; [exact H3 | congruence].
Qed.

Lemma keeps_insert d n nd0 nd :
  d !! n = Some nd0 -> f nd = f nd0 -> keeps d (<[n := nd]> d).
Proof.
  intros Hn E i ndi Hi. destruct (decide (n = i)) as [->|Hne].
  - exists nd. split; [|congruence].
    apply list_lookup_insert_eq. eapply lookup_lt_Some, Hi.
  - exists ndi. split; [|reflexivity].
    rewrite list_lookup_insert_ne by exact Hne. exact Hi.
Qed.

Lemma keeps_app d l : keeps d (d ++ l).
Proof.
  intros i nd H. exists nd. split; [|reflexivity].
  apply lookup_app_l_Some, H.
Qed.

Lemma keeps_fmap (g : node -> node) d :
  (forall nd, f (g nd) = f nd) -> keeps d (g <$> d).
Proof.
  intros Hg i nd H. exists (g nd). split; [|apply Hg].
  rewrite list_lookup_fmap, H. reflexivity.
Qed.

Lemma stable_ret {A} (a : A) : stable (ret a).
Proof. intros d. apply keeps_refl. Qed.

Lemma stable_raise {A} e : stable (@raise A e).
Proof. intros d. apply keeps_refl. Qed.

Lemma stable_bind {A C} (m : M A) (k : A -> M C) :
  stable m -> (forall a, stable (k a)) -> stable (bind m k).
Proof.
  intros Hm Hk d. unfold bind. specialize (Hm d).
  destruct (m d) as [[e|a] d'] eqn:E; cbn in Hm |- *.
  - exact Hm.
  - eapply keeps_trans; [exact Hm | apply Hk].
Qed.

Lemma stable_get_node n : stable (get_node n).
Proof.
  intros d. unfold get_node. destruct (d !! n); apply keeps_refl.
Qed.

Lemma stable_get_children n : stable (get_children n).
Proof.
  apply stable_bind; [apply stable_get_node | intros; apply stable_ret].
Qed.

Lemma stable_createElement t : stable (createElement t).
Proof. intros d. apply keeps_app. Qed.

Lemma stable_resolve_node t node : stable (resolve_node t node).
Proof.
  destruct node as [n|]; cbn [resolve_node]; [|apply stable_createElement].
  apply stable_bind; [apply stable_get_node|].
  intros nd. destruct (bool_decide _);
    [apply stable_ret | apply stable_createElement].
Qed.

(** Operations that only write child lists. *)
Section ChildWrites.
Hypothesis f_children : forall l nd, f (with_children l nd) = f nd.

Lemma stable_update_children n (g : list node_id -> list node_id) :
  stable (let* nd := get_node n in put_node n (with_children (g (children nd)) nd)).
Proof.
  intros d. unfold bind, get_node, put_node.
  destruct (d !! n) as [nd|] eqn:E; cbn; [|apply keeps_refl].
  eapply keeps_insert; [exact E | apply f_children].
Qed.

Lemma stable_detach c : stable (detach c).
Proof. intros d. apply keeps_fmap. intros nd. apply f_children. Qed.

Lemma stable_check_hierarchy p c : stable (check_hierarchy p c).
Proof.
  intros d. unfold check_hierarchy.
  destruct (in_subtree _ _ _ _); apply keeps_refl.
Qed.

Lemma stable_removeChild p c : stable (removeChild p c).
Proof.
  intros d. unfold removeChild, bind, get_node, put_node, raise.
  destruct (d !! p) as [nd|] eqn:E; cbn; [|apply keeps_refl].
  destruct (bool_decide _); cbn; [|apply keeps_refl].
  eapply keeps_insert; [exact E | apply f_children].
Qed.

Lemma stable_appendChild p c : stable (appendChild p c).
Proof.
  unfold appendChild.
  do 4 (apply stable_bind;
          [first [apply stable_get_node | apply stable_check_hierarchy
                 | apply stable_detach] | intros ?]).
  apply (stable_update_children p (fun l => l ++ [c])%list).
Qed.

Lemma stable_insertBefore p new ref : stable (insertBefore p new ref).
Proof.
  unfold insertBefore.
  do 3 (apply stable_bind;
          [first [apply stable_get_node | apply stable_check_hierarchy] | intros ?]).
  destruct (bool_decide _); [|apply stable_raise].
  apply stable_bind; [apply stable_detach | intros _].
  apply (stable_update_children p (insert_before new ref)).
Qed.

Lemma stable_truncate_loop fuel n target : stable (truncate_loop fuel n target).
Proof.
  induction fuel as [|fuel IH]; cbn [truncate_loop]; [apply stable_ret|].
  apply stable_bind; [apply stable_get_children | intros kids].
  destruct (_ <? _)%nat; [|apply stable_ret].
  destruct (kids !! _); [|apply stable_ret].
  apply stable_bind; [apply stable_removeChild | intros _; exact IH].
Qed.

Lemma stable_truncate_children n target : stable (truncate_children n target).
Proof.
  apply stable_bind; [apply stable_get_children | intros kids].
  apply stable_truncate_loop.
Qed.

Lemma stable_splice n subnode new_subnode : stable (splice n subnode new_subnode).
Proof.
  destruct subnode as [sub|]; cbn [splice]; [|apply stable_appendChild].
  destruct (bool_decide _); [apply stable_ret|].
  apply stable_bind; [apply stable_insertBefore | intros _].
  apply stable_removeChild.
Qed.
End ChildWrites.

(** Operations that write members. *)
Section MemberWrites.
Hypothesis f_attrs : forall a nd, f (with_attrs a nd) = f nd.

(** A write inside the object that a member holds changes data only. *)
Lemma stable_assign_nested n p path member val :
  stable (let* nd := get_node n in
          match assign_path path member val (get_member p nd) with
          | Some sub => put_node n (with_attrs (set_field p sub (attrs nd)) nd)
          | None => raise (TypeError "cannot set member")
          end).
Proof.
  intros d. unfold bind, get_node, put_node, raise.
  destruct (d !! n) as [nd|] eqn:E; cbn; [|apply keeps_refl].
  destruct (assign_path _ _ _ _); cbn; [|apply keeps_refl].
  eapply keeps_insert; [exact E | apply f_attrs].
Qed.

Lemma stable_set_datum n key val :
  key <> "innerHTML" -> stable (set_member n key val).
Proof.
  intros Hkey d. unfold set_member.
  destruct (String.eqb_spec key "innerHTML") as [|_]; [contradiction|].
  unfold bind, get_node, put_node.
  destruct (d !! n) as [nd|] eqn:E; cbn; [|apply keeps_refl].
  eapply keeps_insert; [exact E | apply f_attrs].
Qed.

(** Props whose keys name data leave alone whatever member writes leave
    alone. *)
Lemma stable_assign_datum n key val :
  data_key key = true -> stable (assign_prop n key val).
Proof.
  intros Hkey. unfold assign_prop.
  destruct (removelast (key_parts key)) as [|p path] eqn:Epath;
    [|apply stable_assign_nested].
  apply stable_set_datum. intros Hinner.
  unfold data_key, first_member in Hkey.
  destruct (key_parts key) as [|part [|part' rest]]; cbn in Epath, Hinner.
  - discriminate Hinner.
  - rewrite Hinner in Hkey. discriminate Hkey.
  - discriminate Epath.
Qed.

Lemma stable_resolve_data props n :
  data_props props -> stable (resolve_props props n).
Proof.
  induction 1 as [|[key val] rest Hkey _ IH]; cbn [resolve_props];
    [apply stable_ret|].
  apply stable_bind; [apply stable_assign_datum, Hkey | intros _; exact IH].
Qed.

Lemma stable_resolve_head_data type props node :
  (forall fs, props = JObj fs -> data_props fs) ->
  stable (resolve_head type props node).
Proof.
  intros Hdata. unfold resolve_head.
  destruct type; try apply stable_raise.
  destruct props as [| | | | |fs]; try apply stable_raise.
  apply stable_bind; [apply stable_resolve_node | intros n].
  apply stable_bind; [|intros _; apply stable_ret].
  apply stable_resolve_data, Hdata. reflexivity.
Qed.

(** What also a new content leaves alone, every prop leaves alone. *)
Section AnyKey.
Hypothesis f_content :
  forall nd s, f (Node (nodeName nd) (attrs nd) [] s) = f nd.

Lemma stable_set_innerHTML n s : stable (set_innerHTML n s).
Proof.
  intros d. unfold set_innerHTML, bind, get_node, put_node.
  destruct (d !! n) as [nd|] eqn:E; cbn; [|apply keeps_refl].
  eapply keeps_insert; [exact E | apply f_content].
Qed.

Lemma stable_set_member n key val : stable (set_member n key val).
Proof.
  destruct (decide (key = "innerHTML")) as [->|Hkey];
    [apply stable_set_innerHTML | apply stable_set_datum, Hkey].
Qed.

Lemma stable_assign_prop n key val : stable (assign_prop n key val).
Proof.
  unfold assign_prop.
  destruct (removelast (key_parts key)) as [|p path];
    [apply stable_set_member | apply stable_assign_nested].
Qed.

Lemma stable_resolve_props props n : stable (resolve_props props n).
Proof.
  induction props as [|[key val] rest IH]; cbn [resolve_props];
    [apply stable_ret|].
  apply stable_bind; [apply stable_assign_prop | intros _; exact IH].
Qed.

Lemma stable_resolve_head type props node : stable (resolve_head type props node).
Proof.
  unfold resolve_head.
  destruct type; try apply stable_raise.
  destruct props; try apply stable_raise.
  apply stable_bind; [apply stable_resolve_node | intros n].
  apply stable_bind; [apply stable_resolve_props | intros _; apply stable_ret].
Qed.
End AnyKey.
End MemberWrites.

End Frame.

(** ** The reconciler *)

Section ReconcilerFacts.
Import Dom VDom.
Local Open Scope dom_scope.

(** Induction on virtual nodes that reaches the nodes of a child list. *)
Section VnodeInduction.
Variable P : vnode -> Prop.
Hypothesis HReal : forall n, P (VReal n).
Hypothesis HText : forall s, P (VText s).
Hypothesis HOther : P VOther.
Hypothesis HDict : forall type props ch,
  match ch with CList vs => Forall P vs | _ => True end ->
  P (VDict type props ch).

Fixpoint vnode_nested_ind (v : vnode) : P v :=
  match v with
  | VReal n => HReal n
  | VText s => HText s
  | VOther => HOther
  | VDict type props ch =>
      HDict type props ch
        (match ch return match ch with CList vs => Forall P vs | _ => True end with
         | CList l =>
             (fix all (l : list vnode) : Forall P l :=
                match l with
                | [] => @Forall_nil _ P
                | x :: r => @Forall_cons _ P x r (vnode_nested_ind x) (all r)
                end) l
         | _ => I
         end)
  end.
End VnodeInduction.

Lemma stable_set_innerHTML_tag n s : stable nodeName (set_innerHTML n s).
Proof.
  intros d. unfold set_innerHTML, bind, get_node, put_node.
  destruct (d !! n) as [nd|] eqn:E; cbn; [|apply keeps_refl].
  eapply keeps_insert; [exact E | reflexivity].
Qed.

Lemma tag_with_children l nd : nodeName (with_children l nd) = nodeName nd.
Proof. reflexivity. Qed.

Lemma tag_with_attrs a nd : nodeName (with_attrs a nd) = nodeName nd.
Proof. reflexivity. Qed.

Lemma children_with_attrs a nd : children (with_attrs a nd) = children nd.
Proof. reflexivity. Qed.

(** No step of the reconciler changes the tag of a node that exists. *)
Lemma render_resolve_stable_tag v :
  forall node, stable nodeName (render_resolve v node).
Proof.
  induction v as [n | s | | type props ch IH] using vnode_nested_ind;
    intros node; cbn [render_resolve].
  - apply stable_ret.
  - apply stable_bind;
      [apply stable_resolve_head; [apply tag_with_attrs | reflexivity] | intros n].
    apply stable_bind; [apply stable_set_innerHTML_tag | intros _; apply stable_ret].
  - apply stable_raise.
  - apply stable_bind;
      [apply stable_resolve_head; [apply tag_with_attrs | reflexivity] | intros n].
    apply stable_bind; [|intros _; apply stable_ret].
    destruct ch as [| s | vs |].
    + apply stable_ret.
    + apply stable_set_innerHTML_tag.
    + apply stable_bind;
        [apply stable_truncate_children, tag_with_children | intros _].
      generalize O. induction IH as [|vsub rest Hsub _ IHrest]; intros i1.
      * apply stable_ret.
      * apply stable_bind; [apply stable_get_children | intros kids].
        apply stable_bind; [apply Hsub | intros new_subnode].
        apply stable_bind; [apply stable_splice, tag_with_children | intros _].
        apply IHrest.
    + apply stable_raise.
Qed.

Lemma render_stable_tag outernode out : stable nodeName (render outernode out).
Proof.
  assert (Hres : forall v,
    stable nodeName
      (let* node := render_resolve v (Some outernode) in
       if bool_decide (node = outernode) then ret tt else raise AssertionError)).
  { intros v. apply stable_bind; [apply render_resolve_stable_tag | intros node].
    destruct (bool_decide _); [apply stable_ret | apply stable_raise]. }
  destruct out as [| l | [n | s | type props ch |]]; cbn [render].
  - apply stable_ret.
  - apply stable_bind; [apply stable_get_node | intros nd]. apply Hres.
  - destruct (bool_decide _); [apply stable_ret | apply stable_raise].
  - apply stable_bind; [apply stable_get_node | intros nd]. apply Hres.
  - apply stable_bind; [apply stable_get_node | intros nd].
    destruct type; try apply stable_raise.
    destruct (bool_decide _); [apply Hres | apply stable_raise].
  - apply stable_raise.
Qed.

(** C4: a dict root whose type is not the outer anchor's tag, compared in
    lower case, makes [__render] raise a [ValueError] with the document
    as it was; and no outcome of [__render] changes the outer anchor's
    tag. *)
Theorem render_root_type_fixed outernode nd d :
  d !! outernode = Some nd ->
  (forall t props ch,
      Str.lower t <> Str.lower (nodeName nd) ->
      is_value_error (fst (render outernode (OutNode (VDict (JStr t) props ch)) d))
      /\ snd (render outernode (OutNode (VDict (JStr t) props ch)) d) = d)
  /\ (forall out, exists nd',
        snd (render outernode out d) !! outernode = Some nd'
        /\ nodeName nd' = nodeName nd).
Proof.
  intros Hn. split.
  - intros t props ch Hne. cbn [render]. unfold bind, get_node. rewrite Hn.
    rewrite bool_decide_eq_false_2 by exact Hne. cbn. split; [exact I | reflexivity].
  - intros out. exact (render_stable_tag outernode out d outernode nd Hn).
Qed.

Lemma render_root_type_fixed_witness :
  snd (render 0%nat (OutNode (VDict (JStr "p") (JObj []) (CList []))) div_with_child)
    = div_with_child.
Proof.
  refine (proj2 (proj1 (render_root_type_fixed 0%nat _ div_with_child eq_refl)
                   "p" (JObj []) (CList []) _)).
  vm_compute. discriminate.
Defined.

(** [children = None]: only the head of the reconciliation runs. *)
Lemma resolve_none_stable {B} (f : node -> B) type props node :
  (forall a nd, f (with_attrs a nd) = f nd) ->
  (forall fs, props = JObj fs -> data_props fs) ->
  stable f (render_resolve (VDict type props CNone) node).
Proof.
  intros Hf Hdata. cbn [render_resolve].
  apply stable_bind; [apply stable_resolve_head_data; assumption | intros n].
  apply stable_bind; [apply stable_ret | intros _; apply stable_ret].
Qed.

(** C6, as the claim has it, fails: props are written with the very
    statement that sets the content, so a prop keyed [innerHTML] replaces
    the children although [children] is [None]. *)
Lemma children_none_content_counterexample :
  node_children div_with_child 0%nat = [1%nat]
  /\ render_resolve (VDict (JStr "div") (JObj [("innerHTML", JStr "")]) CNone)
       (Some 0%nat) div_with_child
     = (inr 0%nat, [Node "DIV" [] [] ""; Node "B" [] [] ""])
  /\ node_children
       (snd (render_resolve (VDict (JStr "div") (JObj [("innerHTML", JStr "")]) CNone)
               (Some 0%nat) div_with_child)) 0%nat = [].
Proof. repeat split. Qed.

(** C6 (amended): reconciling a virtual node whose [children] is [None]
    and whose props name data of the node leaves every existing node
    with the child list and the tag it had, so the node's children are
    the same in number and in tags, whatever the props assign. *)
Theorem children_none_untouched type props node d i nd :
  d !! i = Some nd ->
  (forall fs, props = JObj fs -> data_props fs) ->
  exists nd',
    snd (render_resolve (VDict type props CNone) node d) !! i = Some nd'
    /\ children nd' = children nd
    /\ nodeName nd' = nodeName nd.
Proof.
  intros Hi Hdata.
  destruct (resolve_none_stable children type props node children_with_attrs Hdata
              d i nd Hi) as (nd1 & H1 & E1).
  destruct (resolve_none_stable nodeName type props node tag_with_attrs Hdata
              d i nd Hi) as (nd2 & H2 & E2).
  exists nd1. split; [exact H1|]. split; [exact E1|]. congruence.
Qed.

Lemma css_class_is_data v : data_props [("css_class", v)].
Proof. repeat constructor. Qed.

Lemma children_none_untouched_witness :
  exists nd',
    snd (render_resolve (VDict (JStr "div") (JObj [("css_class", JStr "big")]) CNone)
           (Some 0%nat) div_with_child) !! 0%nat = Some nd'
    /\ children nd' = [1%nat]
    /\ nodeName nd' = "DIV".
Proof.
  apply (children_none_untouched (JStr "div") (JObj [("css_class", JStr "big")])
           (Some 0%nat) div_with_child 0%nat _ eq_refl).
  intros fs [= <-]. apply css_class_is_data.
Defined.

(** The props are assigned all the same. *)
Example children_none_props_assigned :
  render_resolve (VDict (JStr "div") (JObj [("css_class", JStr "big")]) CNone)
    (Some 0%nat) div_with_child
  = (inr 0%nat, [Node "DIV" [("className", JStr "big")] [1%nat] "";
                 Node "B" [] [] ""]).
Proof. reflexivity. Qed.

(** C9, as the claim has it, fails in its last part: the result of
    [create_element] without child arguments has [children = None], yet
    reconciling it removes the children when a prop writes the content. *)
Lemma create_element_content_counterexample :
  create_element (JStr "div") (JObj [("innerHTML", JStr "")]) []
    = VDict (JStr "div") (JObj [("innerHTML", JStr "")]) CNone
  /\ node_children div_with_child 0%nat = [1%nat]
  /\ node_children
       (snd (render_resolve
               (create_element (JStr "div") (JObj [("innerHTML", JStr "")]) [])
               (Some 0%nat) div_with_child)) 0%nat = [].
Proof. repeat split. Qed.

(** C9 (amended): [create_element] without child arguments yields
    [children = None], not the empty list, and reconciling its result
    leaves every existing node its child list when the props name data of
    the node. *)
Theorem create_element_no_children type props :
  create_element type props []
    = VDict type (if truthy props then props else JObj []) CNone
  /\ create_element type props [] <> create_element type props [ArgList []]
  /\ (forall node d i nd,
        d !! i = Some nd ->
        (forall fs, props = JObj fs -> data_props fs) ->
        exists nd',
          snd (render_resolve (create_element type props []) node d) !! i = Some nd'
          /\ children nd' = children nd).
Proof.
  split; [reflexivity|]. split; [discriminate|].
  intros node d i nd Hi Hdata.
  refine (resolve_none_stable children type _ node children_with_attrs _ d i nd Hi).
  intros fs E. destruct (truthy props); [exact (Hdata fs E)|].
  injection E as <-. constructor.
Qed.

Lemma create_element_no_children_witness :
  exists nd',
    snd (render_resolve (create_element (JStr "div") JNull []) (Some 0%nat)
           div_with_child) !! 0%nat = Some nd'
    /\ children nd' = [1%nat].
Proof.
  apply (proj2 (proj2 (create_element_no_children (JStr "div") JNull))
           (Some 0%nat) div_with_child 0%nat _ eq_refl).
  intros fs [=].
Defined.

(** With the empty list instead, the children go. *)
Example empty_list_removes_children :
  render_resolve (create_element (JStr "div") JNull [ArgList []]) (Some 0%nat)
    div_with_child
  = (inr 0%nat, [Node "DIV" [] [] ""; Node "B" [] [] ""]).
Proof. reflexivity. Qed.

(** *** Strings *)

Lemma insert_fresh (d : dom) (nd nd' : node) :
  <[List.length d := nd']> (d ++ [nd])%list = (d ++ [nd'])%list.
Proof.
  rewrite insert_app_r_alt by lia.
  rewrite Nat.sub_diag. reflexivity.
Qed.

Lemma lookup_fresh (d : dom) (nd : node) :
  (d ++ [nd])%list !! List.length d = Some nd.
Proof. rewrite lookup_app_r by lia. rewrite Nat.sub_diag. reflexivity. Qed.

(** C2, as the claim has it, fails: a string is reconciled as a span, so
    against a div a new span is made and the div keeps its content. *)
Lemma string_against_div_counterexample :
  let d := [Node "DIV" [] [] "old"] in
  let d' := snd (render_resolve (VText "new") (Some 0%nat) d) in
  innerHTML <$> d' !! 0%nat = Some "old"
  /\ innerHTML <$> d' !! 0%nat <> Some "new"
  /\ fst (render_resolve (VText "new") (Some 0%nat) d) = inr 1%nat.
Proof. cbn. split; [reflexivity|]. split; [discriminate | reflexivity]. Qed.

(** C2 (amended): reconciling a string against an existing node whose tag
    is span, in any case, returns that node with its inner markup set to
    the string; its tag and members and all other nodes are as before.
    Against a node of another tag the document only grows by a new span
    that holds the string, which is returned. *)
Theorem string_against_node d n nd s :
  d !! n = Some nd ->
  (Str.lower (nodeName nd) = "span" ->
     render_resolve (VText s) (Some n) d
       = (inr n, <[n := Node (nodeName nd) (attrs nd) [] s]> d))
  /\ (Str.lower (nodeName nd) <> "span" ->
     render_resolve (VText s) (Some n) d
       = (inr (List.length d), (d ++ [Node "SPAN" [] [] s])%list)).
Proof.
  intros Hn. split; intros Htag.
  - cbn [render_resolve resolve_head resolve_node resolve_props].
    unfold bind, get_node, ret. rewrite Hn.
    rewrite bool_decide_eq_true_2 by exact Htag.
    unfold set_innerHTML, bind, get_node, put_node. rewrite Hn. reflexivity.
  - cbn [render_resolve resolve_head resolve_node resolve_props].
    unfold bind, get_node, ret. rewrite Hn.
    rewrite bool_decide_eq_false_2 by exact Htag.
    unfold createElement, set_innerHTML, bind, get_node, put_node.
    rewrite lookup_fresh. cbn [nodeName attrs]. rewrite insert_fresh.
    reflexivity.
Qed.

Lemma string_against_node_witness :
  render_resolve (VText "new") (Some 0%nat) [Node "SPAN" [("id", JStr "a")] [] "old"]
    = (inr 0%nat, [Node "SPAN" [("id", JStr "a")] [] "new"]).
Proof.
  exact (proj1 (string_against_node [Node "SPAN" [("id", JStr "a")] [] "old"]
                  0%nat _ "new" eq_refl) eq_refl).
Defined.

(** Through [__render] a string returned by [_render_dom] is wrapped with
    the outer anchor's own tag, and so always becomes its markup. *)
Lemma render_string_sets_markup d outernode nd s :
  d !! outernode = Some nd ->
  render outernode (OutNode (VText s)) d
    = (inr tt, <[outernode := Node (nodeName nd) (attrs nd) [] s]> d).
Proof.
  intros Hn. cbn [render render_resolve resolve_head resolve_node resolve_props].
  unfold bind, get_node, ret. rewrite Hn. cbn [fst snd].
  rewrite Hn. rewrite bool_decide_eq_true_2 by reflexivity.
  unfold set_innerHTML, bind, get_node, put_node. rewrite Hn.
  rewrite bool_decide_eq_true_2 by reflexivity. reflexivity.
Qed.

(** *** Lists of children *)

Lemma bind_ext {A C} (m : M A) (k k' : A -> M C) d :
  (forall a d', k a d' = k' a d') -> bind m k d = bind m k' d.
Proof.
  intros H. unfold bind. destruct (m d) as [[e|a] d']; [reflexivity | apply H].
Qed.

Lemma bind_ext_l {A C} (m m' : M A) (k : A -> M C) d :
  m d = m' d -> bind m k d = bind m' k d.
Proof. intros H. unfold bind. rewrite H. reflexivity. Qed.

Lemma bind_assoc {A C D} (m : M A) (k : A -> M C) (h : C -> M D) d :
  bind (bind m k) h d = bind m (fun a => bind (k a) h) d.
Proof.
  unfold bind. destruct (m d) as [[e|a] d']; reflexivity.
Qed.

(** The list branch, stage by stage. *)
Lemma render_resolve_list type props vs node d :
  render_resolve (VDict type props (CList vs)) node d
  = (let* n := resolve_head type props node in
     let* _ := truncate_children n (List.length vs) in
     let* _ := resolve_children n vs O in
     ret n) d.
Proof.
  cbn [render_resolve]. apply bind_ext. intros n d1.
  rewrite bind_assoc. apply bind_ext. intros _ d2.
  apply bind_ext_l. clear. revert d2. generalize O.
  induction vs as [|vsub rest IH]; intros i1 d; [reflexivity|].
  cbn [resolve_children]. apply bind_ext. intros kids d1.
  apply bind_ext. intros new_subnode d2.
  apply bind_ext. intros _ d3. apply IH.
Qed.

Lemma without_last (l : list node_id) c :
  NoDup (l ++ [c])%list -> without c (l ++ [c])%list = l.
Proof.
  intros Hnd. apply list.NoDup_app in Hnd as (_ & Hc & _).
  unfold without. rewrite list.filter_app.
  rewrite filter_cons_False by (intros H; apply H; reflexivity).
  rewrite filter_nil, app_nil_r.
  induction l as [|x r IH]; [reflexivity|].
  rewrite filter_cons_True.
  - f_equal. apply IH. intros y Hy. apply Hc. right. exact Hy.
  - intros ->. apply (Hc c); [left | apply list_elem_of_singleton; reflexivity].
Qed.

Lemma with_children_same nd : with_children (children nd) nd = nd.
Proof. destruct nd. reflexivity. Qed.

(** The truncation loop stops within its bound, having cut the child
    list of a node down to its first [target] children. *)
Lemma truncate_loop_spec fuel :
  forall (d : dom) n nd target,
    d !! n = Some nd ->
    NoDup (children nd) ->
    (List.length (children nd) <= target + fuel)%nat ->
    truncate_loop fuel n target d
      = (inr tt, <[n := with_children (take target (children nd)) nd]> d).
Proof.
  assert (Hdone : forall (d : dom) n nd target,
    d !! n = Some nd -> (List.length (children nd) <= target)%nat ->
    d = <[n := with_children (take target (children nd)) nd]> d).
  { intros d n nd target Hn Hlen.
    rewrite take_ge by exact Hlen.
    rewrite with_children_same. symmetry. apply list_insert_id, Hn. }
  induction fuel as [|fuel IH]; intros d n nd target Hn Hnd Hlen.
  - cbn [truncate_loop]. unfold ret. f_equal.
    apply Hdone; [exact Hn | lia].
  - cbn [truncate_loop]. unfold get_children, bind, get_node, ret.
    rewrite Hn.
    destruct (Nat.ltb_spec target (List.length (children nd))) as [Hlt|Hge];
      [|f_equal; apply Hdone; [exact Hn | lia]].
    destruct (children nd) as [|c0 l0] eqn:Ekids using rev_ind;
      [cbn in Hlt; lia|].
    rename c0 into c. rename l0 into init.
    rewrite length_app in *. cbn [List.length] in *.
    replace (List.length init + 1 - 1)%nat with (List.length init) by lia.
    rewrite lookup_app_r by lia. rewrite Nat.sub_diag. cbn [lookup list_lookup].
    unfold removeChild, bind, get_node, put_node, raise. rewrite Hn, Ekids.
    rewrite bool_decide_eq_true_2
      by (apply elem_of_app; right; apply list_elem_of_singleton; reflexivity).
    rewrite (without_last init c Hnd).
    assert (Hlt' : (n < List.length d)%nat) by (eapply lookup_lt_Some, Hn).
    rewrite (IH _ n (with_children init nd) target).
    + rewrite list_insert_insert_eq. cbn [children with_children].
      rewrite take_app_le by lia. reflexivity.
    + apply list_lookup_insert_eq, Hlt'.
    + cbn [children with_children]. apply list.NoDup_app in Hnd. apply Hnd.
    + cbn [children with_children]. lia.
Qed.

Lemma truncate_children_spec (d : dom) n nd target :
  d !! n = Some nd ->
  NoDup (children nd) ->
  truncate_children n target d
    = (inr tt, <[n := with_children (take target (children nd)) nd]> d).
Proof.
  intros Hn Hnd. unfold truncate_children, get_children, bind at 1, bind at 1.
  unfold get_node at 1. rewrite Hn. cbn [ret].
  apply truncate_loop_spec; [exact Hn | exact Hnd | lia].
Qed.

(** C5, as the claim has it, fails: a node whose tag is not the virtual
    node's type is not reused, and a prop that cannot be assigned stops
    the reconciliation before the children; both times the node has its
    one child afterwards although the list of virtual children is
    empty. *)
Lemma list_children_not_truncated_counterexample :
  node_children
    (snd (render_resolve (VDict (JStr "p") (JObj []) (CList [])) (Some 0%nat)
            div_with_child)) 0%nat = [1%nat]
  /\ node_children
       (snd (render_resolve (VDict (JStr "div") (JObj [("data.x", JNum 1)]) (CList []))
               (Some 0%nat) div_with_child)) 0%nat = [1%nat].
Proof. split; reflexivity. Qed.

(** C5 (amended): when the existing node's tag is the virtual node's type,
    in any case, and the props, which name data of the node, have been
    assigned without error, a list of N virtual children against M > N
    children first cuts the node's child list to its first N children,
    changing nothing else, and the positional loop over the virtual
    children then runs from there. *)
Theorem list_children_truncated (d : dom) n nd t props vs d1 :
  d !! n = Some nd ->
  Str.lower (nodeName nd) = Str.lower t ->
  NoDup (children nd) ->
  (List.length vs < List.length (children nd))%nat ->
  data_props props ->
  resolve_props props n d = (inr tt, d1) ->
  exists nd1 d2,
    d1 !! n = Some nd1
    /\ d2 = <[n := with_children (take (List.length vs) (children nd)) nd1]> d1
    /\ truncate_children n (List.length vs) d1 = (inr tt, d2)
    /\ node_children d2 n = take (List.length vs) (children nd)
    /\ List.length (node_children d2 n) = List.length vs
    /\ render_resolve (VDict (JStr t) (JObj props) (CList vs)) (Some n) d
       = (let* _ := resolve_children n vs O in ret n) d2.
Proof.
  intros Hn Htag Hnd Hlen Hdata Hprops.
  destruct (stable_resolve_data children children_with_attrs props n Hdata d n nd Hn)
    as (nd1 & Hn1 & Ekids).
  rewrite Hprops in Hn1. cbn [snd] in Hn1.
  assert (Htrunc := truncate_children_spec d1 n nd1 (List.length vs) Hn1).
  rewrite Ekids in Htrunc. specialize (Htrunc Hnd).
  exists nd1, (<[n := with_children (take (List.length vs) (children nd)) nd1]> d1).
  split; [exact Hn1|]. split; [reflexivity|]. split; [exact Htrunc|].
  assert (Hkids : node_children
                    (<[n := with_children (take (List.length vs) (children nd)) nd1]> d1) n
                  = take (List.length vs) (children nd)).
  { unfold node_children.
    rewrite list_lookup_insert_eq by (eapply lookup_lt_Some, Hn1). reflexivity. }
  split; [exact Hkids|]. split.
  - rewrite Hkids, length_take. lia.
  - rewrite render_resolve_list.
    assert (Hhead : resolve_head (JStr t) (JObj props) (Some n) d = (inr n, d1)).
    { cbn [resolve_head resolve_node]. unfold bind, get_node, ret. rewrite Hn.
      rewrite bool_decide_eq_true_2 by exact Htag. rewrite Hprops. reflexivity. }
    unfold bind at 1. rewrite Hhead.
    unfold bind at 1. rewrite Htrunc. reflexivity.
Qed.

Lemma list_children_truncated_witness :
  node_children
    (snd (render_resolve (VDict (JStr "div") (JObj []) (CList [])) (Some 0%nat)
            div_with_child)) 0%nat = [].
Proof.
  destruct (list_children_truncated div_with_child 0%nat _ "div" [] [] div_with_child
              eq_refl eq_refl) as (nd1 & d2 & _ & _ & _ & Hkids & _ & Hres).
  - cbn. apply NoDup_singleton.
  - cbn. lia.
  - constructor.
  - reflexivity.
  - etransitivity;
      [exact (f_equal (fun r => node_children (snd r) 0%nat) Hres)|].
    cbn in Hkids |- *. exact Hkids.
Defined.

(** With a prop that writes the content the list is emptied by the prop
    and nothing is left to cut: the one child afterwards is the new span,
    not the first of the two children the node had. *)
Example content_prop_before_children :
  render_resolve
    (VDict (JStr "div") (JObj [("innerHTML", JStr "")]) (CList [VText "a"]))
    (Some 0%nat) [Node "DIV" [] [1; 2]%nat ""; Node "B" [] [] ""; Node "I" [] [] ""]
  = (inr 0%nat,
     [Node "DIV" [] [3%nat] ""; Node "B" [] [] ""; Node "I" [] [] "";
      Node "SPAN" [] [] "a"]).
Proof. reflexivity. Qed.

End ReconcilerFacts.

(** * Further properties of the code *)

(** ** Gestures on the input machine *)

Section GestureFacts.
Import Input Browser.

(** The document-wide listeners are installed exactly while the flag says
    captured, which takes a [capture_mouse] other than 0. *)
Definition listeners_match (s : state) : Prop :=
  (doc_listeners s = true <-> capture_flag s = 2)
  /\ (capture_flag s = 2 -> capture_mouse s <> 0)
  /\ (capture_flag s = -1 \/ capture_flag s = 0 \/ capture_flag s = 1
      \/ capture_flag s = 2).

Ltac flag_cases :=
  repeat match goal with
         | |- context [Z.eqb ?a ?b] => destruct (Z.eqb_spec a b)
         | |- context [Z.ltb ?a ?b] => destruct (Z.ltb_spec a b)
         end; cbn in *.

Ltac unfold_handlers :=
  unfold perform, run, deliveries; cbn [fold_left deliver];
  unfold mdown, mmove_outside, mmove_inside, mup_outside, mup_inside,
    losecapture, stopcapture, fire, emit, set_flag, set_listeners;
  cbn -[mouse_wheel]; try destruct (mouse_wheel _ _); cbn.

Lemma listeners_match_perform g s :
  listeners_match s -> listeners_match (perform g s).
Proof.
  destruct s as [cm fl dl rect log]. unfold listeners_match. cbn.
  intros [[H1 H2] [H3 H4]].
  destruct g; unfold_handlers; destruct dl; cbn; flag_cases.
  all: try (exfalso; assert (fl = 2) by auto; lia).
  all: try (exfalso; assert (true = true) by auto; lia).
  all: try solve [split; [split; intros; try lia; try congruence; auto
                         | split; [intros; lia | lia]]].
Qed.

(** X1: from an idle widget whose [capture_mouse] stays as it is, whatever
    the user does, the document-wide listeners are installed exactly while
    [_capture_flag] is 2, and the flag is one of -1, 0, 1, 2. *)
Theorem listeners_follow_flag capture gs :
  let s := perform_all gs (idle capture) in
  (doc_listeners s = true <-> capture_flag s = 2)
  /\ (capture_flag s = -1 \/ capture_flag s = 0 \/ capture_flag s = 1
      \/ capture_flag s = 2).
Proof.
  cbn zeta. unfold perform_all.
  assert (H : listeners_match (idle capture)).
  { unfold listeners_match, idle. cbn.
    split; [split; intros; [discriminate|lia] | split; [intros; lia | lia]]. }
  enough (Hm : listeners_match (fold_left (fun s g => perform g s) gs (idle capture))).
  { destruct Hm as (Ha & _ & Hb). split; assumption. }
  revert H. generalize (idle capture).
  induction gs as [|g gs IH]; intros s Hs; [exact Hs|].
  cbn [fold_left]. apply IH, listeners_match_perform, Hs.
Qed.

(** X2: one gesture emits at most one event; a move or a release over a
    capturing widget, which arrives on both paths, is not emitted twice. *)
Theorem gesture_emits_at_most_once g s :
  exists evs,
    emitted (perform g s) = (emitted s ++ evs)%list /\ (List.length evs <= 1)%nat.
Proof.
  destruct s as [cm fl dl rect log].
  destruct g; unfold_handlers; destruct dl; cbn; flag_cases;
    first [ exfalso; lia
          | exists []; split; [symmetry; apply app_nil_r | cbn; lia]
          | eexists [_]; split; [reflexivity | cbn; lia] ].
Qed.

(** The event records depend on the state through the anchor's rectangle
    only. *)
Lemma mouse_event_rect e s s' :
  node_rect s = node_rect s' -> _create_mouse_event e s = _create_mouse_event e s'.
Proof. intros H. unfold _create_mouse_event. rewrite H. reflexivity. Qed.

Definition captured (cm : Z) rect log : state := State cm 2 true rect log.

Lemma press_captures e s :
  capture_mouse s <> 0 ->
  perform (Press e) s
    = captured (capture_mouse s) (node_rect s)
        (emitted s ++ [(mouse_down_ev, mouse_down e s)]).
Proof.
  intros Hc. destruct s as [cm fl dl rect log]. cbn in *.
  unfold_handlers. flag_cases; [contradiction | reflexivity].
Qed.

Lemma drag_moves_captured ms : forall cm rect log,
  perform_all (map drag_move ms) (captured cm rect log)
    = captured cm rect
        (log ++ map (fun m => (mouse_move_ev,
                               mouse_move (drag_event m) (captured cm rect [])))
                    ms).
Proof.
  induction ms as [|[[inside we] e] ms IH]; intros cm rect log.
  - cbn. rewrite app_nil_r. reflexivity.
  - cbn [map perform_all fold_left]. fold (perform_all (map drag_move ms)).
    assert (E : perform (drag_move (inside, we, e)) (captured cm rect log)
                = captured cm rect
                    (log ++ [(mouse_move_ev,
                              mouse_move (pick_event we e) (captured cm rect []))])).
    { destruct inside; reflexivity. }
    rewrite E, IH, <- app_assoc. reflexivity.
Qed.

(** X3: a drag on a capturing widget.  With [capture_mouse] other than 0, a
    press, any moves over or away from the widget, and the release emit
    one [mouse_down], one [mouse_move] per move and one [mouse_up], in
    that order; afterwards the document-wide listeners are gone, and the
    flag is 0 after a release over the widget and -1 after one elsewhere. *)
Theorem drag_cycle s e0 ms inside we e1 :
  capture_mouse s <> 0 ->
  let release := if (inside : bool) then ReleaseInside we e1 else ReleaseOutside we e1 in
  let s' := perform_all (Press e0 :: map drag_move ms ++ [release]) s in
  emitted s'
    = (emitted s
       ++ [(mouse_down_ev, mouse_down e0 s)]
       ++ map (fun m => (mouse_move_ev, mouse_move (drag_event m) s)) ms
       ++ [(mouse_up_ev, mouse_up (pick_event we e1) s)])%list
  /\ doc_listeners s' = false
  /\ capture_flag s' = (if inside then 0 else -1).
Proof.
  intros Hc. cbn zeta. unfold perform_all.
  cbn [fold_left]. rewrite fold_left_app. cbn [fold_left].
  rewrite (press_captures e0 s Hc).
  fold (perform_all (map drag_move ms)). rewrite drag_moves_captured.
  assert (Hmv : map (fun m => (mouse_move_ev,
                               mouse_move (drag_event m)
                                 (captured (capture_mouse s) (node_rect s) []))) ms
                = map (fun m => (mouse_move_ev, mouse_move (drag_event m) s)) ms).
  { apply map_ext. intros m. unfold mouse_move.
    rewrite (mouse_event_rect _ _ s) by reflexivity. reflexivity. }
  rewrite Hmv.
  assert (Hup : forall log,
            mouse_up (pick_event we e1) (State (capture_mouse s) (-1) false
                                           (node_rect s) log)
            = mouse_up (pick_event we e1) s).
  { intros log. unfold mouse_up. apply mouse_event_rect. reflexivity. }
  destruct inside; unfold_handlers; unfold captured; cbn;
    rewrite Hup, <- !app_assoc; repeat split; reflexivity.
Qed.

Lemma drag_cycle_witness :
  emitted_kinds
    (perform_all [Press origin_event; MoveOutside None origin_event;
                  ReleaseOutside None origin_event] (idle 1))
  = [mouse_down_ev; mouse_move_ev; mouse_up_ev].
Proof.
  pose proof (drag_cycle (idle 1) origin_event [(false, None, origin_event)]
                false None origin_event) as H.
  cbn zeta in H. destruct H as (H & _); [cbn; lia|].
  unfold emitted_kinds.
  exact (f_equal (map fst) H).
Defined.

(** X4: when the capture is lost, the first move over the widget after it
    is swallowed, also with [capture_mouse] 2; it only brings the machine
    back to idle, and the move after that is emitted when [capture_mouse]
    is above 1. *)
Theorem capture_lost_swallows_one_move s e0 e1 we2 e2 we3 e3 :
  capture_mouse s <> 0 ->
  let s1 := perform_all [Press e0; CaptureLost e1; MoveInside we2 e2] s in
  let s2 := perform (MoveInside we3 e3) s1 in
  emitted s1 = (emitted s ++ [(mouse_down_ev, mouse_down e0 s)])%list
  /\ capture_flag s1 = 0
  /\ doc_listeners s1 = false
  /\ emitted s2
     = (if 1 <? capture_mouse s
        then emitted s1 ++ [(mouse_move_ev, mouse_move e3 s)]
        else emitted s1)%list.
Proof.
  intros Hc. cbn zeta. unfold perform_all. cbn [fold_left].
  rewrite (press_captures e0 s Hc).
  destruct s as [cm fl dl rect log]. cbn in Hc |- *.
  unfold captured. unfold_handlers.
  destruct (Z.ltb_spec 1 cm); cbn; repeat split; reflexivity.
Qed.

Lemma capture_lost_swallows_one_move_witness :
  emitted_kinds
    (perform_all [Press origin_event; CaptureLost origin_event;
                  MoveInside None origin_event] (idle 2))
  = [mouse_down_ev].
Proof.
  pose proof (capture_lost_swallows_one_move (idle 2) origin_event origin_event
                None origin_event None origin_event) as H.
  cbn zeta in H. destruct H as (H & _); [cbn; lia|].
  unfold emitted_kinds. exact (f_equal (map fst) H).
Defined.

(** X5: without capture ([capture_mouse] 0) a release away from the widget
    is not seen: no [mouse_up] is emitted, the flag stays 1, and a later
    move over the widget is still emitted as if the button were down. *)
Theorem no_capture_release_outside_missed s e0 we1 e1 we2 e2 :
  capture_mouse s = 0 ->
  let s1 := perform_all [Press e0; ReleaseOutside we1 e1] s in
  let s2 := perform (MoveInside we2 e2) s1 in
  emitted s1 = (emitted s ++ [(mouse_down_ev, mouse_down e0 s)])%list
  /\ capture_flag s1 = 1
  /\ emitted s2 = (emitted s1 ++ [(mouse_move_ev, mouse_move e2 s)])%list.
Proof.
  intros Hc. cbn zeta. unfold perform_all. cbn [fold_left].
  destruct s as [cm fl dl rect log]. cbn in Hc. subst cm.
  unfold_handlers. destruct dl; cbn; repeat split; reflexivity.
Qed.

Lemma no_capture_release_outside_missed_witness :
  capture_flag (perform_all [Press origin_event; ReleaseOutside None origin_event]
                  (idle 0)) = 1.
Proof.
  pose proof (no_capture_release_outside_missed (idle 0) origin_event
                None origin_event None origin_event eq_refl) as H.
  cbn zeta in H. exact (proj1 (proj2 H)).
Defined.

Lemma digits_bit p : forall i tail,
  (forall j, tail !! j <> Some "1"%char) ->
  ((digits_low_first p ++ tail)%list !! i = Some "1"%char
   <-> Z.testbit (Zpos p) (Z.of_nat i) = true).
Proof.
  induction p as [q IH | q IH |]; intros [|i] tail Ht;
    cbn [digits_low_first app lookup list_lookup].
  - split; reflexivity.
  - rewrite IH by exact Ht. rewrite Nat2Z.inj_succ, Pos2Z.inj_xI.
    rewrite Z.testbit_odd_succ by lia. reflexivity.
  - split; discriminate.
  - rewrite IH by exact Ht. rewrite Nat2Z.inj_succ, Pos2Z.inj_xO.
    rewrite Z.testbit_even_succ by lia. reflexivity.
  - split; reflexivity.
  - rewrite Nat2Z.inj_succ. change 1 with (2 * 0 + 1).
    rewrite Z.testbit_odd_succ by lia. rewrite Z.testbit_0_l.
    split; [intros H; exfalso; exact (Ht i H) | discriminate].
Qed.

(** The reversed text of a non-zero mask reads as the bits of its
    magnitude: the sign of a negative mask comes after the last digit. *)
Lemma mask_bit_magnitude e i :
  buttons e <> 0 ->
  mask_bit e i = Z.testbit (Z.abs (buttons e)) (Z.of_nat i).
Proof.
  intros Hb. unfold mask_bit.
  destruct (Z.eqb_spec (buttons e) 0) as [|_]; [contradiction|].
  apply eq_true_iff_eq. rewrite bool_decide_eq_true.
  destruct (buttons e) as [|p|p]; [contradiction| |]; cbn [toString2 Z.abs].
  - rewrite rev_involutive. rewrite <- (app_nil_r (digits_low_first p)).
    apply digits_bit. intros [|j]; discriminate.
  - cbn [rev]. rewrite rev_involutive. apply digits_bit.
    intros [|[|j]]; discriminate.
Qed.

Lemma digits_nonempty p : digits_low_first p <> [].
Proof. destruct p; discriminate. Qed.

Lemma toString2_one z : bool_decide (toString2 z = ["1"%char]) = (z =? 1).
Proof.
  destruct z as [|p|p]; cbn [toString2].
  - reflexivity.
  - destruct p as [q|q|]; cbn [digits_low_first rev]; [| |reflexivity].
    + apply bool_decide_eq_false_2. intros H.
      apply (f_equal (@List.length ascii)) in H. rewrite length_app in H.
      pose proof (digits_nonempty q) as Hq. rewrite <- length_rev in H.
      rewrite rev_involutive in H.
      destruct (digits_low_first q); [contradiction | cbn in H; lia].
    + apply bool_decide_eq_false_2. intros H.
      apply (f_equal (@List.length ascii)) in H. rewrite length_app in H.
      pose proof (digits_nonempty q) as Hq. rewrite <- length_rev in H.
      rewrite rev_involutive in H.
      destruct (digits_low_first q); [contradiction | cbn in H; lia].
  - apply bool_decide_eq_false_2. discriminate.
Qed.

(** X6: the [buttons] list of an event record.  With a non-zero
    [e.buttons] mask it holds exactly the numbers 1 to 5 whose bit (number
    minus one) is set in the magnitude of the mask: the mask itself when
    it is positive, as the browser gives it, and its negation when it is
    negative, the sign being one more character of the text.  With a zero
    mask the list is read off [e.button] instead and is [[1]] when that
    raw code is 1 and empty otherwise. *)
Theorem event_buttons_bits e s :
  (0 < buttons e ->
     forall b, b ∈ ev_buttons (_create_mouse_event e s)
               <-> 1 <= b <= 5 /\ Z.testbit (buttons e) (b - 1) = true)
  /\ (buttons e < 0 ->
     forall b, b ∈ ev_buttons (_create_mouse_event e s)
               <-> 1 <= b <= 5 /\ Z.testbit (- buttons e) (b - 1) = true)
  /\ (buttons e = 0 ->
     ev_buttons (_create_mouse_event e s) = if button e =? 1 then [1] else []).
Proof.
  assert (Hmag : buttons e <> 0 ->
            forall b, b ∈ ev_buttons (_create_mouse_event e s)
                      <-> 1 <= b <= 5 /\ Z.testbit (Z.abs (buttons e)) (b - 1) = true).
  { intros Hb b. cbn [_create_mouse_event ev_buttons]. unfold event_buttons.
    rewrite list_elem_of_fmap. split.
    - intros (i & -> & Hi). apply list_elem_of_filter in Hi as [Hm Hi].
      apply elem_of_seq in Hi. rewrite (mask_bit_magnitude e i Hb) in Hm.
      split; [lia|]. replace (Z.of_nat i + 1 - 1) with (Z.of_nat i) by lia.
      exact Hm.
    - intros [Hr Ht]. exists (Z.to_nat (b - 1)). split; [lia|].
      apply list_elem_of_filter. split.
      + rewrite (mask_bit_magnitude e _ Hb). rewrite Z2Nat.id by lia. exact Ht.
      + apply elem_of_seq. lia. }
  split; [|split].
  - intros Hb b. rewrite (Hmag ltac:(lia) b). rewrite Z.abs_eq by lia. reflexivity.
  - intros Hb b. rewrite (Hmag ltac:(lia) b). rewrite Z.abs_neq by lia. reflexivity.
  - intros Hb. cbn [_create_mouse_event ev_buttons]. unfold event_buttons, mask_bit.
    rewrite Hb. cbn [Z.eqb]. rewrite toString2_one.
    cbn. destruct (button e =? 1); reflexivity.
Qed.

Lemma event_buttons_bits_witness :
  3 ∈ ev_buttons (_create_mouse_event
                    (RawEvent false false false false 0 0 0 0 0 5
                       (Double.of_Z 0) (Double.of_Z 0) 0) (idle 1)).
Proof.
  apply (proj1 (event_buttons_bits
                  (RawEvent false false false false 0 0 0 0 0 5
                     (Double.of_Z 0) (Double.of_Z 0) 0) (idle 1))).
  - cbn. lia.
  - split; [lia | reflexivity].
Defined.

(** A mask of -1 has the text ['-1'], which reversed starts with the
    digit: button 1 alone is listed. *)
Example event_buttons_negative_mask :
  ev_buttons (_create_mouse_event
                (RawEvent false false false false 0 0 0 0 0 (-1)
                   (Double.of_Z 0) (Double.of_Z 0) 0) (idle 1)) = [1].
Proof. reflexivity. Qed.

End GestureFacts.

(** ** Key events *)

Section KeyboardFacts.
Import Keyboard.

Lemma legacy_name_idem k : legacy_name (legacy_name k) = legacy_name k.
Proof.
  unfold legacy_name.
  destruct (String.eqb_spec k "Esc"); [reflexivity|].
  destruct (String.eqb_spec k "Del"); [reflexivity|].
  destruct (String.eqb_spec k "Esc"); [contradiction|].
  destruct (String.eqb_spec k "Del"); [contradiction|]. reflexivity.
Qed.

Lemma legacy_name_not_legacy k :
  legacy_name k <> "Esc" /\ legacy_name k <> "Del".
Proof.
  unfold legacy_name.
  destruct (String.eqb_spec k "Esc"); [split; discriminate|].
  destruct (String.eqb_spec k "Del"); [split; discriminate|].
  split; assumption.
Qed.

Lemma legacy_name_empty k : legacy_name k = "" -> k = "".
Proof.
  unfold legacy_name.
  destruct (String.eqb_spec k "Esc"); [discriminate|].
  destruct (String.eqb_spec k "Del"); [discriminate|]. auto.
Qed.

Lemma lower_ascii_not_upper c :
  Str.lower_ascii c <> "E"%char /\ Str.lower_ascii c <> "D"%char.
Proof.
  destruct c as [[] [] [] [] [] [] [] []]; vm_compute; split; discriminate.
Qed.

Lemma lower_not_legacy r : legacy_name (Str.lower r) = Str.lower r.
Proof.
  unfold legacy_name.
  destruct (String.eqb_spec (Str.lower r) "Esc") as [E|_].
  { destruct r as [|c r]; [discriminate|]. cbn in E. injection E as E _.
    destruct (lower_ascii_not_upper c) as [H _]. contradiction. }
  destruct (String.eqb_spec (Str.lower r) "Del") as [E|_]; [|reflexivity].
  destruct r as [|c r]; [discriminate|]. cbn in E. injection E as E _.
  destruct (lower_ascii_not_upper c) as [_ H]. contradiction.
Qed.

Lemma has_shift_spec e : has_shift (event_modifiers e) = shiftKey e.
Proof.
  unfold has_shift, event_modifiers.
  destruct (altKey e), (shiftKey e), (ctrlKey e), (metaKey e); reflexivity.
Qed.

Lemma prefix_app p r : String.prefix p (p +:+ r) = true.
Proof.
  induction p as [|c p IH]; [destruct r; reflexivity|].
  change (String c p +:+ r) with (String c (p +:+ r)). cbn [String.prefix].
  destruct (ascii_dec c c) as [_|H]; [exact IH | contradiction].
Qed.

(** X7: the key of a key event record is canonical.  It is never the
    legacy name Esc or Del; putting it back as the raw event's key gives
    the same record key again; and a key taken from a code [Key...]
    without Shift is the rest of the code in lower case. *)
Theorem key_event_canonical e :
  let k := ev_key (_create_key_event e) in
  k <> "Esc" /\ k <> "Del"
  /\ ev_key (_create_key_event
               (RawKeyEvent (altKey e) (shiftKey e) (ctrlKey e) (metaKey e) k (code e)))
     = k
  /\ (forall r, key e = "" -> code e = "Key" +:+ r -> shiftKey e = false ->
        k = Str.lower r).
Proof.
  cbn zeta. split; [apply legacy_name_not_legacy|].
  split; [apply legacy_name_not_legacy|]. split.
  - destruct (String.eqb_spec (ev_key (_create_key_event e)) "") as [E|Hne].
    + rewrite E.
      assert (Hk : key e = "").
      { unfold _create_key_event in E. cbn [ev_key] in E.
        destruct (String.eqb_spec (key e) "") as [Hk|Hk]; [exact Hk|].
        cbn [andb] in E. apply legacy_name_empty in E. contradiction. }
      rewrite <- E at 2. rewrite <- Hk. destruct e; reflexivity.
    + unfold _create_key_event at 1. cbn [ev_key key code].
      destruct (String.eqb_spec (ev_key (_create_key_event e)) ""); [contradiction|].
      cbn [andb]. unfold _create_key_event. cbn [ev_key].
      apply legacy_name_idem.
  - intros r Hk Hc Hs. unfold _create_key_event. cbn [ev_key].
    rewrite Hk, Hc. cbn [String.eqb andb negb].
    change ("Key" +:+ r) with (String "K" (String "e" (String "y" r))).
    cbn [String.eqb Ascii.eqb Bool.eqb negb drop_chars].
    rewrite (prefix_app "Key" r : String.prefix "Key" (String "K" (String "e" (String "y" r))) = true).
    rewrite has_shift_spec, Hs. apply lower_not_legacy.
Qed.

Lemma key_event_canonical_witness :
  ev_key (_create_key_event (RawKeyEvent false false false false "" "KeyQ")) = "q".
Proof.
  exact (proj2 (proj2 (proj2 (key_event_canonical
           (RawKeyEvent false false false false "" "KeyQ")))) "Q" eq_refl eq_refl eq_refl).
Defined.

End KeyboardFacts.

(** ** More on parenting *)

Section ParentingFacts.
Import Hierarchy Lifecycle.

(** What [set_parent] does when it does not return at once. *)
Lemma set_parent_spec h w np pos :
  np <> parent h w \/ pos <> PosNone ->
  parent (set_parent w np pos h) = <[w := np]> (parent h)
  /\ forall x,
       children (set_parent w np pos h) x =
         if decide (np = Some x) then place pos w (remove_self w (children h x))
         else if decide (parent h w = Some x) then remove_self w (children h x)
         else children h x.
Proof.
  intros Hgo. unfold set_parent.
  assert (Hexit : bool_decide (np = parent h w) && is_pos_none pos = false).
  { destruct Hgo as [H|H].
    - rewrite bool_decide_eq_false_2 by exact H. reflexivity.
    - destruct pos; [contradiction | apply andb_false_r | apply andb_false_r]. }
  rewrite Hexit. clear Hexit Hgo.
  destruct (parent h w) as [op|] eqn:Eop; destruct np as [x0|].
  - destruct (decide (op = x0)) as [->|Hne].
    + rewrite !bool_decide_eq_true_2 by reflexivity. cbn -[remove_self place].
      split; [reflexivity|]. intros x.
      destruct (decide (Some x0 = Some x)) as [[= ->]|Hx].
      * rewrite fn_lookup_insert, remove_self_idem. reflexivity.
      * rewrite fn_lookup_insert_ne by congruence. reflexivity.
    + rewrite !(bool_decide_eq_false_2 (Some op = Some x0)) by congruence.
      cbn -[remove_self place]. split; [reflexivity|]. intros x.
      destruct (decide (Some x0 = Some x)) as [[= ->]|Hx].
      * rewrite fn_lookup_insert.
        rewrite fn_lookup_insert_ne by congruence. reflexivity.
      * rewrite fn_lookup_insert_ne by congruence.
        destruct (decide (Some op = Some x)) as [[= ->]|Hx'].
        -- rewrite fn_lookup_insert. reflexivity.
        -- rewrite fn_lookup_insert_ne by congruence. reflexivity.
  - rewrite !(bool_decide_eq_false_2 (Some op = None)) by discriminate.
    cbn -[remove_self place]. split; [reflexivity|]. intros x.
    destruct (decide (None = Some x)) as [|_]; [discriminate|].
    destruct (decide (Some op = Some x)) as [[= ->]|Hx'].
    + rewrite fn_lookup_insert. reflexivity.
    + rewrite fn_lookup_insert_ne by congruence. reflexivity.
  - rewrite !(bool_decide_eq_false_2 (None = Some x0)) by discriminate.
    cbn -[remove_self place]. split; [reflexivity|]. intros x.
    destruct (decide (Some x0 = Some x)) as [[= ->]|Hx].
    + rewrite fn_lookup_insert. reflexivity.
    + rewrite fn_lookup_insert_ne by congruence.
      destruct (decide (None = Some x)); [discriminate | reflexivity].
  - cbn. split; [reflexivity|]. intros x.
    destruct (decide (None = Some x)); [discriminate | reflexivity].
Qed.

(** The index at which a numeric [pos] puts the widget into a list of
    length [len]: [pos] itself up to [len]; from [-1] down to [-(len+1)]
    the places from the end to the front; and below that, where the
    compiled [insert] leaves the index negative and [splice] counts it
    from the end of the list with its [None] again, the places from the
    end to the front once more, and then the front. *)
Definition insert_index (z : Z) (l : list entry) : nat :=
  let len := Z.of_nat (List.length l) in
  Z.to_nat (if 0 <=? z then Z.min z len
            else if - (len + 1) <=? z then len + 1 + z
            else Z.max 0 (2 * (len + 1) + z)).

Lemma insert_index_le z l : (insert_index z l <= List.length l)%nat.
Proof.
  unfold insert_index.
  destruct (Z.leb_spec 0 z); [lia|].
  destruct (Z.leb_spec (- (Z.of_nat (List.length l) + 1)) z); lia.
Qed.

Lemma place_at_index_formula z w l :
  place (PosNum z) w l
    = (take (insert_index z l) l ++ Some w :: drop (insert_index z l) l)%list.
Proof.
  unfold place, py_insert, js_splice_in, py_pop_last.
  destruct (Z.leb_spec 0 z) as [Hz|Hz].
  - pose proof (proj2 (Z.ltb_ge z 0) Hz) as E. cbv zeta. rewrite !E.
    unfold insert_index. destruct (Z.leb_spec 0 z); [|lia]. reflexivity.
  - pose proof (proj2 (Z.ltb_lt z 0) Hz) as E. cbv zeta. rewrite E.
    rewrite length_app. cbn [List.length].
    set (len := Z.of_nat (List.length l)).
    assert (Hlen : Z.of_nat (List.length l + 1) = len + 1) by (unfold len; lia).
    rewrite Hlen.
    assert (Hk : Z.to_nat (if len + 1 + z <? 0
                           then Z.max (len + 1 + (len + 1 + z)) 0
                           else Z.min (len + 1 + z) (len + 1))
                 = insert_index z l).
    { unfold insert_index. fold len.
      destruct (Z.leb_spec 0 z); [lia|].
      destruct (Z.ltb_spec (len + 1 + z) 0), (Z.leb_spec (- (len + 1)) z); lia. }
    rewrite Hk.
    pose proof (insert_index_le z l) as Hle.
    rewrite take_app_le by exact Hle.
    rewrite drop_app_le by exact Hle.
    change (take (insert_index z l) l ++ Some w :: drop (insert_index z l) l ++ [None])%list
      with (take (insert_index z l) l
            ++ (Some w :: drop (insert_index z l) l) ++ [None])%list.
    rewrite app_assoc. apply removelast_last.
Qed.

(** X8: a numeric [pos] inserts the widget at one index of the list and
    keeps the other entries in order.  The index is [pos] clamped to the
    length when [pos >= 0]; it is counted from the end, -1 being the very
    end, when [pos] is from -1 down to minus the length minus one; and
    for a [pos] below that it is counted from the end a second time,
    [2 * (length + 1) + pos] clamped at 0.  So [pos = -1] appends like
    [pos = None], 0 prepends, and on a list of three entries [pos = -4]
    prepends while [pos = -5] appends. *)
Theorem place_at_index z w l :
  let len := Z.of_nat (List.length l) in
  let k := insert_index z l in
  place (PosNum z) w l = (take k l ++ Some w :: drop k l)%list
  /\ (k <= List.length l)%nat
  /\ (0 <= z -> Z.of_nat k = Z.min z len)
  /\ (- (len + 1) <= z < 0 -> Z.of_nat k = len + 1 + z)
  /\ (z < - (len + 1) -> Z.of_nat k = Z.max 0 (2 * (len + 1) + z))
  /\ place (PosNum (-1)) w l = place PosNone w l
  /\ place (PosNum 0) w l = Some w :: l
  /\ place (PosNum (-4)) 4%nat [Some 1; Some 2; Some 3]%nat
     = [Some 4; Some 1; Some 2; Some 3]%nat
  /\ place (PosNum (-5)) 4%nat [Some 1; Some 2; Some 3]%nat
     = [Some 1; Some 2; Some 3; Some 4]%nat.
Proof.
  cbn zeta. split; [apply place_at_index_formula|].
  split; [apply insert_index_le|].
  split; [|split; [|split]].
  - intros Hz. unfold insert_index. destruct (Z.leb_spec 0 z); lia.
  - intros Hz. unfold insert_index. destruct (Z.leb_spec 0 z); [lia|].
    destruct (Z.leb_spec (- (Z.of_nat (List.length l) + 1)) z); lia.
  - intros Hz. unfold insert_index. destruct (Z.leb_spec 0 z); [lia|].
    destruct (Z.leb_spec (- (Z.of_nat (List.length l) + 1)) z); lia.
  - split; [|split; [|split; reflexivity]].
    + rewrite place_at_index_formula.
      assert (E : insert_index (-1) l = List.length l).
      { unfold insert_index. cbn [Z.leb Z.compare].
        destruct (Z.leb_spec (- (Z.of_nat (List.length l) + 1)) (-1)); lia. }
      rewrite E, firstn_all, drop_all. reflexivity.
    + rewrite place_at_index_formula.
      assert (E : insert_index 0 l = 0%nat).
      { unfold insert_index. cbn [Z.leb Z.compare]. lia. }
      rewrite E. cbn. rewrite drop_0. reflexivity.
Qed.

Lemma elem_of_remove_self e w l :
  e ∈ remove_self w l <-> e <> Some w /\ e ∈ l.
Proof. rewrite remove_self_filter, list_elem_of_filter. reflexivity. Qed.

Lemma NoDup_remove_self w l : NoDup l -> NoDup (remove_self w l).
Proof. rewrite remove_self_filter. apply list.NoDup_filter. Qed.

Lemma place_split pos w l :
  pos <> PosNaN ->
  exists k, place pos w l = (take k l ++ Some w :: drop k l)%list.
Proof.
  intros Hpos. destruct pos as [|z|]; [| |contradiction].
  - exists (List.length l). rewrite firstn_all, drop_all. reflexivity.
  - exists (insert_index z l). apply place_at_index_formula.
Qed.

Lemma elem_of_place pos w l e :
  pos <> PosNaN -> e ∈ place pos w l <-> e = Some w \/ e ∈ l.
Proof.
  intros Hpos. destruct (place_split pos w l Hpos) as [k ->].
  rewrite <- (take_drop k l) at 3.
  rewrite !elem_of_app, elem_of_cons. tauto.
Qed.

Lemma NoDup_place pos w l :
  pos <> PosNaN -> NoDup l -> Some w ∉ l -> NoDup (place pos w l).
Proof.
  intros Hpos Hnd Hw. destruct (place_split pos w l Hpos) as [k ->].
  rewrite <- (take_drop k l) in Hnd, Hw.
  apply list.NoDup_app in Hnd as (Ht & Hdis & Hd).
  apply list.NoDup_app. split; [exact Ht|]. split.
  - intros x Hx Hx'. apply elem_of_cons in Hx' as [->|Hx'].
    + apply Hw, elem_of_app. left. exact Hx.
    + exact (Hdis x Hx Hx').
  - apply NoDup_cons_2; [|exact Hd].
    intros H. apply Hw, elem_of_app. right. exact H.
Qed.

Lemma remove_self_place pos w l :
  pos <> PosNaN -> remove_self w (place pos w l) = remove_self w l.
Proof.
  intros Hpos. destruct (place_split pos w l Hpos) as [k ->].
  rewrite !remove_self_filter, list.filter_app.
  rewrite filter_cons_False by (intros H; apply H; reflexivity).
  rewrite <- list.filter_app, take_drop. reflexivity.
Qed.

Lemma set_parent_early_exit h w :
  set_parent w (parent h w) PosNone h = h.
Proof.
  unfold set_parent. rewrite bool_decide_eq_true_2 by reflexivity. reflexivity.
Qed.

Lemma set_parent_goes h w np pos :
  {np = parent h w /\ pos = PosNone} + {np <> parent h w \/ pos <> PosNone}.
Proof.
  destruct (decide (np = parent h w)) as [E|E]; [|right; left; exact E].
  destruct pos; [left; split; [exact E | reflexivity] | right; right; discriminate
                | right; right; discriminate].
Qed.

(** X9: apart from moving the one widget, [set_parent] with a position
    that is not [nan] changes nothing: every [children] list is, once the
    widget is left out, the list it was, in the same order, and every
    other widget has the parent it had. *)
Theorem set_parent_moves_only_self h w np pos :
  pos <> PosNaN ->
  let h' := set_parent w np pos h in
  (forall x, remove_self w (children h' x) = remove_self w (children h x))
  /\ (forall c, c <> w -> parent h' c = parent h c)
  /\ parent h' w = np.
Proof.
  intros Hpos. cbn zeta.
  destruct (set_parent_goes h w np pos) as [[-> ->]|Hgo].
  { rewrite set_parent_early_exit. repeat split; reflexivity. }
  destruct (set_parent_spec h w np pos Hgo) as [Hp Hc].
  split; [|split].
  - intros x. rewrite Hc.
    destruct (decide (np = Some x)).
    + rewrite remove_self_place by exact Hpos. apply remove_self_idem.
    + destruct (decide (parent h w = Some x)); [apply remove_self_idem | reflexivity].
  - intros c Hne. rewrite Hp. apply fn_lookup_insert_ne. congruence.
  - rewrite Hp. apply fn_lookup_insert.
Qed.

Lemma set_parent_moves_only_self_witness :
  remove_self 2%nat (children (set_parent 2%nat (Some 1%nat) (PosNum 0) one_child) 0%nat)
  = remove_self 2%nat (children one_child 0%nat).
Proof.
  apply (set_parent_moves_only_self one_child 2%nat (Some 1%nat) (PosNum 0)).
  discriminate.
Defined.

(** X10: a hierarchy in which each widget sits, once, in the list of its
    parent and nowhere else stays so under [set_parent] with a position
    that is not [nan], and the widget ends with the parent it was given. *)
Theorem set_parent_keeps_consistent h w np pos :
  consistent h -> pos <> PosNaN ->
  consistent (set_parent w np pos h)
  /\ (forall p, np = Some p -> Some w ∈ children (set_parent w np pos h) p).
Proof.
  intros (Hcons & Hnd & Hnone) Hpos.
  destruct (set_parent_goes h w np pos) as [[-> ->]|Hgo].
  { rewrite set_parent_early_exit. split; [repeat split; auto; apply Hcons|].
    intros p Hp. apply Hcons, Hp. }
  destruct (set_parent_spec h w np pos Hgo) as [Hp Hc].
  assert (Hin : forall p, np = Some p -> Some w ∈ children (set_parent w np pos h) p).
  { intros p ->. rewrite Hc. rewrite decide_True by reflexivity.
    apply elem_of_place; [exact Hpos | left; reflexivity]. }
  split; [|exact Hin]. split; [|split].
  - intros c p. rewrite Hp, Hc.
    destruct (decide (c = w)) as [->|Hcw].
    + rewrite fn_lookup_insert.
      destruct (decide (np = Some p)) as [E|E].
      * split; [intros _|intros _; exact E].
        apply elem_of_place; [exact Hpos | left; reflexivity].
      * split; [intros H; contradiction|]. intros H. exfalso.
        destruct (decide (parent h w = Some p)) as [E'|E'].
        -- exact (remove_self_free _ _ H).
        -- apply E', Hcons, H.
    + rewrite fn_lookup_insert_ne by congruence. rewrite Hcons.
      assert (Hne : Some c <> Some w) by congruence.
      destruct (decide (np = Some p)).
      * rewrite elem_of_place by exact Hpos. rewrite elem_of_remove_self. tauto.
      * destruct (decide (parent h w = Some p)); [|reflexivity].
        rewrite elem_of_remove_self. tauto.
  - intros p. rewrite Hc.
    destruct (decide (np = Some p)).
    + apply NoDup_place; [exact Hpos | apply NoDup_remove_self, Hnd
                         | apply remove_self_free].
    + destruct (decide (parent h w = Some p)); [apply NoDup_remove_self|]; apply Hnd.
  - intros p. rewrite Hc.
    destruct (decide (np = Some p)).
    + rewrite elem_of_place by exact Hpos. rewrite elem_of_remove_self.
      intros [H|[_ H]]; [discriminate | exact (Hnone p H)].
    + destruct (decide (parent h w = Some p)); [|apply Hnone].
      rewrite elem_of_remove_self. intros [_ H]. exact (Hnone p H).
Qed.

Lemma one_child_consistent : consistent one_child.
Proof.
  split; [|split].
  - intros c p. unfold one_child. cbn.
    destruct (decide (c = 2%nat)) as [->|Hc], (decide (p = 0%nat)) as [->|Hp].
    + split; [intros _; apply list_elem_of_singleton; reflexivity | reflexivity].
    + split; [intros [= E]; congruence | intros H; inversion H].
    + split; [discriminate|]. intros H. apply list_elem_of_singleton in H. congruence.
    + split; [discriminate | intros H; inversion H].
  - intros p. unfold one_child. cbn.
    destruct (decide (p = 0%nat)); [apply NoDup_singleton | apply NoDup_nil_2].
  - intros p. unfold one_child. cbn.
    destruct (decide (p = 0%nat)); [|apply not_elem_of_nil].
    intros H. apply list_elem_of_singleton in H. discriminate.
Qed.

Lemma set_parent_keeps_consistent_witness :
  consistent (set_parent 2%nat (Some 1%nat) (PosNum (-1)) one_child).
Proof.
  apply (set_parent_keeps_consistent one_child 2%nat (Some 1%nat) (PosNum (-1))
           one_child_consistent).
  discriminate.
Defined.

End ParentingFacts.

(** ** Disposal *)

Section DisposalFacts.
Import Hierarchy Lifecycle.

Lemma dispose_unfold f self h log :
  dispose (S f) self h log =
    match dispose_each f (children h self) h log with
    | Done h log =>
        Done (_mutate_children self [] (set_parent self None PosNone h))
             (log ++ [self])%list
    | o => o
    end.
Proof.
  cbn [dispose].
  match goal with
  | |- match ?a with _ => _ end = match ?b with _ => _ end =>
      enough (E : a = b) by (rewrite E; reflexivity)
  end.
  generalize (children h self) as l. intros l. revert h log.
  induction l as [|[c|] r IH]; intros h log; cbn [dispose_each]; try reflexivity.
  destruct (dispose f c h log); try reflexivity. apply IH.
Qed.

(** Lists only lose entries, and a widget without a parent stays so. *)
Definition fades (h h' : widgets) : Prop :=
  (forall x e, e ∈ children h' x -> e ∈ children h x)
  /\ (forall c, parent h c = None -> parent h' c = None).

Lemma fades_refl h : fades h h.
Proof. split; auto. Qed.

Lemma fades_trans h1 h2 h3 : fades h1 h2 -> fades h2 h3 -> fades h1 h3.
Proof. intros [A1 B1] [A2 B2]. split; auto. Qed.

Lemma set_parent_parent h w np pos : parent (set_parent w np pos h) w = np.
Proof.
  destruct (set_parent_goes h w np pos) as [[-> ->]|Hgo].
  - rewrite set_parent_early_exit. reflexivity.
  - destruct (set_parent_spec h w np pos Hgo) as [-> _]. apply fn_lookup_insert.
Qed.

Lemma fades_orphan h w : fades h (set_parent w None PosNone h).
Proof.
  destruct (set_parent_goes h w None PosNone) as [[E _]|Hgo].
  { rewrite E, set_parent_early_exit. apply fades_refl. }
  destruct (set_parent_spec h w None PosNone Hgo) as [Hp Hc]. split.
  - intros x e. rewrite Hc.
    destruct (decide (None = Some x)); [discriminate|].
    destruct (decide (parent h w = Some x)); [|auto].
    rewrite elem_of_remove_self. tauto.
  - intros c Hn. rewrite Hp. destruct (decide (w = c)) as [->|Hne].
    + apply fn_lookup_insert.
    + rewrite fn_lookup_insert_ne by exact Hne. exact Hn.
Qed.

Lemma fades_clear h w : fades h (_mutate_children w [] h).
Proof.
  split; [|auto]. intros x e. cbn.
  destruct (decide (w = x)) as [->|Hne].
  - rewrite fn_lookup_insert. intros H. inversion H.
  - rewrite fn_lookup_insert_ne by exact Hne. auto.
Qed.

Lemma height_le_unfold h n v :
  height_le h n v =
    Forall (fun e => match e, n with
                     | Some c, S m => height_le h m c
                     | _, _ => False
                     end) (children h v).
Proof. destruct n; reflexivity. Qed.

Lemma height_fades h h' n : forall v,
  fades h h' -> height_le h n v -> height_le h' n v.
Proof.
  induction n as [|m IH]; intros v Hf; rewrite !height_le_unfold, !list.Forall_forall;
    intros H e He; apply Hf in He; specialize (H e He);
    destruct e as [c|]; try contradiction.
  apply IH; assumption.
Qed.

(** A widget that has been disposed: no parent, no children. *)
Definition released (h : widgets) (c : wid) : Prop :=
  parent h c = None /\ children h c = [].

Lemma released_fades h h' c : fades h h' -> released h c -> released h' c.
Proof.
  intros [Hc Hp] [H1 H2]. split; [apply Hp, H1|].
  destruct (children h' c) as [|e r] eqn:E; [reflexivity|].
  specialize (Hc c e). rewrite E, H2 in Hc.
  exfalso. assert (He : e ∈ e :: r) by (left).
  specialize (Hc He). inversion Hc.
Qed.

Lemma dispose_tree n : forall v h log,
  height_le h n v ->
  exists h' mid,
    dispose (S n) v h log = Done h' (log ++ mid ++ [v])%list
    /\ (forall c, Some c ∈ children h v -> c ∈ mid)
    /\ (forall c, c ∈ (mid ++ [v])%list -> released h' c)
    /\ fades h h'.
Proof.
  assert (Hfinish : forall m v h log h1 mid,
    dispose_each m (children h v) h log = Done h1 (log ++ mid)%list ->
    (forall c, Some c ∈ children h v -> c ∈ mid) ->
    (forall c, c ∈ mid -> released h1 c) ->
    fades h h1 ->
    exists h' mid,
      dispose (S m) v h log = Done h' (log ++ mid ++ [v])%list
      /\ (forall c, Some c ∈ children h v -> c ∈ mid)
      /\ (forall c, c ∈ (mid ++ [v])%list -> released h' c)
      /\ fades h h').
  { intros m v h log h1 mid Heach Hall Hrel Hf.
    exists (_mutate_children v [] (set_parent v None PosNone h1)), mid.
    assert (Hf' : fades h1 (_mutate_children v [] (set_parent v None PosNone h1))).
    { eapply fades_trans; [apply fades_orphan | apply fades_clear]. }
    rewrite dispose_unfold, Heach, <- app_assoc.
    split; [reflexivity|]. split; [exact Hall|]. split.
    - intros c Hc. apply elem_of_app in Hc as [Hc|Hc].
      + eapply released_fades; [exact Hf' | apply Hrel, Hc].
      + apply list_elem_of_singleton in Hc as ->. split.
        * cbn. apply set_parent_parent.
        * cbn. apply fn_lookup_insert.
    - eapply fades_trans; eassumption. }
  induction n as [|m IH]; intros v h log Hh; rewrite height_le_unfold in Hh.
  - assert (E : children h v = []).
    { destruct (children h v) as [|e r]; [reflexivity|].
      inversion Hh as [|? ? He _]; subst. destruct e; contradiction. }
    apply (Hfinish O v h log h []).
    + rewrite E, app_nil_r. reflexivity.
    + rewrite E. intros c Hc. inversion Hc.
    + intros c Hc. inversion Hc.
    + apply fades_refl.
  - assert (Hloop : forall l h0 log0,
      Forall (fun e => match e with Some c => height_le h0 m c | None => False end) l ->
      exists h1 mid,
        dispose_each (S m) l h0 log0 = Done h1 (log0 ++ mid)%list
        /\ (forall c, Some c ∈ l -> c ∈ mid)
        /\ (forall c, c ∈ mid -> released h1 c)
        /\ fades h0 h1).
    { induction l as [|e r IHl]; intros h0 log0 Hl.
      - exists h0, []. rewrite app_nil_r. split; [reflexivity|].
        split; [intros c Hc; inversion Hc|].
        split; [intros c Hc; inversion Hc | apply fades_refl].
      - inversion Hl as [|? ? He Hr]; subst. destruct e as [c|]; [|contradiction].
        destruct (IH c h0 log0 He) as (h1 & mid1 & E1 & _ & R1 & F1).
        destruct (IHl h1 (log0 ++ mid1 ++ [c])%list) as (h2 & mid2 & E2 & A2 & R2 & F2).
        { eapply list.Forall_impl; [exact Hr|]. intros [c'|] Hc'; [|exact Hc'].
          eapply height_fades; eassumption. }
        exists h2, ((mid1 ++ [c]) ++ mid2)%list.
        cbn [dispose_each]. rewrite E1, E2.
        split; [rewrite <- !app_assoc; reflexivity|]. split; [|split].
        + intros c' Hc'. apply elem_of_cons in Hc' as [[= ->]|Hc'].
          * apply elem_of_app. left. apply elem_of_app. right. left.
          * apply elem_of_app. right. apply A2, Hc'.
        + intros c' Hc'. apply elem_of_app in Hc' as [Hc'|Hc'].
          * eapply released_fades; [exact F2 | apply R1, Hc'].
          * apply R2, Hc'.
        + eapply fades_trans; eassumption. }
    destruct (Hloop (children h v) h log) as (h1 & mid & E & A & R & F).
    { eapply list.Forall_impl; [exact Hh|]. intros [c|] Hc; exact Hc. }
    apply (Hfinish (S m) v h log h1 mid E A R F).
Qed.

(** X11: disposing a widget whose tree of children is at most [n] levels
    deep and holds no [None] entry returns (a recursion depth of [n + 1]
    is enough); every child is disposed before the widget itself, which
    comes last; every widget disposed on the way ends without parent and
    without children; and nothing else is changed except that lists lose
    entries. *)
Theorem dispose_children_first n v h log :
  height_le h n v ->
  exists h' mid,
    dispose (S n) v h log = Done h' (log ++ mid ++ [v])%list
    /\ (forall c, Some c ∈ children h v -> c ∈ mid)
    /\ (forall c, c ∈ (mid ++ [v])%list ->
          parent h' c = None /\ children h' c = [])
    /\ (forall x e, e ∈ children h' x -> e ∈ children h x).
Proof.
  intros Hh. destruct (dispose_tree n v h log Hh) as (h' & mid & E & A & R & F).
  exists h', mid. split; [exact E|]. split; [exact A|]. split; [exact R | apply F].
Qed.

Lemma dispose_children_first_witness :
  exists h', dispose 2 0%nat one_child [] = Done h' [2%nat; 0%nat].
Proof.
  destruct (dispose_children_first 1 0%nat one_child []) as (h' & mid & E & A & _).
  - cbn. repeat constructor.
  - exists h'. rewrite E. cbn [app]. f_equal.
    assert (H2 : 2%nat ∈ mid) by (apply A; cbn; left).
    assert (Hlog : exists h'', dispose 2 0%nat one_child [] = Done h'' [2%nat; 0%nat])
      by (eexists; reflexivity).
    destruct Hlog as [h'' E']. rewrite E in E'. injection E' as _ E'.
    exact E'.
Defined.

Lemma each_never_done_with_none (p : wid) f :
  (forall v h log,
      None ∈ children h p -> p ∉ log ->
      match dispose f v h log with
      | Done h' log' => v <> p /\ None ∈ children h' p /\ p ∉ log'
      | Raised _ log' => p ∉ log'
      | OutOfFuel => True
      end) ->
  forall l h log,
    None ∈ children h p -> p ∉ log ->
    match dispose_each f l h log with
    | Done h' log' => (None ∉ l) /\ None ∈ children h' p /\ p ∉ log'
    | Raised _ log' => p ∉ log'
    | OutOfFuel => True
    end.
Proof.
  intros IH. induction l as [|[c|] r IHl]; intros h log Hn Hp; cbn [dispose_each].
  - split; [apply not_elem_of_nil | split; assumption].
  - specialize (IH c h log Hn Hp).
    destruct (dispose f c h log) as [h1 log1| |]; [|exact IH | exact I].
    destruct IH as (_ & Hn1 & Hp1). specialize (IHl h1 log1 Hn1 Hp1).
    destruct (dispose_each f r h1 log1); [|exact IHl | exact I].
    destruct IHl as (Hr & Hn2 & Hp2). split; [|split; assumption].
    intros H. apply elem_of_cons in H as [H|H]; [discriminate | exact (Hr H)].
  - exact Hp.
Qed.

Lemma dispose_never_done_with_none (p : wid) f : forall v h log,
  None ∈ children h p -> p ∉ log ->
  match dispose f v h log with
  | Done h' log' => v <> p /\ None ∈ children h' p /\ p ∉ log'
  | Raised _ log' => p ∉ log'
  | OutOfFuel => True
  end.
Proof.
  induction f as [|f IH]; intros v h log Hn Hp; [exact I|].
  rewrite dispose_unfold.
  pose proof (each_never_done_with_none p f IH (children h v) h log Hn Hp) as Hl.
  destruct (dispose_each f (children h v) h log) as [h1 log1| |];
    [|exact Hl | exact I].
  destruct Hl as (Hv & Hn1 & Hp1).
  assert (Hvp : v <> p) by (intros ->; exact (Hv Hn)).
  split; [exact Hvp|]. split.
  - cbn. rewrite fn_lookup_insert_ne by exact Hvp.
    destruct (set_parent_goes h1 v None PosNone) as [[E _]|Hgo].
    + assert (Hsame : set_parent v None PosNone h1 = h1)
        by (rewrite E at 1; apply set_parent_early_exit).
      rewrite Hsame. exact Hn1.
    + destruct (set_parent_spec h1 v None PosNone Hgo) as [_ Hc]. rewrite Hc.
      destruct (decide (None = Some p)); [discriminate|].
      destruct (decide (parent h1 v = Some p)); [|exact Hn1].
      apply elem_of_remove_self. split; [discriminate | exact Hn1].
  - intros H. apply elem_of_app in H as [H|H]; [exact (Hp1 H)|].
    apply list_elem_of_singleton in H. congruence.
Qed.

(** X12: a [None] entry in a widget's [children], as [set_parent] with
    [pos = nan] leaves one, makes disposing that widget fail: [dispose]
    never returns, the widget's own base disposal is never run, and when
    the [None] is the first entry the call raises at once. *)
Theorem dispose_after_nan_parenting_raises h w p fuel log :
  p ∉ log ->
  let h1 := set_parent w (Some p) PosNaN h in
  None ∈ children h1 p
  /\ match dispose fuel p h1 log with
     | Done _ _ => False
     | Raised _ log' => p ∉ log'
     | OutOfFuel => True
     end
  /\ (remove_self w (children h p) = [] ->
      dispose (S fuel) p h1 log = Raised h1 log).
Proof.
  intros Hp. cbn zeta.
  assert (Hc : children (set_parent w (Some p) PosNaN h) p
               = (remove_self w (children h p) ++ [None])%list).
  { destruct (set_parent_spec h w (Some p) PosNaN) as [_ Hc];
      [right; discriminate|].
    rewrite Hc, decide_True by reflexivity. reflexivity. }
  assert (Hn : None ∈ children (set_parent w (Some p) PosNaN h) p).
  { rewrite Hc. apply elem_of_app. right. left. }
  split; [exact Hn|]. split.
  - pose proof (dispose_never_done_with_none p fuel p _ log Hn Hp) as H.
    destruct (dispose fuel p _ log); [destruct H as [H _]; apply H; reflexivity
                                     | exact H | exact I].
  - intros He. rewrite dispose_unfold, Hc, He. reflexivity.
Qed.

Lemma dispose_after_nan_parenting_raises_witness :
  dispose 1 0%nat (set_parent 1%nat (Some 0%nat) PosNaN orphans) []
    = Raised (set_parent 1%nat (Some 0%nat) PosNaN orphans) [].
Proof.
  refine (proj2 (proj2 (dispose_after_nan_parenting_raises orphans 1%nat 0%nat 0 [] _)) _).
  - apply not_elem_of_nil.
  - reflexivity.
Defined.

End DisposalFacts.

(** ** Members of objects *)

Section MemberFacts.
Import Dom VDom Tree.
Local Open Scope dom_scope.

Lemma get_set_field k v fs : get_field k (set_field k v fs) = v.
Proof.
  induction fs as [|[k' v'] r IH]; cbn.
  - rewrite String.eqb_refl. reflexivity.
  - destruct (String.eqb_spec k k') as [->|Hne]; cbn.
    + rewrite String.eqb_refl. reflexivity.
    + destruct (String.eqb_spec k k'); [contradiction | exact IH].
Qed.

Lemma get_set_field_ne k q v fs :
  q <> k -> get_field q (set_field k v fs) = get_field q fs.
Proof.
  intros Hne. induction fs as [|[k' v'] r IH]; cbn.
  - destruct (String.eqb_spec q k); [contradiction | reflexivity].
  - destruct (String.eqb_spec k k') as [->|Hk]; cbn.
    + destruct (String.eqb_spec q k'); [contradiction | reflexivity].
    + destruct (String.eqb_spec q k'); [reflexivity | exact IH].
Qed.

End MemberFacts.

(** ** Reconciling a list of real nodes *)

Section RealNodeFacts.
Import Dom VDom Tree.
Local Open Scope dom_scope.

Lemma in_subtree_reach fuel : forall (d : dom) r t,
  in_subtree fuel d r t = true -> reach d r t.
Proof.
  induction fuel as [|f IH]; intros d r t; cbn [in_subtree];
    intros H; apply orb_true_iff in H as [H|H].
  - apply bool_decide_eq_true in H as ->. constructor.
  - discriminate.
  - apply bool_decide_eq_true in H as ->. constructor.
  - apply existsb_exists in H as (c & Hc & Hr).
    apply (reach_down d r c t); [apply list_elem_of_In, Hc | apply IH, Hr].
Qed.

(** Taking edges away, anywhere but at the target, opens no new way to it. *)
Lemma reach_shrink (d d' : dom) t r :
  (forall x c, x <> t -> c ∈ node_children d' x -> c ∈ node_children d x) ->
  reach d' r t -> reach d r t.
Proof.
  intros Hsub Hr. induction Hr as [t | r c t Hc _ IH].
  - constructor.
  - destruct (decide (r = t)) as [->|Hne]; [constructor|].
    apply (reach_down d r c t); [apply Hsub; assumption | apply IH, Hsub].
Qed.

Lemma without_absent c (l : list nat) : c ∉ l -> without c l = l.
Proof.
  intros Hc. unfold without. induction l as [|x r IH]; [reflexivity|].
  apply not_elem_of_cons in Hc as [Hne Hc].
  rewrite filter_cons_True by congruence. f_equal. apply IH, Hc.
Qed.

Lemma without_app c (l1 l2 : list nat) :
  without c (l1 ++ l2)%list = (without c l1 ++ without c l2)%list.
Proof. apply list.filter_app. Qed.

Lemma without_cons_eq c (l : list nat) : without c (c :: l) = without c l.
Proof. unfold without. apply filter_cons_False. intros H. apply H. reflexivity. Qed.

Lemma without_cons_ne c x (l : list nat) :
  x <> c -> without c (x :: l) = x :: without c l.
Proof. intros H. unfold without. apply filter_cons_True. exact H. Qed.

Lemma elem_of_without c x (l : list nat) : x ∈ without c l <-> x <> c /\ x ∈ l.
Proof. unfold without. rewrite list_elem_of_filter. reflexivity. Qed.

Lemma insert_before_app new ref (l1 l2 : list nat) :
  ref ∉ l1 ->
  insert_before new ref (l1 ++ ref :: l2)%list = (l1 ++ new :: ref :: l2)%list.
Proof.
  intros Hr. induction l1 as [|x r IH]; cbn.
  - rewrite decide_True by reflexivity. reflexivity.
  - apply not_elem_of_cons in Hr as [Hne Hr].
    rewrite decide_False by congruence. f_equal. apply IH, Hr.
Qed.

Lemma node_children_insert (d : dom) p nd l :
  (p < List.length d)%nat ->
  node_children (<[p := with_children l nd]> d) p = l.
Proof.
  intros Hp. unfold node_children. rewrite list_lookup_insert_eq by exact Hp.
  reflexivity.
Qed.

Lemma node_children_insert_ne (d : dom) p x nd :
  x <> p -> node_children (<[p := nd]> d) x = node_children d x.
Proof.
  intros Hne. unfold node_children. rewrite list_lookup_insert_ne by congruence.
  reflexivity.
Qed.

Lemma node_children_detached c (d : dom) x :
  node_children (detached c d) x = without c (node_children d x).
Proof.
  unfold node_children, detached. rewrite list_lookup_fmap.
  unfold node_id in *. destruct (d !! x) as [nd|]; reflexivity.
Qed.

Lemma node_children_lookup (d : dom) n nd :
  d !! n = Some nd -> node_children d n = children nd.
Proof. intros H. unfold node_children. rewrite H. reflexivity. Qed.

Lemma lookup_detached c (d : dom) (p : nat) nd :
  d !! p = Some nd ->
  detached c d !! p = Some (with_children (without c (children nd)) nd).
Proof.
  intros H. unfold detached, node_id in *.
  rewrite list_lookup_fmap, H. reflexivity.
Qed.

Lemma appendChild_spec (d : dom) p c nd :
  d !! p = Some nd -> is_Some (d !! c) ->
  in_subtree (List.length d) d c p = false ->
  appendChild p c d
    = (inr tt, <[p := with_children (without c (children nd) ++ [c]) nd]>
                 (detached c d)).
Proof.
  intros Hp [ndc Hc] Hh.
  unfold appendChild, bind, get_node, check_hierarchy, detach, put_node.
  rewrite Hp, Hc, Hh.
  change ((fun nd => with_children (without c (children nd)) nd) <$> d)
    with (detached c d).
  unfold node_id in *. rewrite (lookup_detached c d p nd Hp). reflexivity.
Qed.

Lemma insertBefore_spec (d : dom) p new ref nd :
  d !! p = Some nd -> is_Some (d !! new) ->
  in_subtree (List.length d) d new p = false ->
  ref ∈ children nd ->
  insertBefore p new ref d
    = (inr tt, <[p := with_children
                        (insert_before new ref (without new (children nd))) nd]>
                 (detached new d)).
Proof.
  intros Hp [ndc Hc] Hh Hr.
  unfold insertBefore, bind, get_node, check_hierarchy, detach, put_node.
  rewrite Hp, Hc, Hh. rewrite bool_decide_eq_true_2 by exact Hr.
  change ((fun nd => with_children (without new (children nd)) nd) <$> d)
    with (detached new d).
  unfold node_id in *. rewrite (lookup_detached new d p nd Hp). reflexivity.
Qed.

Lemma removeChild_spec (d : dom) p c nd :
  d !! p = Some nd -> c ∈ children nd ->
  removeChild p c d
    = (inr tt, <[p := with_children (without c (children nd)) nd]> d).
Proof.
  intros Hp Hc. unfold removeChild, bind, get_node, put_node.
  rewrite Hp. rewrite bool_decide_eq_true_2 by exact Hc. reflexivity.
Qed.

(** Where the positional loop stands before index [i]: the anchor [n]
    holds the first [i] wanted nodes followed by what is left of its old
    children; other child lists are the old ones less some wanted nodes. *)
Definition loop_state (d0 : dom) (n : nat) (ns : list nat) (i : nat)
    (tail : list nat) (d : dom) : Prop :=
  List.length d = List.length d0
  /\ node_children d n = (take i ns ++ tail)%list
  /\ (n < List.length d0)%nat
  /\ (forall x c, x <> n -> c ∈ node_children d x -> c ∈ node_children d0 x)
  /\ (forall x c, x <> n -> c ∈ node_children d0 x -> c ∉ ns -> c ∈ node_children d x).

Lemma NoDup_advance (l1 t : list nat) ni :
  NoDup (l1 ++ t)%list -> ni ∉ l1 -> NoDup ((l1 ++ [ni]) ++ without ni t)%list.
Proof.
  intros Hnd Hni. apply list.NoDup_app in Hnd as (H1 & Hdis & Ht).
  rewrite <- app_assoc. cbn [app]. apply list.NoDup_app. split; [exact H1|]. split.
  - intros x Hx Hx'. apply elem_of_cons in Hx' as [->|Hx']; [contradiction|].
    apply elem_of_without in Hx' as [_ Hx']. exact (Hdis x Hx Hx').
  - apply NoDup_cons_2.
    + intros H. apply elem_of_without in H as [H _]. apply H. reflexivity.
    + unfold without. apply list.NoDup_filter, Ht.
Qed.

Lemma NoDup_drop_middle (l1 t : list nat) sub :
  NoDup (l1 ++ sub :: t)%list ->
  NoDup (l1 ++ t)%list /\ (sub ∉ l1) /\ sub ∉ t.
Proof.
  intros Hnd. apply list.NoDup_app in Hnd as (H1 & Hdis & Ht).
  apply list.NoDup_cons in Ht as [Hs Ht]. split; [|split].
  - apply list.NoDup_app. split; [exact H1|]. split; [|exact Ht].
    intros x Hx Hx'. apply (Hdis x Hx). right. exact Hx'.
  - intros H. apply (Hdis sub H). left.
  - exact Hs.
Qed.

(** Rewriting with [node_id] read as [nat] on both sides. *)
Tactic Notation "rw" constr(H) :=
  let HH := fresh in
  pose proof H as HH; unfold node_id in HH |- *; rewrite HH; clear HH.
Tactic Notation "rw" constr(H) "in" hyp(G) :=
  let HH := fresh in
  pose proof H as HH; unfold node_id in HH, G; rewrite HH in G; clear HH.

Lemma splice_step (d0 : dom) (n : nat) ns i tail (d : dom) (ni : nat) :
  loop_state d0 n ns i tail d ->
  NoDup ns -> NoDup (take i ns ++ tail)%list ->
  ns !! i = Some ni ->
  (forall x, x ∈ ns -> (x < List.length d0)%nat) ->
  (forall x, x ∈ ns -> ~ reach d0 x n) ->
  exists d' tail',
    splice n ((take i ns ++ tail)%list !! i) ni d = (inr tt, d')
    /\ loop_state d0 n ns (S i) tail' d'
    /\ NoDup (take (S i) ns ++ tail')%list
    /\ (List.length tail' <= pred (List.length tail))%nat.
Proof.
  intros (Hlen & Hkids & Hn & Hsub & Hret) Hnd Hndk Hi Hex Hnr.
  unfold node_id in *.
  assert (Hilt : (i < List.length ns)%nat) by (eapply lookup_lt_Some, Hi).
  assert (Hin : ni ∈ ns) by (eapply list_elem_of_lookup_2, Hi).
  assert (Hnl : (n < List.length d)%nat) by lia.
  destruct (lookup_lt_is_Some_2 d n Hnl) as [ndn Hdn].
  assert (Hck : children ndn = (take i ns ++ tail)%list).
  { rewrite <- Hkids. symmetry. apply node_children_lookup, Hdn. }
  assert (Hsome : is_Some (d !! ni)).
  { apply lookup_lt_is_Some_2. rewrite Hlen. apply Hex, Hin. }
  assert (Hh : in_subtree (List.length d) d ni n = false).
  { destruct (in_subtree (List.length d) d ni n) eqn:E; [|reflexivity].
    exfalso. apply (Hnr ni Hin). apply (reach_shrink d0 d n ni Hsub).
    apply (in_subtree_reach _ _ _ _ E). }
  assert (Hfresh : ni ∉ take i ns).
  { intros H. apply elem_of_take in H as (j & Hj & Hlt).
    pose proof (NoDup_lookup ns i j ni Hnd Hi Hj). lia. }
  assert (Htake : take (S i) ns = (take i ns ++ [ni])%list) by (apply take_S_r, Hi).
  assert (Hpos : (take i ns ++ tail)%list !! i = tail !! 0%nat).
  { rewrite lookup_app_r by (rewrite length_take; lia).
    rewrite length_take. f_equal. lia. }
  rewrite Hpos.
  assert (Hl1 : (n < List.length (detached ni d))%nat)
    by (unfold detached; rewrite length_fmap; exact Hnl).
  assert (Hothers : forall d1 : dom,
      List.length d1 = List.length d ->
      (forall x, x <> n -> node_children d1 x = without ni (node_children d x)) ->
      forall tail',
        node_children d1 n = (take i ns ++ ni :: tail')%list ->
        loop_state d0 n ns (S i) tail' d1).
  { intros d1 Hlen1 Hd1 tail' Hk1. split; [lia|]. split.
    { rw Hk1. rw Htake. rewrite <- app_assoc. reflexivity. }
    split; [exact Hn|]. split.
    - intros x c Hx Hc. rw (Hd1 x Hx) in Hc.
      apply elem_of_without in Hc as [_ Hc]. apply (Hsub x c Hx Hc).
    - intros x c Hx Hc Hcn. rw (Hd1 x Hx). apply elem_of_without. split.
      + intros ->. contradiction.
      + apply (Hret x c Hx Hc Hcn). }
  destruct tail as [|sub tail1].
  - (* nothing at this index: append *)
    cbn [lookup list_lookup splice].
    rw (appendChild_spec d n ni ndn Hdn Hsome Hh).
    rw Hck. rewrite app_nil_r. rw (without_absent ni _ Hfresh).
    eexists. exists []. split; [reflexivity|]. split; [|split].
    + apply Hothers.
      * rewrite length_insert. unfold detached. apply length_fmap.
      * intros x Hx. rw (node_children_insert_ne (detached ni d) n x
                           (with_children (take i ns ++ [ni]) ndn) Hx).
        apply node_children_detached.
      * apply node_children_insert, Hl1.
    + rw Htake. rewrite app_nil_r in Hndk.
      apply (NoDup_advance (take i ns) [] ni); [rewrite app_nil_r; exact Hndk | exact Hfresh].
    + cbn. lia.
  - cbn [lookup list_lookup splice].
    destruct (decide (sub = ni)) as [->|Hne].
    + (* already in place *)
      rewrite bool_decide_eq_true_2 by reflexivity.
      exists d, tail1. split; [reflexivity|]. split; [|split].
      * split; [exact Hlen|]. split.
        { rw Hkids. rw Htake. rewrite <- app_assoc. reflexivity. }
        split; [exact Hn|]. split; [exact Hsub | exact Hret].
      * rw Htake. rewrite <- app_assoc. exact Hndk.
      * cbn. lia.
    + (* another node is there: put the wanted one before it, take it out *)
      rewrite bool_decide_eq_false_2 by exact Hne.
      destruct (NoDup_drop_middle _ _ _ Hndk) as (Hnd' & Hs1 & Hs2).
      assert (Hsubin : sub ∈ children ndn).
      { rewrite Hck. apply elem_of_app. right. left. }
      assert (Hs3 : sub ∉ without ni tail1).
      { intros H. apply elem_of_without in H as [_ H]. contradiction. }
      assert (EL1 : insert_before ni sub (without ni (children ndn))
                    = (take i ns ++ ni :: sub :: without ni tail1)%list).
      { rw Hck. rw (without_app ni (take i ns) (sub :: tail1)).
        rw (without_absent ni _ Hfresh).
        rw (without_cons_ne ni sub tail1 Hne).
        apply insert_before_app, Hs1. }
      assert (EL2 : without sub (take i ns ++ ni :: sub :: without ni tail1)%list
                    = (take i ns ++ ni :: without ni tail1)%list).
      { rw (without_app sub (take i ns) (ni :: sub :: without ni tail1)).
        rw (without_absent sub _ Hs1).
        rw (without_cons_ne sub ni (sub :: without ni tail1) (not_eq_sym Hne)).
        rw (without_cons_eq sub (without ni tail1)).
        rw (without_absent sub _ Hs3). reflexivity. }
      unfold bind.
      rw (insertBefore_spec d n ni sub ndn Hdn Hsome Hh Hsubin).
      rw EL1.
      set (d1 := <[n := with_children
                          (take i ns ++ ni :: sub :: without ni tail1) ndn]>
                   (detached ni d)).
      assert (Hd1n : d1 !! n
                     = Some (with_children
                               (take i ns ++ ni :: sub :: without ni tail1) ndn)).
      { unfold d1. apply list_lookup_insert_eq, Hl1. }
      assert (Hsub1 : sub ∈ children (with_children
                        (take i ns ++ ni :: sub :: without ni tail1) ndn)).
      { cbn. apply elem_of_app. right. right. left. }
      rw (removeChild_spec d1 n sub _ Hd1n Hsub1).
      cbn [children with_children]. rw EL2.
      eexists. exists (without ni tail1). split; [reflexivity|]. split; [|split].
      * apply Hothers.
        -- rewrite length_insert. unfold d1. rewrite length_insert.
           unfold detached. apply length_fmap.
        -- intros x Hx.
           rewrite node_children_insert_ne by exact Hx. unfold d1.
           rewrite node_children_insert_ne by exact Hx.
           apply node_children_detached.
        -- apply node_children_insert. unfold d1. rewrite length_insert. exact Hl1.
      * rw Htake. apply NoDup_advance; assumption.
      * cbn. unfold without. apply length_filter.
Qed.

Lemma get_children_spec (d : dom) (n : nat) :
  (n < List.length d)%nat -> get_children n d = (inr (node_children d n), d).
Proof.
  intros Hn. destruct (lookup_lt_is_Some_2 d n Hn) as [nd Hnd].
  unfold get_children, bind, get_node, ret, node_children.
  unfold node_id in *. rewrite Hnd. reflexivity.
Qed.

Lemma resolve_real_children (d0 : dom) (n : nat) ns :
  NoDup ns ->
  (forall x, x ∈ ns -> (x < List.length d0)%nat) ->
  (forall x, x ∈ ns -> ~ reach d0 x n) ->
  forall rest i tail (d : dom),
    drop i ns = rest ->
    loop_state d0 n ns i tail d ->
    NoDup (take i ns ++ tail)%list ->
    (i + List.length tail <= List.length ns)%nat ->
    exists d',
      resolve_children n (map VReal rest) i d = (inr tt, d')
      /\ loop_state d0 n ns (List.length ns) [] d'.
Proof.
  intros Hnd Hex Hnr. induction rest as [|ni rest IH]; intros i tail d Hdrop Hls Hndk Hb.
  - apply drop_nil_inv in Hdrop.
    assert (i = List.length ns) as -> by lia.
    destruct tail; [|cbn in Hb; lia].
    exists d. split; [reflexivity | exact Hls].
  - assert (Hi : ns !! i = Some ni).
    { rewrite <- (Nat.add_0_r i), <- lookup_drop, Hdrop. reflexivity. }
    assert (Hilt : (i < List.length ns)%nat) by (eapply lookup_lt_Some, Hi).
    destruct (splice_step d0 n ns i tail d ni Hls Hnd Hndk Hi Hex Hnr)
      as (d1 & tail1 & Hsp & Hls1 & Hnd1 & Hlen1).
    destruct (IH (S i) tail1 d1) as (d' & Hres & Hfin).
    + rewrite (drop_S ns ni i Hi) in Hdrop. injection Hdrop as Hdrop. exact Hdrop.
    + exact Hls1.
    + exact Hnd1.
    + destruct tail; cbn in *; lia.
    + exists d'. split; [|exact Hfin].
      destruct Hls as (Hlen & Hkids & Hn & _).
      cbn [map resolve_children]. unfold bind at 1.
      rewrite get_children_spec by lia.
      unfold node_id in *. rewrite Hkids.
      cbn [render_resolve]. unfold bind at 1. unfold ret at 1.
      unfold bind at 1. unfold node_id in *. rewrite Hsp. exact Hres.
Qed.

Lemma truncate_noop (d : dom) (n : nat) nd target :
  d !! n = Some nd -> (List.length (children nd) <= target)%nat ->
  truncate_children n target d = (inr tt, d).
Proof.
  intros Hn Hlen.
  assert (Hloop : forall fuel, truncate_loop fuel n target d = (inr tt, d)).
  { intros [|f]; [reflexivity|].
    cbn [truncate_loop]. unfold get_children, bind, get_node, ret.
    unfold node_id in *. rewrite Hn.
    assert (E : (target <? List.length (children nd))%nat = false)
      by (apply Nat.ltb_ge; unfold node_id in *; lia).
    rw E. reflexivity. }
  unfold truncate_children, get_children, bind at 1, bind at 1.
  unfold get_node at 1. unfold node_id in *. rewrite Hn. cbn [ret]. apply Hloop.
Qed.

Lemma resolve_head_plain (d : dom) (n : nat) nd :
  d !! n = Some nd ->
  resolve_head (JStr (nodeName nd)) (JObj []) (Some n) d = (inr n, d).
Proof.
  intros Hn. cbn [resolve_head resolve_node resolve_props].
  unfold bind, get_node, ret. unfold node_id in *. rewrite Hn.
  rewrite bool_decide_eq_true_2 by reflexivity. reflexivity.
Qed.

(** [__render] on a list, down to the positional loop. *)
Lemma render_list_unfold (d : dom) (n : nat) nd vs d2 :
  d !! n = Some nd ->
  truncate_children n (List.length vs) d = (inr tt, d2) ->
  render n (OutList vs) d
    = match resolve_children n vs O d2 with
      | (inr _, d') => (inr tt, d')
      | (inl e, d') => (inl e, d')
      end.
Proof.
  intros Hn Htr. cbn [render]. unfold bind at 1. unfold get_node at 1.
  unfold node_id in *. rewrite Hn. unfold bind at 1.
  rewrite render_resolve_list. unfold bind at 1.
  rewrite (resolve_head_plain d n nd Hn). unfold bind at 1.
  unfold node_id in *. rewrite Htr. unfold bind at 1.
  destruct (resolve_children n vs 0 d2) as [[e|[]] d']; [reflexivity|].
  cbn [ret]. rewrite bool_decide_eq_true_2 by reflexivity. reflexivity.
Qed.

Lemma render_node_list (d : dom) (outernode : nat) nd ns :
  d !! outernode = Some nd ->
  NoDup (children nd) ->
  NoDup ns ->
  (forall x, x ∈ ns -> (x < List.length d)%nat) ->
  (forall x, x ∈ ns -> ~ reach d x outernode) ->
  exists d',
    render outernode (OutList (map VReal ns)) d = (inr tt, d')
    /\ node_children d' outernode = ns
    /\ List.length d' = List.length d
    /\ (forall x c, x <> outernode ->
          c ∈ node_children d' x -> c ∈ node_children d x)
    /\ (forall x c, x <> outernode ->
          c ∈ node_children d x -> c ∉ ns -> c ∈ node_children d' x).
Proof.
  intros Hn Hndc Hnd Hex Hnr.
  assert (Hnl : (outernode < List.length d)%nat) by (eapply lookup_lt_Some, Hn).
  pose proof (truncate_children_spec d outernode nd (List.length (map VReal ns)) Hn Hndc)
    as Htr.
  set (d2 := <[outernode := with_children
                              (take (List.length (map VReal ns)) (children nd)) nd]> d)
    in Htr.
  assert (Hls : loop_state d outernode ns 0
                  (take (List.length ns) (children nd)) d2).
  { split; [unfold d2; apply length_insert|]. split.
    { unfold d2. rewrite length_map. cbn [take app].
      apply node_children_insert, Hnl. }
    split; [exact Hnl|]. split.
    - intros x c Hx Hc. unfold d2 in Hc.
      rewrite node_children_insert_ne in Hc by exact Hx. exact Hc.
    - intros x c Hx Hc _. unfold d2.
      rewrite node_children_insert_ne by exact Hx. exact Hc. }
  destruct (resolve_real_children d outernode ns Hnd Hex Hnr ns 0
              (take (List.length ns) (children nd)) d2)
    as (d' & Hres & Hfin).
  - apply drop_0.
  - exact Hls.
  - cbn [take app]. exact (sublist_NoDup _ _ Hndc (sublist_take _ _)).
  - rewrite length_take. unfold node_id in *. lia.
  - exists d'. rewrite (render_list_unfold d outernode nd _ d2 Hn Htr), Hres.
    destruct Hfin as (Hlen & Hkids & _ & Hsub & Hret).
    split; [reflexivity|]. split.
    { rewrite Hkids, firstn_all, app_nil_r. reflexivity. }
    split; [exact Hlen|]. split; [exact Hsub | exact Hret].
Qed.

(** X14: rendering a list of real nodes.  When [_render_dom] returns
    distinct existing nodes, none of them the outer anchor or an ancestor
    of it, [__render] succeeds and the anchor's children are exactly that
    list, in its order; no node is created; and every other node's child
    list only loses nodes of the list (those that were moved). *)
Theorem render_real_nodes (d : dom) (outernode : nat) nd ns :
  d !! outernode = Some nd ->
  NoDup (children nd) ->
  NoDup ns ->
  (forall x, x ∈ ns -> (x < List.length d)%nat) ->
  (forall x, x ∈ ns -> ~ reach d x outernode) ->
  exists d',
    render outernode (OutList (map VReal ns)) d = (inr tt, d')
    /\ node_children d' outernode = ns
    /\ List.length d' = List.length d
    /\ (forall x c, x <> outernode ->
          c ∈ node_children d' x -> c ∈ node_children d x)
    /\ (forall x c, x <> outernode ->
          c ∈ node_children d x -> c ∉ ns -> c ∈ node_children d' x).
Proof. apply render_node_list. Qed.

Lemma render_real_nodes_witness :
  exists d',
    render 0%nat (OutList [VReal 2%nat; VReal 1%nat])
      [Node "DIV" [] [1%nat] ""; Node "B" [] [] ""; Node "I" [] [] ""]
    = (inr tt, d')
    /\ node_children d' 0%nat = [2%nat; 1%nat].
Proof.
  destruct (render_real_nodes
              [Node "DIV" [] [1%nat] ""; Node "B" [] [] ""; Node "I" [] [] ""]
              0%nat _ [2%nat; 1%nat] eq_refl)
    as (d' & H1 & H2 & _).
  - cbn. apply NoDup_singleton.
  - apply NoDup_cons_2; [|apply NoDup_singleton].
    intros H. apply list_elem_of_singleton in H. discriminate.
  - intros x Hx. cbn.
    apply elem_of_cons in Hx as [->|Hx]; [lia|].
    apply list_elem_of_singleton in Hx as ->. lia.
  - intros x Hx Hr.
    assert (Hleaf : forall y t, reach [Node "DIV" [] [1%nat] ""; Node "B" [] [] "";
                                       Node "I" [] [] ""] y t ->
                                (y = 1%nat \/ y = 2%nat) -> t = y).
    { intros y t Hyt. induction Hyt as [|r c t Hc _ _]; [reflexivity|].
      intros [->| ->]; cbn in Hc; inversion Hc. }
    apply elem_of_cons in Hx as [->|Hx].
    + specialize (Hleaf _ _ Hr (or_intror eq_refl)). discriminate.
    + apply list_elem_of_singleton in Hx as ->.
      specialize (Hleaf _ _ Hr (or_introl eq_refl)). discriminate.
  - exists d'. split; [exact H1 | exact H2].
Defined.

Lemma resolve_children_in_place (n : nat) (d : dom) suf : forall pre,
  (n < List.length d)%nat ->
  node_children d n = (pre ++ suf)%list ->
  resolve_children n (map VReal suf) (List.length pre) d = (inr tt, d).
Proof.
  induction suf as [|x suf IH]; intros pre Hn Hk; [reflexivity|].
  cbn [map resolve_children]. unfold bind at 1.
  rewrite get_children_spec by exact Hn.
  unfold node_id in *. rewrite Hk.
  rewrite lookup_app_r by lia. rewrite Nat.sub_diag. cbn [lookup list_lookup].
  cbn [render_resolve]. unfold bind at 1. unfold ret at 1.
  unfold bind at 1. cbn [splice].
  rewrite bool_decide_eq_true_2 by reflexivity. unfold ret at 1.
  specialize (IH (pre ++ [x])%list Hn).
  rewrite length_app, Nat.add_1_r in IH. apply IH.
  rewrite <- app_assoc. exact Hk.
Qed.

(** X15: rendering is idempotent on real nodes.  When the outer anchor's
    children already are the list that [_render_dom] returns, [__render]
    changes nothing at all; so a second render after X14 makes no further
    mutation. *)
Theorem render_real_nodes_idempotent (d : dom) (outernode : nat) nd :
  d !! outernode = Some nd ->
  render outernode (OutList (map VReal (children nd))) d = (inr tt, d).
Proof.
  intros Hn.
  assert (Hnl : (outernode < List.length d)%nat) by (eapply lookup_lt_Some, Hn).
  assert (Htr : truncate_children outernode
                  (List.length (map VReal (children nd))) d = (inr tt, d)).
  { apply (truncate_noop d outernode nd); [exact Hn | rewrite length_map; lia]. }
  rewrite (render_list_unfold d outernode nd _ d Hn Htr).
  pose proof (resolve_children_in_place outernode d (children nd) [] Hnl
                (node_children_lookup d outernode nd Hn)) as Hres.
  cbn [List.length] in Hres. rw Hres. reflexivity.
Qed.

Lemma render_real_nodes_idempotent_witness :
  render 0%nat (OutList [VReal 1%nat]) div_with_child = (inr tt, div_with_child).
Proof.
  exact (render_real_nodes_idempotent div_with_child 0%nat _ eq_refl).
Defined.

End RealNodeFacts.

(** ** Reconciling without reuse *)

Section FreshNodeFacts.
Import Dom VDom Tree.
Local Open Scope dom_scope.









End FreshNodeFacts.

(** ** Class names *)

Section ClassFacts.
Import Dom VDom Tree Classes.

Lemma check_token_ok t :
  t <> "" -> has_space t = false -> check_token t = None.
Proof.
  intros Ht Hs. unfold check_token.
  destruct (String.eqb_spec t ""); [contradiction|]. rewrite Hs. reflexivity.
Qed.

Lemma classList_add_ok t cl :
  t <> "" -> has_space t = false ->
  exists cl', classList_add t cl = inr cl'
              /\ (forall x, x ∈ cl' <-> x = t \/ x ∈ cl)
              /\ (NoDup cl -> NoDup cl').
Proof.
  intros Ht Hs. unfold classList_add. rewrite (check_token_ok t Ht Hs).
  destruct (bool_decide (t ∈ cl)) eqn:E.
  - apply bool_decide_eq_true in E. exists cl. split; [reflexivity|]. split; [|auto].
    intros x. split; [auto | intros [->|H]; assumption].
  - apply bool_decide_eq_false in E. eexists. split; [reflexivity|]. split.
    + intros x. rewrite elem_of_app, list_elem_of_singleton. tauto.
    + intros Hnd. apply list.NoDup_app. split; [exact Hnd|]. split.
      * intros x Hx Hx'. apply list_elem_of_singleton in Hx' as ->. contradiction.
      * apply NoDup_singleton.
Qed.

Lemma classList_remove_ok t cl :
  t <> "" -> has_space t = false ->
  exists cl', classList_remove t cl = inr cl'
              /\ (forall x, x ∈ cl' <-> x <> t /\ x ∈ cl)
              /\ (NoDup cl -> NoDup cl').
Proof.
  intros Ht Hs. unfold classList_remove. rewrite (check_token_ok t Ht Hs).
  eexists. split; [reflexivity|]. split.
  - intros x. rewrite list_elem_of_filter. reflexivity.
  - apply list.NoDup_filter.
Qed.

Lemma remove_names_ok names : forall cl,
  Forall (fun t => has_space t = false) names ->
  exists cl', remove_names names cl = inr cl'
              /\ (forall x, x ∈ cl' <-> x ∈ cl /\ ~ (x ∈ names /\ x <> ""))
              /\ (NoDup cl -> NoDup cl').
Proof.
  induction names as [|cn rest IH]; intros cl Hn.
  - exists cl. split; [reflexivity|]. split; [|auto].
    intros x. split; [intros H; split; [exact H | intros [H' _]; inversion H']
                     | intros [H _]; exact H].
  - inversion Hn as [|? ? Hcn Hrest]; subst. cbn [remove_names].
    destruct (String.eqb_spec cn "") as [->|Hne].
    + destruct (IH cl Hrest) as (cl' & E & Hm & Hd).
      exists cl'. split; [exact E|]. split; [|exact Hd].
      intros x. rewrite Hm, elem_of_cons. split.
      * intros [H1 H2]. split; [exact H1|]. intros [[->|H3] H4]; [congruence|].
        apply H2. split; assumption.
      * intros [H1 H2]. split; [exact H1|]. intros [H3 H4]. apply H2. split; auto.
    + destruct (classList_remove_ok cn cl Hne Hcn) as (cl1 & E1 & Hm1 & Hd1).
      rewrite E1.
      destruct (IH cl1 Hrest) as (cl' & E & Hm & Hd).
      exists cl'. split; [exact E|]. split; [|auto].
      intros x. rewrite Hm, Hm1, elem_of_cons. split.
      * intros [[H0 H1] H2]. split; [exact H1|]. intros [[->|H3] H4]; [congruence|].
        apply H2. split; assumption.
      * intros [H1 H2]. split; [split; [|exact H1]|].
        -- intros ->. apply H2. split; [left; reflexivity | exact Hne].
        -- intros [H3 H4]. apply H2. split; auto.
Qed.

Lemma add_names_ok names : forall cl,
  Forall (fun t => has_space t = false) names ->
  exists cl', add_names names cl = inr cl'
              /\ (forall x, x ∈ cl' <-> x ∈ cl \/ (x ∈ names /\ x <> ""))
              /\ (NoDup cl -> NoDup cl').
Proof.
  induction names as [|cn rest IH]; intros cl Hn.
  - exists cl. split; [reflexivity|]. split; [|auto].
    intros x. split; [auto | intros [H|[H _]]; [exact H | inversion H]].
  - inversion Hn as [|? ? Hcn Hrest]; subst. cbn [add_names].
    destruct (String.eqb_spec cn "") as [->|Hne].
    + destruct (IH cl Hrest) as (cl' & E & Hm & Hd).
      exists cl'. split; [exact E|]. split; [|exact Hd].
      intros x. rewrite Hm, elem_of_cons. split.
      * intros [H|[H1 H2]]; [left; exact H | right; split; auto].
      * intros [H|[[->|H1] H2]]; [left; exact H | congruence | right; split; auto].
    + destruct (classList_add_ok cn cl Hne Hcn) as (cl1 & E1 & Hm1 & Hd1).
      rewrite E1.
      destruct (IH cl1 Hrest) as (cl' & E & Hm & Hd).
      exists cl'. split; [exact E|]. split; [|auto].
      intros x. rewrite Hm, Hm1, elem_of_cons. split.
      * intros [[->|H]|[H1 H2]];
          [right; split; [left; reflexivity | exact Hne] | left; exact H
          | right; split; auto].
      * intros [H|[[->|H1] H2]];
          [left; right; exact H | left; left; reflexivity | right; split; auto].
Qed.

(** X17: the [css_class] reaction.  When no name in the old and the new
    value has white space other than the separating blanks, the reaction
    succeeds, and afterwards the outer anchor carries a class exactly if
    it is a name of the new value, or it was carried before and is no name
    of the old value; classes are still listed once. *)
Theorem css_class_reaction first rest cl :
  let old := split_on " " (fst first) in
  let new := split_on " " (snd (List.last (first :: rest) first)) in
  Forall (fun t => has_space t = false) old ->
  Forall (fun t => has_space t = false) new ->
  exists cl',
    __css_class_changed (first :: rest) cl = inr cl'
    /\ (forall x, x ∈ cl' <->
                  (x ∈ new /\ x <> "") \/ (x ∈ cl /\ ~ (x ∈ old /\ x <> "")))
    /\ (NoDup cl -> NoDup cl').
Proof.
  cbn zeta. intros Hold Hnew. unfold __css_class_changed.
  destruct (remove_names_ok _ cl Hold) as (cl1 & E1 & Hm1 & Hd1). rewrite E1.
  destruct (add_names_ok _ cl1 Hnew) as (cl' & E & Hm & Hd).
  exists cl'. split; [exact E|]. split; [|auto].
  intros x. rewrite Hm, Hm1. tauto.
Qed.

Lemma css_class_reaction_witness :
  __css_class_changed [("a b", "b  c")] ["flx-Widget"; "a"; "b"]
    = inr ["flx-Widget"; "b"; "c"].
Proof.
  destruct (css_class_reaction ("a b", "b  c") [] ["flx-Widget"; "a"; "b"])
    as (cl' & E & _).
  - repeat constructor.
  - repeat constructor.
  - rewrite E. vm_compute in E. injection E as <-. reflexivity.
Defined.

Lemma has_space_flx name :
  has_space ("flx-" +:+ name) = has_space name.
Proof. reflexivity. Qed.

Lemma derive_class_names_ok rounds : forall c cl,
  (depth c < rounds)%nat ->
  Forall (fun n => has_space n = false) (chain c) ->
  exists cl', derive_class_names rounds c cl = inr cl'
              /\ (forall x, x ∈ cl' <-> x ∈ cl \/ x ∈ map (String.append "flx-") (chain c))
              /\ (NoDup cl -> NoDup cl').
Proof.
  induction rounds as [|r IH]; intros c cl Hd Hn; [lia|].
  cbn [derive_class_names].
  assert (Hname : has_space (class_name c) = false).
  { destruct c; inversion Hn; subst; assumption. }
  destruct (classList_add_ok ("flx-" +:+ class_name c) cl) as (cl1 & E1 & Hm1 & Hd1).
  { discriminate. }
  { rewrite has_space_flx. exact Hname. }
  rewrite E1. destruct c as [|name base].
  - exists cl1. split; [reflexivity|]. split; [|exact Hd1].
    intros x. rewrite Hm1. cbn. rewrite list_elem_of_singleton. tauto.
  - inversion Hn as [|? ? _ Hbase]; subst. cbn [depth] in Hd.
    destruct (IH base cl1) as (cl' & E & Hm & Hd'); [lia | exact Hbase |].
    exists cl'. split; [exact E|]. split; [|auto].
    intros x. rewrite Hm, Hm1. cbn [chain map class_name]. rewrite elem_of_cons. tauto.
Qed.

Lemma derive_class_names_overflow rounds : forall c cl,
  (rounds <= depth c)%nat ->
  Forall (fun n => has_space n = false) (chain c) ->
  derive_class_names rounds c cl = inl RuntimeError.
Proof.
  induction rounds as [|r IH]; intros c cl Hd Hn; [reflexivity|].
  cbn [derive_class_names].
  destruct c as [|name base]; [cbn in Hd; lia|].
  inversion Hn as [|? ? Hname Hbase]; subst.
  destruct (classList_add_ok ("flx-" +:+ name) cl) as (cl1 & E1 & _).
  { discriminate. }
  { rewrite has_space_flx. exact Hname. }
  cbn [class_name]. rewrite E1. apply IH; [cbn in Hd; lia | exact Hbase].
Qed.

(** X18: deriving the class names.  For a class at most 31 levels below
    [Widget] the outer anchor gets the class [flx-] + name for the class
    itself and every base class up to [Widget], and nothing else changes;
    for a class 32 or more levels below the loop runs out and a
    [RuntimeError] is raised.  (Class names hold no white space.) *)
Theorem class_names_derived c cl :
  Forall (fun n => has_space n = false) (chain c) ->
  ((depth c < 32)%nat ->
     exists cl', class_names_of c cl = inr cl'
                 /\ (forall x, x ∈ cl' <->
                       x ∈ cl \/ x ∈ map (String.append "flx-") (chain c))
                 /\ (NoDup cl -> NoDup cl'))
  /\ ((32 <= depth c)%nat -> class_names_of c cl = inl RuntimeError).
Proof.
  intros Hn. split; intros Hd.
  - apply derive_class_names_ok; assumption.
  - apply derive_class_names_overflow; assumption.
Qed.

Lemma class_names_derived_witness :
  class_names_of (Subclass "Button" (Subclass "BaseButton" WidgetClass)) []
    = inr ["flx-Button"; "flx-BaseButton"; "flx-Widget"].
Proof.
  destruct (proj1 (class_names_derived
                     (Subclass "Button" (Subclass "BaseButton" WidgetClass)) [] 
                     ltac:(repeat constructor)) ltac:(cbn; lia))
    as (cl' & E & _).
  rewrite E. vm_compute in E. injection E as <-. reflexivity.
Defined.

Lemma child_anchors_widgets anchor ws :
  child_anchors anchor (map Some ws) = Some (map anchor ws).
Proof.
  induction ws as [|w ws IH]; [reflexivity|].
  cbn [map child_anchors]. rewrite IH. reflexivity.
Qed.

Lemma child_anchors_none anchor kids :
  None ∈ kids -> child_anchors anchor kids = None.
Proof.
  induction kids as [|[w|] kids IH]; intros H; [inversion H | | reflexivity].
  apply elem_of_cons in H as [H|H]; [discriminate|].
  cbn [child_anchors]. rewrite (IH H). reflexivity.
Qed.

(** X19: the default rendering.  With the outer anchors of the child
    widgets distinct, marked [flx-Widget], existing, and neither the
    widget's own outer anchor nor above it, and the anchor's present
    children sitting in an orderly tree, the default [_render_dom]
    followed by [__render] makes the anchor's children the present
    children that are not widgets, in their order, followed by the child
    widgets' anchors in the order of [children]; a [None] among the
    children makes [_render_dom] raise instead. *)
Theorem default_render (d : dom) classes (outernode : nat) nd anchor ws :
  d !! outernode = Some nd ->
  NoDup (children nd) ->
  (forall c, c ∈ children nd ->
     (c < List.length d)%nat /\ ~ reach d c outernode) ->
  NoDup (map anchor ws) ->
  (forall a, a ∈ map anchor ws ->
     (a < List.length d)%nat /\ ~ reach d a outernode
     /\ classList_contains "flx-Widget" (classes a) = true) ->
  (exists d',
     match _render_dom d classes outernode anchor (map Some ws) with
     | Some out => render outernode out d = (inr tt, d')
     | None => False
     end
     /\ node_children d' outernode
        = (foreign_nodes d classes outernode ++ map anchor ws)%list)
  /\ (forall kids, None ∈ kids ->
        _render_dom d classes outernode anchor kids = None).
Proof.
  intros Hn Hndc Hkids Hnda Hanch. split.
  - unfold _render_dom. rewrite child_anchors_widgets.
    assert (Hfk : forall c, c ∈ foreign_nodes d classes outernode ->
                    c ∈ children nd
                    /\ classList_contains "flx-Widget" (classes c) = false).
    { intros c Hc. unfold foreign_nodes in Hc.
      apply list_elem_of_filter in Hc as [Hcl Hc].
      rewrite (node_children_lookup d outernode nd Hn) in Hc. split; assumption. }
    destruct (render_node_list d outernode nd
                (foreign_nodes d classes outernode ++ map anchor ws)%list Hn Hndc)
      as (d' & Hr & Hk & _).
    + apply list.NoDup_app. split; [|split; [|exact Hnda]].
      * unfold foreign_nodes. apply list.NoDup_filter.
        rewrite (node_children_lookup d outernode nd Hn). exact Hndc.
      * intros x Hx Hx'. destruct (Hfk x Hx) as [_ Hf].
        destruct (Hanch x Hx') as (_ & _ & Ht). congruence.
    + intros x Hx. apply elem_of_app in Hx as [Hx|Hx].
      * apply Hkids, Hfk, Hx.
      * apply Hanch, Hx.
    + intros x Hx. apply elem_of_app in Hx as [Hx|Hx].
      * apply Hkids, Hfk, Hx.
      * apply Hanch, Hx.
    + exists d'. split; [exact Hr | exact Hk].
  - intros kids Hnone. unfold _render_dom.
    rewrite (child_anchors_none anchor kids Hnone). reflexivity.
Qed.

Lemma reach_leaf (d : dom) y t :
  node_children d y = [] -> reach d y t -> t = y.
Proof.
  intros Hy Hr. destruct Hr as [|r c t Hc _]; [reflexivity|].
  rewrite Hy in Hc. inversion Hc.
Qed.

(** A div holding a span, and the anchor of a child widget still outside. *)
Definition sample_page : dom :=
  [Node "DIV" [] [1%nat] ""; Node "SPAN" [] [] ""; Node "DIV" [] [] ""].

Definition sample_classes (n : node_id) : class_list :=
  if decide (n = 2%nat) then ["flx-Widget"] else [].

Lemma default_render_witness :
  exists d',
    match _render_dom sample_page sample_classes 0%nat (fun _ => 2%nat)
            [Some 5%nat] with
    | Some out => render 0%nat out sample_page = (inr tt, d')
    | None => False
    end
    /\ node_children d' 0%nat = [1%nat; 2%nat].
Proof.
  refine (proj1 (default_render sample_page sample_classes 0%nat _ (fun _ => 2%nat)
                   [5%nat] eq_refl _ _ _ _)).
  - cbn. apply NoDup_singleton.
  - intros c Hc. cbn in Hc. apply list_elem_of_singleton in Hc as ->.
    split; [cbn; lia|]. intros Hr.
    apply (reach_leaf sample_page 1%nat 0%nat eq_refl) in Hr. discriminate.
  - cbn. apply NoDup_singleton.
  - intros a Ha. cbn in Ha. apply list_elem_of_singleton in Ha as ->.
    split; [cbn; lia|]. split; [|reflexivity]. intros Hr.
    apply (reach_leaf sample_page 2%nat 0%nat eq_refl) in Hr. discriminate.
Defined.

End ClassFacts.

(** ** Focus *)

Section FocusFacts.
Import Dom Tree Focus.

Lemma get_remove_field k fs : get_field k (remove_field k fs) = JUndefined.
Proof.
  unfold remove_field. induction fs as [|[k' v] r IH]; [reflexivity|].
  destruct (decide (k' = k)) as [->|Hne].
  - rewrite filter_cons_False by (cbn; intros H; apply H; reflexivity). exact IH.
  - rewrite filter_cons_True by (cbn; exact Hne). cbn.
    destruct (String.eqb_spec k k'); [congruence | exact IH].
Qed.

Lemma get_remove_field_ne k q fs :
  q <> k -> get_field q (remove_field k fs) = get_field q fs.
Proof.
  intros Hq. unfold remove_field. induction fs as [|[k' v] r IH]; [reflexivity|].
  destruct (decide (k' = k)) as [->|Hne].
  - rewrite filter_cons_False by (cbn; intros H; apply H; reflexivity). cbn.
    destruct (String.eqb_spec q k); [contradiction | exact IH].
  - rewrite filter_cons_True by (cbn; exact Hne). cbn.
    destruct (String.eqb q k'); [reflexivity | exact IH].
Qed.

Lemma hook_fold types : forall ti,
  fold_left (fun ti t => if is_key_event t then -1 else ti) types ti
  = if existsb is_key_event types then -1 else ti.
Proof.
  induction types as [|t types IH]; intros ti; [reflexivity|].
  cbn [fold_left existsb]. rewrite IH.
  destruct (is_key_event t), (existsb is_key_event types); reflexivity.
Qed.

(** X20: key events make a widget focusable.  After the hook on the
    registered event types and the [tabindex] reaction, the inner anchor
    has the member [tabIndex] equal to the larger of [tabindex] and -1
    when a key event type is registered or [tabindex] is at least -1, and
    no such member otherwise; its other members are as before. *)
Theorem key_reactions_make_focusable (d : dom) n nd types tabindex :
  d !! n = Some nd ->
  let ti := _registered_reactions_hook types tabindex in
  exists a,
    __update_tabindex ti n d = (inr tt, <[n := with_attrs a nd]> d)
    /\ get_field "tabIndex" a
       = (if existsb is_key_event types || (-1 <=? tabindex)
          then JNum (Z.max tabindex (-1)) else JUndefined)
    /\ (forall q, q <> "tabIndex" -> get_field q a = get_field q (attrs nd)).
Proof.
  intros Hn. cbn zeta. unfold _registered_reactions_hook, __update_tabindex.
  unfold bind, get_node, put_node. unfold node_id in *. rewrite Hn, hook_fold.
  destruct (Z.ltb_spec tabindex (-1)) as [Hlt|Hge].
  - destruct (Z.leb_spec (-1) tabindex); [lia|]. rewrite orb_false_r.
    destruct (existsb is_key_event types).
    + cbn [Z.ltb Z.compare]. eexists. split; [reflexivity|]. split.
      * rewrite get_set_field. f_equal. lia.
      * intros q Hq. apply get_set_field_ne, Hq.
    + destruct (Z.ltb_spec tabindex (-1)); [|lia].
      eexists. split; [reflexivity|]. split.
      * apply get_remove_field.
      * intros q Hq. apply get_remove_field_ne, Hq.
  - destruct (Z.leb_spec (-1) tabindex); [|lia]. rewrite orb_true_r.
    destruct (Z.ltb_spec tabindex (-1)); [lia|].
    eexists. split; [reflexivity|]. split.
    + rewrite get_set_field. f_equal. lia.
    + intros q Hq. apply get_set_field_ne, Hq.
Qed.

Lemma key_reactions_make_focusable_witness :
  exists a,
    __update_tabindex (_registered_reactions_hook ["mouse_down"; "key_press"] (-2))
      0%nat div_with_child
    = (inr tt, <[0%nat := with_attrs a (Node "DIV" [] [1%nat] "")]> div_with_child)
    /\ get_field "tabIndex" a = JNum (-1).
Proof.
  destruct (key_reactions_make_focusable div_with_child 0%nat _
              ["mouse_down"; "key_press"] (-2) eq_refl) as (a & E & G & _).
  exists a. split; [exact E | exact G].
Defined.

End FocusFacts.

(** ** Size limits *)

Section SizingFacts.
Import Double Sizing.

(** No number is above itself, [nan] and the infinities included. *)
Lemma gt_irrefl x : gt x x = false.
Proof.
  unfold gt, SFltb, SFcompare. destruct x as [s|s| |s m e]; try reflexivity.
  - destruct s; reflexivity.
  - rewrite Z.compare_refl.
    change (PosDef.Pos.compare_cont Eq m m) with (Pos.compare m m).
    rewrite Pos.compare_refl. destruct s; reflexivity.
Qed.

Lemma protect_spec lo hi :
  exists a b,
    protect lo hi = (a, b)
    /\ gt a b = false
    /\ (if gt lo hi then a = mul half (add lo hi) /\ b = a
        else a = lo /\ b = hi).
Proof.
  unfold protect. destruct (gt lo hi) eqn:E.
  - eexists _, _. split; [reflexivity|]. split; [apply gt_irrefl|].
    split; reflexivity.
  - eexists _, _. split; [reflexivity|]. split; [exact E|]. split; reflexivity.
Qed.

(** X21: the size limits that are queried are never out of order.
    Whatever the computed style holds, [_query_min_max_size] returns four
    numbers of which the minimum width is not above the maximum width
    and the minimum height is not above the maximum height: a pair that
    is not read with the minimum above the maximum is returned as read,
    and one that is, is replaced by one number for both, the double
    [0.5 * (min + max)]. *)
Theorem queried_limits_ordered (float : string -> double) (style : computed_style) :
  exists w0 w1 h0 h1,
    _query_min_max_size float style = [w0; w1; h0; h1]
    /\ gt w0 w1 = false /\ gt h0 h1 = false
    /\ (let lo := pixelize float 0 (minWidth style) in
        let hi := pixelize float 1 (maxWidth style) in
        if gt lo hi then w0 = mul half (add lo hi) /\ w1 = w0
        else w0 = lo /\ w1 = hi)
    /\ (let lo := pixelize float 2 (minHeight style) in
        let hi := pixelize float 3 (maxHeight style) in
        if gt lo hi then h0 = mul half (add lo hi) /\ h1 = h0
        else h0 = lo /\ h1 = hi).
Proof.
  unfold _query_min_max_size.
  destruct (protect_spec (pixelize float 0 (minWidth style))
                         (pixelize float 1 (maxWidth style)))
    as (w0 & w1 & Ew & Hw & Hw1).
  destruct (protect_spec (pixelize float 2 (minHeight style))
                         (pixelize float 3 (maxHeight style)))
    as (h0 & h1 & Eh & Hh & Hh1).
  rewrite Ew, Eh. exists w0, w1, h0, h1.
  split; [reflexivity|]. split; [exact Hw|]. split; [exact Hh|].
  split; assumption.
Qed.

(** A style without limits in pixels gets the defaults, whatever [float]
    would make of other texts. *)
Lemma unlimited_style_defaults (float : string -> double) :
  _query_min_max_size float (ComputedStyle "auto" "none" "0" "50%")
  = [of_Z 0; of_Z 1000000000; of_Z 0; of_Z 1000000000].
Proof. reflexivity. Qed.

(** Doubles round: the number that replaces an inverted pair need not lie
    strictly between the two.  For 0.30000000000000004 and 0.3, which are
    neighbours, it is the larger of them. *)
Example mean_of_neighbours :
  let lo := binary_normalize 53 1024 5404319552844596 (-54) false in
  let hi := binary_normalize 53 1024 5404319552844595 (-54) false in
  gt lo hi = true /\ protect lo hi = (lo, lo).
Proof. vm_compute. split; reflexivity. Qed.

End SizingFacts.

(** ** The generator of the widget reference pages *)

Section DocsFacts.
Import Str Docs.

Lemma lower_upper_ascii c : lower_ascii (upper_ascii c) = lower_ascii c.
Proof. destruct c as [[] [] [] [] [] [] [] []]; reflexivity. Qed.

Lemma lower_lower_ascii c : lower_ascii (lower_ascii c) = lower_ascii c.
Proof. destruct c as [[] [] [] [] [] [] [] []]; reflexivity. Qed.

Lemma lower_lower s : lower (lower s) = lower s.
Proof.
  induction s as [|c r IH]; [reflexivity|].
  cbn [lower]. rewrite lower_lower_ascii, IH. reflexivity.
Qed.

Lemma lower_capitalize s : lower (capitalize s) = lower s.
Proof.
  destruct s as [|c r]; [reflexivity|].
  cbn [capitalize lower]. rewrite lower_upper_ascii, lower_lower. reflexivity.
Qed.

Lemma page_file_entry m : page_file m = toctree_entry m +:+ ".rst".
Proof. unfold page_file, page_name, toctree_entry. rewrite lower_capitalize. reflexivity. Qed.

Lemma insert_by_map {A B} (f : A -> B) (le : B -> B -> bool) x l :
  map f (insert_by (fun a b => le (f a) (f b)) x l) = insert_by le (f x) (map f l).
Proof.
  induction l as [|y r IH]; [reflexivity|].
  cbn [insert_by map]. destruct (le (f y) (f x)); cbn [map]; [rewrite IH|]; reflexivity.
Qed.

Lemma sort_by_map {A B} (f : A -> B) (le : B -> B -> bool) l :
  map f (sort_by (fun a b => le (f a) (f b)) l) = sort_by le (map f l).
Proof.
  unfold sort_by. change (@nil B) with (map f []). generalize (@nil A) as acc.
  induction l as [|x r IH]; intros acc; [reflexivity|].
  cbn [fold_left map]. rewrite <- insert_by_map. apply IH.
Qed.

Lemma insert_by_perm {A} (le : A -> A -> bool) x l : insert_by le x l ≡ₚ x :: l.
Proof.
  induction l as [|y r IH]; [reflexivity|].
  cbn [insert_by]. destruct (le y x); [|reflexivity].
  rewrite IH. apply Permutation_swap.
Qed.

Lemma sort_by_perm {A} (le : A -> A -> bool) l : sort_by le l ≡ₚ l.
Proof.
  unfold sort_by.
  assert (H : forall acc, fold_left (fun acc x => insert_by le x acc) l acc ≡ₚ (acc ++ l)%list).
  { induction l as [|x r IH]; intros acc; cbn [fold_left].
    - rewrite app_nil_r. reflexivity.
    - rewrite IH, insert_by_perm. rewrite <- Permutation_middle. reflexivity. }
  apply H.
Qed.

Lemma write_pages_spec ps : forall s,
  exists written,
    created_files (write_pages ps s).1.2 = (created_files s ++ written)%list
    /\ ((write_pages ps s).2 = true -> written = map (fun pg => page_file pg.1) ps)
    /\ (forall p, (p ∉ written) -> files (write_pages ps s).1.2 p = files s p)
    /\ (forall p, is_Some (files s p) \/ p ∈ written ->
                  is_Some (files (write_pages ps s).1.2 p)).
Proof.
  induction ps as [|[m classes] r IH]; intros s.
  - exists []. cbn. rewrite app_nil_r. repeat split; auto.
    intros p [H|H]; [exact H | inversion H].
  - cbn [write_pages]. destruct (page_classes classes (page_head m)) as [classes' [docs|]].
    + destruct (IH (write_file (page_file m) docs s)) as (w & Hc & Hok & Hfr & Hex).
      destruct (write_pages r (write_file (page_file m) docs s)) as [[r' s'] ok].
      unfold write_file in *. cbn [fst snd created_files files] in *.
      exists (page_file m :: w). split; [|split; [|split]].
      * rewrite Hc, <- app_assoc. reflexivity.
      * intros H. rewrite (Hok H). reflexivity.
      * intros p Hp. rewrite Hfr by (intros H; apply Hp; right; exact H).
        apply fn_lookup_insert_ne. intros <-. apply Hp. left.
      * intros p Hp. apply Hex.
        destruct (decide (p = page_file m)) as [->|Hne].
        -- left. rewrite fn_lookup_insert. eexists; reflexivity.
        -- destruct Hp as [Hp|Hp].
           ++ left. rewrite fn_lookup_insert_ne by congruence. exact Hp.
           ++ right. apply elem_of_cons in Hp as [Hp|Hp]; [contradiction | exact Hp].
    + exists []. cbn. rewrite app_nil_r. repeat split; auto.
      * discriminate.
      * intros p [H|H]; [exact H | inversion H].
Qed.

Lemma main_unfold mods s :
  main mods s
  = let r := write_pages (sort_by name_le (collect mods).1) s in
    if r.2 then (r.1.1, write_file "api.rst" (overview (collect mods).1 (collect mods).2) r.1.2, true)
    else (r.1.1, r.1.2, false).
Proof.
  unfold main. destruct (collect mods) as [pages names]. cbn [fst snd].
  destruct (write_pages (sort_by name_le pages) s) as [[ps' s'] ok]. reflexivity.
Qed.

Lemma main_spec mods s :
  exists written,
    created_files (main mods s).1.2 = (created_files s ++ written)%list
    /\ ((main mods s).2 = true ->
        written = (map (fun e => e +:+ ".rst") (toctree_entries (collect mods).1)
                   ++ ["api.rst"])%list)
    /\ (forall p, (p ∉ written) -> files (main mods s).1.2 p = files s p)
    /\ (forall p, is_Some (files s p) \/ p ∈ written ->
                  is_Some (files (main mods s).1.2 p)).
Proof.
  rewrite main_unfold. cbn zeta.
  destruct (write_pages_spec (sort_by name_le (collect mods).1) s)
    as (w & Hc & Hok & Hfr & Hex).
  destruct (write_pages (sort_by name_le (collect mods).1) s) as [[ps' s'] ok].
  cbn in Hc, Hok, Hfr, Hex. destruct ok; cbn.
  - exists (w ++ ["api.rst"])%list. split; [|split; [|split]].
    + rewrite Hc, app_assoc. reflexivity.
    + intros _. f_equal. rewrite (Hok eq_refl). unfold toctree_entries.
      rewrite <- (sort_by_map fst String.leb). rewrite !map_map.
      apply map_ext. intros pg. apply page_file_entry.
    + intros p Hp. rewrite fn_lookup_insert_ne.
      * apply Hfr. intros H. apply Hp, elem_of_app. left. exact H.
      * intros <-. apply Hp, elem_of_app. right. left.
    + intros p Hp. destruct (decide (p = "api.rst")) as [->|Hne].
      * rewrite fn_lookup_insert. eexists; reflexivity.
      * rewrite fn_lookup_insert_ne by congruence. apply Hex.
        destruct Hp as [Hp|Hp]; [left; exact Hp|].
        apply elem_of_app in Hp as [Hp|Hp]; [right; exact Hp|].
        apply elem_of_cons in Hp as [Hp|Hp]; [contradiction | inversion Hp].
  - exists w. split; [exact Hc|]. split; [discriminate|]. split; assumption.
Qed.

Lemma clean_loop_spec todo : forall f p,
  clean_loop todo f p = if bool_decide (p ∈ todo) then None else f p.
Proof.
  induction todo as [|x r IH]; intros f p; [reflexivity|].
  cbn [clean_loop]. rewrite IH.
  destruct (decide (p = x)) as [->|Hne].
  - rewrite (bool_decide_eq_true_2 (x ∈ x :: r)) by left.
    destruct (bool_decide (x ∈ r)); [reflexivity|].
    destruct (f x) eqn:E; [apply fn_lookup_insert | exact E].
  - assert (Hf : match f x with Some _ => <[x:=None]> f | None => f end p = f p).
    { destruct (f x); [apply fn_lookup_insert_ne; congruence | reflexivity]. }
    rewrite Hf. apply (f_equal (fun b : bool => if b then None else f p)).
    apply bool_decide_ext. rewrite elem_of_cons. tauto.
Qed.

(** X22: the table of contents names the pages.  When [main] returns, the
    files it has written are, in this order, one page [e.rst] for every
    entry [e] of the table of contents in the overview, then [api.rst];
    and each of these files exists afterwards. *)
Theorem toctree_names_written_pages mods s ps' s' :
  main mods s = (ps', s', true) ->
  created_files s'
  = (created_files s
     ++ map (fun e => e +:+ ".rst") (toctree_entries (collect mods).1)
     ++ ["api.rst"])%list
  /\ (forall e, e ∈ toctree_entries (collect mods).1 ->
                is_Some (files s' (e +:+ ".rst")))
  /\ files s' "api.rst" = Some (overview (collect mods).1 (collect mods).2).
Proof.
  intros Hmain. destruct (main_spec mods s) as (w & Hc & Hok & _ & Hex).
  rewrite Hmain in Hc, Hok, Hex. cbn in Hc, Hok, Hex.
  specialize (Hok eq_refl). subst w. split; [exact Hc|]. split.
  - intros e He. apply Hex. right. apply elem_of_app. left.
    apply (list_elem_of_fmap_2 (fun e => e +:+ ".rst")), He.
  - rewrite main_unfold in Hmain. cbn zeta in Hmain.
    destruct (write_pages (sort_by name_le (collect mods).1) s) as [[ps1 s1] ok].
    cbn in Hmain. destruct ok; [|discriminate].
    injection Hmain as _ <-. cbn. apply fn_lookup_insert.
Qed.

Lemma toctree_names_written_pages_witness :
  created_files (main sample_modules (State ["old.rst"] (fun _ => None))).1.2
  = ["old.rst"; "widget.rst"; "box.rst"; "api.rst"].
Proof.
  destruct (main sample_modules (State ["old.rst"] (fun _ => None)))
    as [[ps' s'] ok] eqn:E.
  assert (Hok : ok = true) by (apply (f_equal snd) in E; vm_compute in E; symmetry; exact E).
  subst ok.
  destruct (toctree_names_written_pages _ _ _ _ E) as (Hc & _).
  cbn [fst snd]. rewrite Hc. vm_compute. reflexivity.
Defined.

(** X23: the line on the base classes is inserted once.  When the
    treatment of a class does not raise, the class keeps its name and
    bases, its docstring afterwards holds "Inherits from", a docstring
    that held it already is unchanged, one that did not is preceded by
    the line and an empty line, and treating the class again changes
    nothing. *)
Theorem inherits_line_once c c' :
  insert_bases c = Some c' ->
  insert_bases c' = Some c'
  /\ cls_name c' = cls_name c /\ cls_bases c' = cls_bases c
  /\ exists doc doc',
       cls_doc c = Some doc /\ cls_doc c' = Some doc'
       /\ contains "Inherits from" doc' = true
       /\ (if contains "Inherits from" doc then doc' = doc
           else doc' = inherits_line c +:+ nl +:+ nl +:+ doc).
Proof.
  unfold insert_bases. destruct (cls_doc c) as [doc|] eqn:Hdoc; [|discriminate].
  destruct (contains "Inherits from" doc) eqn:Hin; intros [= <-].
  - rewrite Hdoc, Hin. split; [reflexivity|]. split; [reflexivity|]. split; [reflexivity|].
    exists doc, doc. rewrite Hin. split; [reflexivity|]. split; [reflexivity|].
    split; reflexivity.
  - assert (Hnew : contains "Inherits from" (inherits_line c +:+ nl +:+ nl +:+ doc) = true).
    { unfold inherits_line. cbn. reflexivity. }
    cbn [with_doc cls_doc cls_name cls_bases]. rewrite Hnew.
    split; [reflexivity|]. split; [reflexivity|]. split; [reflexivity|].
    exists doc, (inherits_line c +:+ nl +:+ nl +:+ doc). rewrite Hin.
    split; [reflexivity|]. split; [reflexivity|]. split; [exact Hnew | reflexivity].
Qed.

Lemma inherits_line_once_witness :
  insert_bases (with_doc "Inherits from: :class:`Layout <flexx.ui.Layout>`

A box." (Klass "BoxLayout" ["Layout"] 6 (Some "A box.")))
  = Some (with_doc "Inherits from: :class:`Layout <flexx.ui.Layout>`

A box." (Klass "BoxLayout" ["Layout"] 6 (Some "A box."))).
Proof.
  apply (inherits_line_once (Klass "BoxLayout" ["Layout"] 6 (Some "A box."))).
  reflexivity.
Defined.

(** X24: [clean] undoes [main].  Whether [main] returns or raises, the
    files it has recorded are the ones recorded before and the ones it
    has written; after [clean], nothing is recorded any more, no recorded
    file exists, and every other file is as it was before [main]. *)
Theorem clean_after_main mods s :
  exists written,
    created_files (main mods s).1.2 = (created_files s ++ written)%list
    /\ (forall p, p ∈ written -> is_Some (files (main mods s).1.2 p))
    /\ created_files (clean (main mods s).1.2) = []
    /\ (forall p, files (clean (main mods s).1.2) p
                  = if bool_decide (p ∈ (created_files s ++ written)%list)
                    then None else files s p).
Proof.
  destruct (main_spec mods s) as (w & Hc & _ & Hfr & Hex).
  exists w. split; [exact Hc|]. split; [intros p Hp; apply Hex; right; exact Hp|].
  split; [reflexivity|].
  intros p. unfold clean. cbn [files]. rewrite clean_loop_spec, Hc.
  assert (Hrev : bool_decide (p ∈ rev (created_files s ++ w))
                 = bool_decide (p ∈ (created_files s ++ w)%list)).
  { apply bool_decide_ext. rewrite !list_elem_of_In. symmetry. apply in_rev. }
  rewrite Hrev. destruct (bool_decide_reflect (p ∈ (created_files s ++ w)%list)) as [|Hn];
    [reflexivity|].
  apply Hfr. intros H. apply Hn, elem_of_app. right. exact H.
Qed.

(** X25: a class without docstring stops [main].  [main] raises exactly
    when one of the collected classes has no docstring. *)
Theorem main_raises_without_docstring mods s :
  (main mods s).2 = false
  <-> exists pg c, pg ∈ (collect mods).1 /\ c ∈ pg.2 /\ cls_doc c = None.
Proof.
  assert (Hpc : forall classes docs,
            (page_classes classes docs).2 = None
            <-> exists c, c ∈ classes /\ cls_doc c = None).
  { induction classes as [|c r IH]; intros docs; cbn [page_classes].
    - split; [discriminate | intros (c & Hc & _); inversion Hc].
    - unfold insert_bases at 1. destruct (cls_doc c) as [doc|] eqn:Hdoc.
      + assert (E : forall k : klass, (let res := page_classes r
                      (docs +:+ ".. autoclass:: flexx.ui." +:+ cls_name c +:+ nl
                            +:+ " :members:" +:+ nl +:+ nl) in (k :: res.1, res.2)).2
                    = (page_classes r
                      (docs +:+ ".. autoclass:: flexx.ui." +:+ cls_name c +:+ nl
                            +:+ " :members:" +:+ nl +:+ nl)).2) by reflexivity.
        destruct (contains "Inherits from" doc); rewrite E, IH; split.
        * intros (x & Hx & Hn). exists x. split; [right; exact Hx | exact Hn].
        * intros (x & Hx & Hn). apply elem_of_cons in Hx as [->|Hx]; [congruence|].
          exists x. split; assumption.
        * intros (x & Hx & Hn). exists x. split; [right; exact Hx | exact Hn].
        * intros (x & Hx & Hn). apply elem_of_cons in Hx as [->|Hx]; [congruence|].
          exists x. split; assumption.
      + cbn. split; [|reflexivity]. intros _. exists c. split; [left | exact Hdoc]. }
  assert (Hwp : forall ps s0,
            (write_pages ps s0).2 = false
            <-> exists pg c, pg ∈ ps /\ c ∈ pg.2 /\ cls_doc c = None).
  { induction ps as [|[m classes] r IH]; intros s0; cbn [write_pages].
    - split; [discriminate | intros (pg & c & Hpg & _); inversion Hpg].
    - specialize (Hpc classes (page_head m)).
      destruct (page_classes classes (page_head m)) as [classes' [docs|]]; cbn [snd] in Hpc.
      + specialize (IH (write_file (page_file m) docs s0)).
        destruct (write_pages r (write_file (page_file m) docs s0)) as [[r' s'] ok].
        cbn [snd] in *. rewrite IH. split.
        * intros (pg & c & Hpg & Hc & Hn). exists pg, c. split; [right; exact Hpg|].
          split; assumption.
        * intros (pg & c & Hpg & Hc & Hn). apply elem_of_cons in Hpg as [->|Hpg].
          -- cbn [snd] in Hc. destruct Hpc as [_ Hpc].
             discriminate Hpc. exists c. split; assumption.
          -- exists pg, c. repeat split; assumption.
      + cbn [snd]. split; [|reflexivity]. intros _.
        destruct Hpc as [Hpc _]. destruct (Hpc eq_refl) as (c & Hc & Hn).
        exists (m, classes), c. split; [left|]. split; assumption. }
  rewrite main_unfold. cbn zeta.
  specialize (Hwp (sort_by name_le (collect mods).1) s).
  destruct (write_pages (sort_by name_le (collect mods).1) s) as [[ps' s'] ok].
  cbn [fst snd] in *.
  assert (Hmem : forall pg, pg ∈ sort_by name_le (collect mods).1 <-> pg ∈ (collect mods).1).
  { intros pg. rewrite sort_by_perm. reflexivity. }
  destruct ok; cbn [snd].
  - split; [discriminate|]. intros (pg & c & Hpg & Hc & Hn). apply Hwp.
    exists pg, c. split; [apply Hmem, Hpg|]. split; assumption.
  - split; [|reflexivity]. intros _. destruct Hwp as [Hwp _].
    destruct (Hwp eq_refl) as (pg & c & Hpg & Hc & Hn). exists pg, c.
    split; [apply Hmem, Hpg|]. split; assumption.
Qed.

End DocsFacts.
